(** * cluster-api-upgrade-tool: the control-plane and worker upgraders

    A shallow embedding of [pkg/upgrade]: the control-plane orchestrator
    ([ControlPlaneUpgrader]), the machine replacement protocol
    ([MachineCreator]) and the worker path ([MachineDeploymentUpgrader]).

    Go code that talks to a cluster is embedded as a state-and-error monad
    over the upgrader's mutable fields and the chronological trace of API
    calls; every answer of the outside world is given by an oracle that may
    depend on the whole history.  A Go run-time panic (nil pointer
    dereference, write to a nil map) is an outcome of its own, distinct from
    a returned [error].  Calls to the logger are not part of the model. *)

From Stdlib Require Import ZArith NArith Ascii String List Bool Lia.
From Stdlib Require DecimalString HexadecimalString.
From stdpp Require Import base option list gmap strings fin_maps.

Open Scope list_scope.
Open Scope string_scope.

(** ** Small string helpers standing for [fmt] and [strings] *)

(** [%d]: decimal rendering of an integer. *)
Definition Z_to_string (z : Z) : string :=
  DecimalString.NilZero.string_of_int (Z.to_int z).

Definition N_to_string (n : N) : string := Z_to_string (Z.of_N n).

(** [strings.Join]. *)
Fixpoint Join (parts : list string) (sep : string) : string :=
  match parts with
  | [] => ""
  | [p] => p
  | p :: rest => p ++ sep ++ Join rest sep
  end.

(** [strings.Split(s, sep)] for a one-character separator: the pieces
    between the separators, always at least one piece. *)
Fixpoint SplitAux (sep : ascii) (s : string) (cur : string) : list string :=
  match s with
  | EmptyString => [cur]
  | String c rest =>
      if Ascii.eqb c sep then cur :: SplitAux sep rest ""
      else SplitAux sep rest (cur ++ String c EmptyString)
  end.

Definition Split (s : string) (sep : ascii) : list string := SplitAux sep s "".

(** ** github.com/blang/semver: versions and their comparison

    The library is a dependency, not part of the repository; the record and
    [Compare] follow its definitions.  Go's [-1], [0], [1] are rendered as
    [Lt], [Eq], [Gt]. *)

Module Semver.

Record PRVersion := mkPR {
  VersionStr : string;
  VersionNum : N;
  IsNum : bool
}.

Record Version := mkVersion {
  Major : N;
  Minor : N;
  Patch : N;
  Pre : list PRVersion;
  Build : list string
}.

Definition PRCompare (v o : PRVersion) : comparison :=
  if IsNum v && negb (IsNum o) then Lt
  else if negb (IsNum v) && IsNum o then Gt
  else if IsNum v && IsNum o then
    (if N.eqb (VersionNum v) (VersionNum o) then Eq
     else if N.ltb (VersionNum o) (VersionNum v) then Gt else Lt)
  else String.compare (VersionStr v) (VersionStr o).

(** The loop over the common prefix of the two pre-release lists, with the
    length comparison that follows it. *)
Fixpoint ComparePre (v o : list PRVersion) : comparison :=
  match v, o with
  | [], [] => Eq
  | [], _ :: _ => Lt
  | _ :: _, [] => Gt
  | x :: v', y :: o' =>
      match PRCompare x y with
      | Eq => ComparePre v' o'
      | c => c
      end
  end.

Definition Compare (v o : Version) : comparison :=
  if negb (N.eqb (Major v) (Major o)) then
    (if N.ltb (Major o) (Major v) then Gt else Lt)
  else if negb (N.eqb (Minor v) (Minor o)) then
    (if N.ltb (Minor o) (Minor v) then Gt else Lt)
  else if negb (N.eqb (Patch v) (Patch o)) then
    (if N.ltb (Patch o) (Patch v) then Gt else Lt)
  else
    match Pre v, Pre o with
    | [], [] => Eq
    | [], _ :: _ => Gt
    | _ :: _, [] => Lt
    | pv, po => ComparePre pv po
    end.

Definition EQ (v o : Version) : bool :=
  match Compare v o with Eq => true | _ => false end.
Definition LT (v o : Version) : bool :=
  match Compare v o with Lt => true | _ => false end.
Definition GT (v o : Version) : bool :=
  match Compare v o with Gt => true | _ => false end.
Definition LE (v o : Version) : bool :=
  match Compare v o with Gt => false | _ => true end.

Definition PRString (p : PRVersion) : string :=
  if IsNum p then N_to_string (VersionNum p) else VersionStr p.

(** [Version.String]: [major.minor.patch[-pre][+build]]. *)
Definition VString (v : Version) : string :=
  N_to_string (Major v) ++ "." ++ N_to_string (Minor v) ++ "."
    ++ N_to_string (Patch v)
    ++ (match Pre v with
        | [] => ""
        | ps => "-" ++ Join (map PRString ps) "."
        end)
    ++ (match Build v with
        | [] => ""
        | bs => "+" ++ Join bs "."
        end).

(** The zero value of the struct. *)
Definition zero : Version := mkVersion 0 0 0 [] [].

End Semver.

Import Semver.

(** ** Errors and outcomes *)

(** The reason an API status error carries, as far as the code asks. *)
Inductive StatusReason := ReasonNotFound | ReasonAlreadyExists | ReasonOther.

Inductive error :=
| StatusError (r : StatusReason) (msg : string)
| ErrorNew (msg : string)
| ErrWaitTimeout
| Wrap (e : error) (msg : string)
| WithStackErr (e : error).

(** [apierrors.IsNotFound] and [apierrors.IsAlreadyExists]; both are false
    on [nil] and on a wrapped error. *)
Definition IsNotFound (e : option error) : bool :=
  match e with Some (StatusError ReasonNotFound _) => true | _ => false end.
Definition IsAlreadyExists (e : option error) : bool :=
  match e with Some (StatusError ReasonAlreadyExists _) => true | _ => false end.

(** [errors.WithStack]: [nil] stays [nil]. *)
Definition WithStack (e : option error) : option error :=
  match e with Some e' => Some (WithStackErr e') | None => None end.

Inductive outcome (A : Type) :=
| Ok (a : A)
| Err (e : error)
| Panic (msg : string).
Arguments Ok {A} a.
Arguments Err {A} e.
Arguments Panic {A} msg.

Definition nilDeref : string := "invalid memory address or nil pointer dereference".
Definition nilMapWrite : string := "assignment to entry in nil map".

Definition dquote : ascii := "034"%char.
Definition backslash : ascii := "092"%char.

Definition lowerhex (n : N) : ascii :=
  match String.get (N.to_nat n) "0123456789abcdef" with
  | Some digit => digit
  | None => "0"%char
  end.

(** What [strconv.Quote] writes for one byte below 128: a backslash before
    a double quote and before a backslash, the byte itself when it is
    printable (32 to 126), the escapes [\a \b \t \n \v \f \r] for 7 to
    13, and [\x] with two lower-case hexadecimal digits for the other
    control bytes and 127.  A byte from 128 on is copied, which is what
    [strconv.Quote] does inside the encoding of a printable character; it
    escapes the other characters, and the model is not theirs. *)
Definition escapedByte (c : ascii) : string :=
  let n := N_of_ascii c in
  if (n =? 34)%N || (n =? 92)%N then String backslash (String c EmptyString)
  else if (32 <=? n)%N && (n <=? 126)%N then String c EmptyString
  else match n with
       | 7%N => String backslash "a"
       | 8%N => String backslash "b"
       | 9%N => String backslash "t"
       | 10%N => String backslash "n"
       | 11%N => String backslash "v"
       | 12%N => String backslash "f"
       | 13%N => String backslash "r"
       | _ =>
           if (n <? 128)%N
           then String backslash
                  (String "x" (String (lowerhex (n / 16)) (String (lowerhex (n mod 16))
                     EmptyString)))
           else String c EmptyString
       end.

Fixpoint escaped (s : string) : string :=
  match s with
  | EmptyString => EmptyString
  | String c rest => escapedByte c ++ escaped rest
  end.

(** The [%q] verb: the string between double quotes, escaped as
    [strconv.Quote] does. *)
Definition quoted (s : string) : string :=
  String dquote (escaped s ++ String dquote EmptyString).

(** ** The objects of the cluster API, as far as the upgraders read them *)

(** A decoded [interface{}] value of a YAML or JSON document. *)
#[warnings="-register-all"]
Inductive Value :=
| VNull
| VBool (b : bool)
| VNumber (repr : string)
| VStr (s : string)
| VArray (items : list Value)
| VObject (fields : list (string * Value)).

Record ObjectReference := mkRef {
  refKind : string;
  refNamespace : string;
  refName : string;
  refAPIVersion : string;
  refResourceVersion : string
}.

Record OwnerReference := mkOwner {
  ownerKind : string;
  ownerName : string
}.

(** An [unstructured.Unstructured]: the metadata the code touches and the
    content of its [spec]. *)
Record Unstructured := mkUnstructured {
  uAPIVersion : string;
  uKind : string;
  uNamespace : string;
  uName : string;
  uResourceVersion : string;
  uOwnerReferences : list OwnerReference;
  uSpec : gmap string Value
}.

(** [Version], [ProviderID] and [Bootstrap.ConfigRef] are pointers in Go:
    [None] is [nil]. *)
Record MachineSpec := mkMachineSpec {
  specVersion : option string;
  specProviderID : option string;
  specInfrastructureRef : ObjectReference;
  specBootstrapConfigRef : option ObjectReference
}.

(** [mAnnotations] is a Go map: [None] is the nil map. *)
Record Machine := mkMachine {
  mName : string;
  mNamespace : string;
  mResourceVersion : string;
  mAnnotations : option (gmap string string);
  mSpec : MachineSpec
}.

Record MachineDeployment := mkMachineDeployment {
  mdName : string;
  mdNamespace : string;
  mdTemplateAnnotations : option (gmap string string);
  mdTemplateSpec : MachineSpec
}.

Record NodeAddress := mkAddress {
  addrType : string;
  addrAddress : string
}.

Record Node := mkNode {
  nName : string;
  nProviderID : string;
  nAddresses : list NodeAddress
}.

Record PodCondition := mkCondition {
  condType : string;
  condStatus : string
}.

Record Pod := mkPod {
  pName : string;
  pNamespace : string;
  pNodeName : string;
  pPodIP : string;
  pConditions : list PodCondition
}.

(** A ConfigMap; [D] is what stands for the [Data] map: the map itself on
    the wire, a reference into the map store once the object is in memory. *)
Record ConfigMapOf (D : Type) := mkConfigMap {
  cmName : string;
  cmNamespace : string;
  cmResourceVersion : string;
  cmData : D
}.
Arguments mkConfigMap {D} _ _ _ _.
Arguments cmName {D} _.
Arguments cmNamespace {D} _.
Arguments cmResourceVersion {D} _.
Arguments cmData {D} _.

Definition ConfigMap : Type := ConfigMapOf (option (gmap string string)).

Record PolicyRule := mkRule {
  ruleVerbs : list string;
  ruleAPIGroups : list string;
  ruleResources : list string;
  ruleResourceNames : list string
}.

Record Role := mkRole {
  roleNamespace : string;
  roleName : string;
  roleRules : list PolicyRule
}.

Record Subject := mkSubject {
  subjAPIGroup : string;
  subjKind : string;
  subjName : string
}.

Record RoleBinding := mkRoleBinding {
  rbNamespace : string;
  rbName : string;
  rbSubjects : list Subject;
  rbRoleRef : Subject
}.

Record etcdMember := mkMember {
  ID : N;
  Name : string;
  ClientURLs : list string
}.

(** [noderefutil.ProviderID]. *)
Record ProviderID := mkProviderID {
  pidOriginal : string;
  pidCloudProvider : string;
  pidID : string
}.

Definition ProviderID_Equals (p o : ProviderID) : bool :=
  String.eqb (pidCloudProvider p) (pidCloudProvider o)
  && String.eqb (pidID p) (pidID o).

(** ** Calls to the outside world and their answers *)

Inductive call :=
| ListMachines (clusterName namespace : string)
| ListMachineDeployments (clusterName namespace : string)
| GetConfigMap (name : string)
| CreateConfigMap (cm : ConfigMap)
| UpdateConfigMap (cm : ConfigMap)
| GetRole (name : string)
| CreateRole (r : Role)
| GetRoleBinding (name : string)
| CreateRoleBinding (rb : RoleBinding)
| ListPods (labelSelector : string)
| GetPod (name : string)
| ListNodes
| PodExec (namespace name : string) (command : list string)
| GetObject (ref : ObjectReference) (namespace : string)
| CreateObject (obj : Unstructured)
| CreateMachine (m : Machine)
| GetMachine (namespace name : string)
| DeleteMachine (m : Machine)
| PatchMachine (updated original : Machine)
| PatchMachineDeployment (updated original : MachineDeployment).

Inductive reply :=
| RErr (err : option error)
| RMachines (items : list Machine) (err : option error)
| RMachineDeployments (items : list MachineDeployment) (err : option error)
| RConfigMap (cm : ConfigMap) (err : option error)
| RPods (items : list Pod) (err : option error)
| RPod (p : Pod) (err : option error)
| RNodes (items : list Node) (err : option error)
| RExec (stdout stderr : string) (err : option error)
| RObject (obj : Unstructured) (err : option error)
| RMachine (m : Machine) (err : option error).

Definition event : Type := call * reply.

(** An answer of the wrong shape is read as a failed call. *)
Definition malformed : option error := Some (ErrorNew "malformed reply").

Definition emptyRef : ObjectReference := mkRef "" "" "" "" "".
Definition emptySpec : MachineSpec := mkMachineSpec None None emptyRef None.
Definition emptyMachine : Machine := mkMachine "" "" "" None emptySpec.
Definition emptyPod : Pod := mkPod "" "" "" "" [].
Definition emptyNode : Node := mkNode "" "" [].
Definition emptyConfigMap : ConfigMap := mkConfigMap "" "" "" None.
Definition emptyUnstructured : Unstructured := mkUnstructured "" "" "" "" "" [] ∅.

Definition reply_err (r : reply) : option error :=
  match r with RErr e => e | _ => malformed end.
Definition reply_machines (r : reply) : list Machine * option error :=
  match r with RMachines l e => (l, e) | _ => ([], malformed) end.
Definition reply_machineDeployments (r : reply)
  : list MachineDeployment * option error :=
  match r with RMachineDeployments l e => (l, e) | _ => ([], malformed) end.
Definition reply_configMap (r : reply) : ConfigMap * option error :=
  match r with RConfigMap c e => (c, e) | _ => (emptyConfigMap, malformed) end.
Definition reply_pods (r : reply) : list Pod * option error :=
  match r with RPods l e => (l, e) | _ => ([], malformed) end.
Definition reply_pod (r : reply) : Pod * option error :=
  match r with RPod p e => (p, e) | _ => (emptyPod, malformed) end.
Definition reply_nodes (r : reply) : list Node * option error :=
  match r with RNodes l e => (l, e) | _ => ([], malformed) end.
Definition reply_exec (r : reply) : string * string * option error :=
  match r with RExec o e x => (o, e, x) | _ => ("", "", malformed) end.
Definition reply_object (r : reply) : Unstructured * option error :=
  match r with RObject o e => (o, e) | _ => (emptyUnstructured, malformed) end.
Definition reply_machine (r : reply) : Machine * option error :=
  match r with RMachine m e => (m, e) | _ => (emptyMachine, malformed) end.

(** Everything the package takes from outside: the cluster ([api], an
    arbitrary function of the history and the call), the clock, and the
    library functions it calls.  [pollTicks interval timeout history] is the
    number of ticks the ticker of a poll started after [history] delivers
    before the poll's timeout fires: it depends on how long each attempt
    takes, which the program does not decide.  [updateMachineSpecImage] and
    the variable [unsetVersion] belong to the package but their files are
    not among the sources: the first only edits the spec it is given, the
    second is the version that stands for no version. *)
Record Env := mkEnv {
  api : list event -> call -> reply;
  nowUnix : list event -> Z;
  pollTicks : N -> N -> list event -> nat;
  ParseTolerant : string -> outcome Version;
  NewProviderID : string -> outcome ProviderID;
  jsonUnmarshalMembers : string -> outcome (list etcdMember);
  yamlUnmarshal : string -> outcome (gmap string Value);
  yamlMarshal : gmap string Value -> outcome string;
  updateMachineSpecImage : MachineSpec -> string -> string -> outcome MachineSpec;
  unsetVersion : Version
}.

(** The configuration of an upgrader ([base]), fixed for a run. *)
Record Config := mkConfig {
  clusterName : string;
  clusterNamespace : string;
  userVersion : Version;
  upgradeID : string;
  imageField : string;
  imageID : string
}.

(** The fields a run assigns, and the history of calls, oldest first. *)
Record state := mkState {
  desiredVersion : Version;
  oldNodeToEtcdMember : gmap string string;
  providerIDsToNodes : gmap string Node;
  trace : list event
}.

(** ** The monad *)

Definition M (A : Type) : Type := state -> outcome A * state.

Definition ret {A} (a : A) : M A := fun st => (Ok a, st).
Definition fail {A} (e : error) : M A := fun st => (Err e, st).
Definition panic {A} (msg : string) : M A := fun st => (Panic msg, st).

Definition bind {A B} (m : M A) (k : A -> M B) : M B :=
  fun st =>
    match m st with
    | (Ok a, st') => k a st'
    | (Err e, st') => (Err e, st')
    | (Panic p, st') => (Panic p, st')
    end.

Notation "x <- m ;; k" := (bind m (fun x => k))
  (at level 100, m at next level, right associativity).
Notation "m ;;; k" := (bind m (fun _ => k))
  (at level 100, right associativity).

Definition lift {A} (o : outcome A) : M A := fun st => (o, st).

(** [if err != nil { return f(err) }] around a call that reports failure
    through the monad. *)
Definition wrapping {A} (f : error -> error) (m : M A) : M A :=
  fun st =>
    match m st with
    | (Err e, st') => (Err (f e), st')
    | r => r
    end.

(** [if err != nil { return f(err) }] for an error value at hand. *)
Definition check (f : error -> error) (err : option error) : M unit :=
  match err with
  | Some e => fail (f e)
  | None => ret tt
  end.

Definition getState : M state := fun st => (Ok st, st).

Definition setDesiredVersion (v : Version) : M unit :=
  fun st => (Ok tt, mkState v (oldNodeToEtcdMember st) (providerIDsToNodes st) (trace st)).
Definition setOldNodeToEtcdMember (m : gmap string string) : M unit :=
  fun st => (Ok tt, mkState (desiredVersion st) m (providerIDsToNodes st) (trace st)).
Definition setProviderIDsToNodes (m : gmap string Node) : M unit :=
  fun st => (Ok tt, mkState (desiredVersion st) (oldNodeToEtcdMember st) m (trace st)).

Definition record (ev : event) (st : state) : state :=
  mkState (desiredVersion st) (oldNodeToEtcdMember st) (providerIDsToNodes st)
    (trace st ++ [ev])%list.

(** ** Constants and small pure helpers of the package *)

Definition KindAWSMachine : string := "AWSMachine".
Definition UpgradeIDAnnotationKey : string := "upgrade-id".
Definition etcdCACertFile : string := "/etc/kubernetes/pki/etcd/ca.crt".
Definition etcdCertFile : string := "/etc/kubernetes/pki/etcd/peer.crt".
Definition etcdKeyFile : string := "/etc/kubernetes/pki/etcd/peer.key".
Definition NodeHostName : string := "Hostname".

(** Durations in seconds. *)
Definition Second : N := 1.
Definition Minute : N := 60.

Definition isMinorVersionUpgrade (base update : Version) : bool :=
  N.eqb (Major base) (Major update) && N.ltb (Minor base) (Minor update).

(** The body of [hostnameForNode]'s loop. *)
Fixpoint firstHostname (addresses : list NodeAddress) : string :=
  match addresses with
  | [] => ""
  | address :: rest =>
      if String.eqb (addrType address) NodeHostName then addrAddress address
      else firstHostname rest
  end.

(** [node] is a pointer; reading [node.Status] through [nil] panics. *)
Definition hostnameForNode (node : option Node) : outcome string :=
  match node with
  | None => Panic nilDeref
  | Some n => Ok (firstHostname (nAddresses n))
  end.

(** Lookup in a possibly nil Go map, [val, ok := m[k]]. *)
Definition annotationLookup (m : option (gmap string string)) (k : string)
  : option string :=
  match m with
  | None => None
  | Some m' => m' !! k
  end.

(** [val, ok := annotations[UpgradeIDAnnotationKey]; ok && val == id]. *)
Definition hasUpgradeID (annotations : option (gmap string string)) (id : string)
  : bool :=
  match annotationLookup annotations UpgradeIDAnnotationKey with
  | Some val => String.eqb val id
  | None => false
  end.

(** [m[k] = v], after the nil check that both writers of annotations make. *)
Definition annotate (annotations : option (gmap string string)) (k v : string)
  : option (gmap string string) :=
  Some (<[k := v]> (default ∅ annotations)).

(** ** The machine creator *)

Record MachineOptions := mkMachineOptions {
  ImageID : string;
  ImageField : string;
  DesiredVersion : Version
}.

(** The clients, the getters and the logger of the Go struct are the
    oracle of the model and have no field here. *)
Record MachineCreator := mkMachineCreator {
  shouldWaitForProviderID : bool;
  shouldWaitForMatchingNode : bool;
  shouldWaitForNodeReady : bool;
  creatorOptions : MachineOptions;
  providerIDTimeout : N;
  matchingNodeTimeout : N;
  nodeReadyTimeout : N
}.

Definition MachineCreatorOption : Type := MachineCreator -> MachineCreator.

Definition ShouldWaitForProviderID (should : bool) : MachineCreatorOption :=
  fun n => mkMachineCreator should (shouldWaitForMatchingNode n)
    (shouldWaitForNodeReady n) (creatorOptions n) (providerIDTimeout n)
    (matchingNodeTimeout n) (nodeReadyTimeout n).
Definition ShouldWaitForNodeReady (should : bool) : MachineCreatorOption :=
  fun n => mkMachineCreator (shouldWaitForProviderID n)
    (shouldWaitForMatchingNode n) should (creatorOptions n)
    (providerIDTimeout n) (matchingNodeTimeout n) (nodeReadyTimeout n).
Definition WithMachineOptions (mo : MachineOptions) : MachineCreatorOption :=
  fun n => mkMachineCreator (shouldWaitForProviderID n)
    (shouldWaitForMatchingNode n) (shouldWaitForNodeReady n) mo
    (providerIDTimeout n) (matchingNodeTimeout n) (nodeReadyTimeout n).
Definition WithProviderIDTimeout (timeout : N) : MachineCreatorOption :=
  fun n => mkMachineCreator (shouldWaitForProviderID n)
    (shouldWaitForMatchingNode n) (shouldWaitForNodeReady n) (creatorOptions n)
    timeout (matchingNodeTimeout n) (nodeReadyTimeout n).
Definition WithMatchingNodeTimeout (timeout : N) : MachineCreatorOption :=
  fun n => mkMachineCreator (shouldWaitForProviderID n)
    (shouldWaitForMatchingNode n) (shouldWaitForNodeReady n) (creatorOptions n)
    (providerIDTimeout n) timeout (nodeReadyTimeout n).
Definition WithNodeReadyTimeout (timeout : N) : MachineCreatorOption :=
  fun n => mkMachineCreator (shouldWaitForProviderID n)
    (shouldWaitForMatchingNode n) (shouldWaitForNodeReady n) (creatorOptions n)
    (providerIDTimeout n) (matchingNodeTimeout n) timeout.

Definition NewMachineCreator (options : list MachineCreatorOption) : MachineCreator :=
  fold_left (fun creator fn => fn creator) options
    (mkMachineCreator true true true (mkMachineOptions "" "" Semver.zero)
       (15 * Minute) (10 * Minute) (15 * Minute)).

Definition components : list string :=
  ["etcd"; "kube-apiserver"; "kube-scheduler"; "kube-controller-manager"].

Definition requiredConditions : gset string :=
  {[ "PodScheduled"; "Initialized"; "Ready"; "ContainersReady" ]}.

(** The conditions of a pod whose status is the string [True]. *)
Definition foundConditions (conditions : list PodCondition) : gset string :=
  fold_left
    (fun found condition =>
       if String.eqb (condStatus condition) "True"
       then found ∪ {[ condType condition ]}
       else found)
    conditions ∅.

Definition missingConditions (p : Pod) : gset string :=
  requiredConditions ∖ foundConditions (pConditions p).

(** The edits [NewMachine] makes to the copy of its source before the
    image and the version are set. *)
Definition clearedCopy (name : string) (source : Machine) : Machine :=
  mkMachine name (mNamespace source) "" (mAnnotations source)
    (mkMachineSpec (specVersion (mSpec source)) None
       (specInfrastructureRef (mSpec source))
       (specBootstrapConfigRef (mSpec source))).

Definition withSpec (m : Machine) (s : MachineSpec) : Machine :=
  mkMachine (mName m) (mNamespace m) (mResourceVersion m) (mAnnotations m) s.

Definition withVersion (s : MachineSpec) (v : string) : MachineSpec :=
  mkMachineSpec (Some v) (specProviderID s) (specInfrastructureRef s)
    (specBootstrapConfigRef s).

Section MachineCreatorMethods.
Context (E : Env).

(** One call to the outside world: the oracle answers from the history,
    and call and answer join the trace. *)
Definition doCall (c : call) : M reply :=
  fun st => let r := api E (trace st) c in (Ok r, record (c, r) st).

(** [wait.PollImmediate(interval, timeout, condition)]: the condition is
    tried at once, then once for every tick of the ticker, and once more
    when the timeout closes the ticker's channel; only after that last
    attempt is [ErrWaitTimeout] returned.  An error of the condition ends
    the poll.  [pollLoop n] is one attempt followed by at most [n] more;
    [V] is the variable the condition closure assigns.  The number of ticks
    comes from the environment.  With a timeout of zero the library sets no
    timer and the poll ends only when the condition does; the model gives it
    the closing attempt like any other, so it is the library's poll for
    positive timeouts only. *)
Fixpoint pollLoop {V} (n : nat) (condition : V -> M (bool * V)) (v : V) : M V :=
  bind (condition v) (fun r =>
    if fst r then ret (snd r)
    else match n with
         | O => fail ErrWaitTimeout
         | S n' => pollLoop n' condition (snd r)
         end).

Definition PollImmediate {V} (interval timeout : N)
    (condition : V -> M (bool * V)) (v : V) : M V :=
  fun st =>
    pollLoop (S (pollTicks E interval timeout (trace st))) condition v st.

Definition waitForProviderID (ns name : string) (timeout : N) : M string :=
  wrapping (fun err => Wrap err "timed out waiting for machine provider id")
    (PollImmediate (5 * Second) timeout
       (fun providerID =>
          r <- doCall (GetMachine ns name) ;;
          let (machine, err) := reply_machine r in
          check WithStackErr err ;;;
          match specProviderID (mSpec machine) with
          | None => ret (false, providerID)
          | Some p =>
              if negb (String.eqb p "") then ret (true, p) else ret (false, p)
          end)
       "").

(** The scan of [nodes.Items] inside the matching-node condition. *)
Fixpoint findMatchingNode (providerID : ProviderID) (nodes : list Node)
    (matchingNode : Node) : outcome (bool * Node) :=
  match nodes with
  | [] => Ok (false, matchingNode)
  | node :: rest =>
      match NewProviderID E (nProviderID node) with
      | Ok nodeID =>
          if ProviderID_Equals providerID nodeID then Ok (true, node)
          else findMatchingNode providerID rest matchingNode
      | Err e => Err e
      | Panic p => Panic p
      end
  end.

Definition waitForMatchingNode (rawProviderID : string) (timeout : N)
  : M (option Node) :=
  providerID <- lift (NewProviderID E rawProviderID) ;;
  matchingNode <-
    wrapping (fun err => Wrap err "timed out waiting for matching node")
      (PollImmediate (5 * Second) timeout
         (fun matchingNode =>
            r <- doCall ListNodes ;;
            let (nodes, err) := reply_nodes r in
            check (fun e => e) err ;;;
            lift (findMatchingNode providerID nodes matchingNode))
         emptyNode) ;;
  ret (Some matchingNode).

(** The loop of [isReady] over the components still to check. *)
Fixpoint isReadyLoop (cs : list string) (nodeHostname : string) : M bool :=
  match cs with
  | [] => ret true
  | component :: rest =>
      let podName := component ++ "-" ++ nodeHostname in
      r <- doCall (GetPod podName) ;;
      let (pod, err) := reply_pod r in
      if IsNotFound err then ret false
      else match err with
           | Some _ => ret false
           | None =>
               if Nat.ltb 0 (size (missingConditions pod)) then ret false
               else isReadyLoop rest nodeHostname
           end
  end.

Definition isReady (nodeHostname : string) : M bool :=
  isReadyLoop components nodeHostname.

Definition waitForNodeReady (newNode : option Node) (timeout : N) : M unit :=
  nodeHostname <- lift (hostnameForNode newNode) ;;
  if String.eqb nodeHostname "" then
    fail (ErrorNew ("unable to find hostname for node "
                      ++ match newNode with Some n => nName n | None => "" end))
  else
    wrapping
      (fun err => Wrap err ("components on node "
                              ++ match newNode with Some n => nName n | None => "" end
                              ++ " are not ready"))
      (PollImmediate (15 * Second) timeout
         (fun _ : unit => ready <- isReady nodeHostname ;; ret (ready, tt))
         tt).

(** [namespace] is a parameter the body never reads: the new machine keeps
    the namespace of its source. *)
Definition NewMachine (n : MachineCreator) (namespace name : string)
    (source : Machine) : M (Machine * option Node) :=
  let newMachine := clearedCopy name source in
  spec <-
    (if negb (String.eqb (ImageField (creatorOptions n)) "")
        && negb (String.eqb (ImageID (creatorOptions n)) "")
     then lift (updateMachineSpecImage E (mSpec newMachine)
                  (ImageField (creatorOptions n)) (ImageID (creatorOptions n)))
     else ret (mSpec newMachine)) ;;
  let desiredVersion := VString (DesiredVersion (creatorOptions n)) in
  let newMachine := withSpec newMachine (withVersion spec desiredVersion) in
  r <- doCall (CreateMachine newMachine) ;;
  check (fun err => Wrap err ("Error creating machine: " ++ mName newMachine))
    (reply_err r) ;;;
  if shouldWaitForProviderID n then
    providerID <- waitForProviderID (mNamespace newMachine) (mName newMachine)
                    (providerIDTimeout n) ;;
    if shouldWaitForMatchingNode n then
      node <- waitForMatchingNode providerID (matchingNodeTimeout n) ;;
      if shouldWaitForNodeReady n then
        waitForNodeReady node (nodeReadyTimeout n) ;;;
        ret (newMachine, node)
      else ret (newMachine, node)
    else ret (newMachine, None)
  else ret (newMachine, None).

End MachineCreatorMethods.

(** ** The Data map of a ConfigMap in memory

    A Go map is a reference: [DeepCopy] allocates a new map, an assignment
    [m[k] = v] writes through the reference.  The store holds the maps; a
    [Data] field is [None] for the nil map or the index of its map. *)

Abbreviation mapStore := (list (gmap string string)).
Definition InMemoryConfigMap : Type := ConfigMapOf (option nat).

Definition mapAt (h : mapStore) (l : nat) : gmap string string :=
  default ∅ (h !! l).

(** [m[k]] as a value: the empty string for a missing key or a nil map. *)
Definition mapIndex (h : mapStore) (m : option nat) (k : string) : string :=
  match m with
  | None => ""
  | Some l => default "" (mapAt h l !! k)
  end.

(** [m[k] = v]. *)
Definition mapAssign (h : mapStore) (m : option nat) (k v : string)
  : outcome mapStore :=
  match m with
  | None => Panic nilMapWrite
  | Some l => Ok (<[l := <[k := v]> (mapAt h l)]> h)
  end.

(** [DeepCopy] of a [ConfigMap]. *)
Definition DeepCopy (cm : InMemoryConfigMap) (h : mapStore)
  : InMemoryConfigMap * mapStore :=
  match cmData cm with
  | None => (cm, h)
  | Some l =>
      (mkConfigMap (cmName cm) (cmNamespace cm) (cmResourceVersion cm)
         (Some (length h)),
       (h ++ [mapAt h l])%list)
  end.

(** What the client does with a ConfigMap it reads and with one it sends. *)
Definition decodeConfigMap (cm : ConfigMap) : InMemoryConfigMap * mapStore :=
  match cmData cm with
  | None => (mkConfigMap (cmName cm) (cmNamespace cm) (cmResourceVersion cm) None, [])
  | Some d =>
      (mkConfigMap (cmName cm) (cmNamespace cm) (cmResourceVersion cm) (Some 0%nat),
       [d])
  end.

Definition encodeConfigMap (h : mapStore) (cm : InMemoryConfigMap) : ConfigMap :=
  mkConfigMap (cmName cm) (cmNamespace cm) (cmResourceVersion cm)
    (match cmData cm with
     | None => None
     | Some l => Some (mapAt h l)
     end).

Section KubeadmConfig.
Context (E : Env).

(** [original] is a pointer the callers never pass as [nil]. *)
Definition updateKubeadmKubernetesVersion (original : InMemoryConfigMap)
    (version : string) (h : mapStore) : outcome InMemoryConfigMap * mapStore :=
  let (cm, h1) := DeepCopy original h in
  match yamlUnmarshal E (mapIndex h1 (cmData cm) "ClusterConfiguration") with
  | Err err =>
      (Err (Wrap err "error decoding kubeadm configmap ClusterConfiguration"), h1)
  | Panic p => (Panic p, h1)
  | Ok clusterConfig =>
      let clusterConfig := <["kubernetesVersion" := VStr version]> clusterConfig in
      match yamlMarshal E clusterConfig with
      | Err err =>
          (Err (Wrap err "error encoding kubeadm configmap ClusterConfiguration"), h1)
      | Panic p => (Panic p, h1)
      | Ok updated =>
          match mapAssign h1 (cmData cm) "ClusterConfiguration" updated with
          | Ok h2 => (Ok cm, h2)
          | Err err => (Err err, h1)
          | Panic p => (Panic p, h1)
          end
      end
  end.

End KubeadmConfig.

(** ** The control-plane upgrader *)

Definition uint64_sub (a b : N) : N := ((a + 2 ^ 64 - b) mod 2 ^ 64)%N.

Definition kubeletConfigMapName (major minor : N) : string :=
  "kubelet-config-" ++ N_to_string major ++ "." ++ N_to_string minor.

Definition setObjectMeta (cm : ConfigMap) (name resourceVersion : string) : ConfigMap :=
  mkConfigMap name (cmNamespace cm) resourceVersion (cmData cm).

(** [strconv.FormatUint(id, 16)]. *)
Definition FormatUint16 (id : N) : string :=
  HexadecimalString.NilZero.string_of_uint (N.to_hex_uint id).

Section ControlPlaneUpgrader.
Context (E : Env) (cfg : Config).

Definition listMachines : M (list Machine) :=
  r <- doCall E (ListMachines (clusterName cfg) (clusterNamespace cfg)) ;;
  let (machines, err) := reply_machines r in
  check (fun err => Wrap err "error listing machines") err ;;;
  ret machines.

(** The loop of [minMaxControlPlaneVersions]; [machine.Spec.Version] is
    dereferenced before it is compared.  [min] and [max] start as the zero
    value of [semver.Version]. *)
Fixpoint minMaxLoop (items : list Machine) (min max : Version)
  : outcome (Version * Version) :=
  match items with
  | [] => Ok (min, max)
  | machine :: rest =>
      match specVersion (mSpec machine) with
      | None => Panic nilDeref
      | Some version =>
          if negb (String.eqb version "") then
            match ParseTolerant E version with
            | Err err =>
                Err (Wrap err ("invalid control plane version " ++ quoted version
                                 ++ " for machine " ++ mNamespace machine ++ "/"
                                 ++ mName machine))
            | Panic p => Panic p
            | Ok machineVersion =>
                let min := if EQ min (unsetVersion E) || LT machineVersion min
                           then machineVersion else min in
                let max := if EQ max (unsetVersion E) || GT machineVersion max
                           then machineVersion else max in
                minMaxLoop rest min max
            end
          else minMaxLoop rest min max
      end
  end.

Definition minMaxControlPlaneVersions (machines : list Machine)
  : outcome (Version * Version) :=
  minMaxLoop machines Semver.zero Semver.zero.

Definition getConfigMap (name : string) : M (ConfigMap * option error) :=
  r <- doCall E (GetConfigMap name) ;; ret (reply_configMap r).

Definition updateKubeletConfigMapIfNeeded (version : Version) : M unit :=
  let desiredKubeletConfigMapName :=
    kubeletConfigMapName (Major version) (Minor version) in
  got <- getConfigMap desiredKubeletConfigMapName ;;
  match snd got with
  | None => ret tt
  | Some err =>
      if negb (IsNotFound (Some err)) then
        fail (Wrap err ("error determining if configmap "
                          ++ desiredKubeletConfigMapName ++ " exists"))
      else
        let previousMinorVersionKubeletConfigMapName :=
          kubeletConfigMapName (Major version) (uint64_sub (Minor version) 1) in
        got <- getConfigMap previousMinorVersionKubeletConfigMapName ;;
        let (cm, err) := got in
        if IsNotFound err then
          fail (ErrorNew ("unable to find current kubelet configmap "
                            ++ previousMinorVersionKubeletConfigMapName))
        else
          let cm := setObjectMeta cm desiredKubeletConfigMapName "" in
          r <- doCall E (CreateConfigMap cm) ;;
          match reply_err r with
          | Some err =>
              if negb (IsAlreadyExists (Some err)) then
                fail (Wrap err ("error creating configmap "
                                  ++ desiredKubeletConfigMapName))
              else ret tt
          | None => ret tt
          end
  end.

Definition kubeletRole (roleName majorMinor : string) : Role :=
  mkRole "kube-system" roleName
    [mkRule ["get"] [""] ["configmaps"] ["kubelet-config-" ++ majorMinor]].

Definition kubeletRoleBinding (roleName : string) : RoleBinding :=
  mkRoleBinding "kube-system" roleName
    [mkSubject "rbac.authorization.k8s.io" "Group" "system:nodes";
     mkSubject "rbac.authorization.k8s.io" "Group"
       "system:bootstrappers:kubeadm:default-node-token"]
    (mkSubject "rbac.authorization.k8s.io" "Role" roleName).

(** [get; if IsNotFound { create } else if err != nil { return }], the
    shape both halves of [updateKubeletRbacIfNeeded] have. *)
Definition ensureExists (get create : call) (onCreate onGet : error -> error)
  : M unit :=
  r <- doCall E get ;;
  let err := reply_err r in
  if IsNotFound err then
    r <- doCall E create ;;
    match reply_err r with
    | Some err => if negb (IsAlreadyExists (Some err)) then fail (onCreate err)
                  else ret tt
    | None => ret tt
    end
  else check onGet err.

Definition updateKubeletRbacIfNeeded (version : Version) : M unit :=
  let majorMinor := N_to_string (Major version) ++ "." ++ N_to_string (Minor version) in
  let roleName := "kubeadm:kubelet-config-" ++ majorMinor in
  ensureExists (GetRole roleName) (CreateRole (kubeletRole roleName majorMinor))
    (fun err => Wrap err ("error creating role " ++ roleName))
    (fun err => Wrap err ("error determining if role " ++ roleName ++ " exists")) ;;;
  ensureExists (GetRoleBinding roleName) (CreateRoleBinding (kubeletRoleBinding roleName))
    (fun err => Wrap err ("error creating rolebinding " ++ roleName))
    (fun err => Wrap err ("error determining if rolebinding " ++ roleName ++ " exists")).

Definition listEtcdPods : M (list Pod) :=
  r <- doCall E (ListPods "component=etcd") ;;
  let (items, err) := reply_pods r in
  check (fun err => Wrap err "error listing pods") err ;;;
  ret items.

Definition etcdctlCommand (pod : Pod) (args : list string) : list string :=
  let endpoint := "https://" ++ pPodIP pod ++ ":2379" in
  let fullArgs :=
    (["ETCDCTL_API=3"; "etcdctl";
      "--cacert"; etcdCACertFile;
      "--cert"; etcdCertFile;
      "--key"; etcdKeyFile;
      "--endpoints"; endpoint] ++ args)%list in
  (["sh"; "-c"; Join fullArgs " "] ++ args)%list.

(** [kubernetes.PodExec] is the remote exec channel; the context and its
    deadline are not modelled.  Returns stdout and stderr. *)
Definition etcdctlForPod (pod : Pod) (args : list string) : M (string * string) :=
  r <- doCall E (PodExec (pNamespace pod) (pName pod) (etcdctlCommand pod args)) ;;
  let '(stdout, stderr, err) := reply_exec r in
  check (fun err => err) err ;;;
  ret (stdout, stderr).

Definition etcdctl (args : list string) : M (string * string) :=
  pods <- listEtcdPods ;;
  match pods with
  | [] => fail (ErrorNew "found 0 etcd pods")
  | firstPod :: _ => etcdctlForPod firstPod args
  end.

Definition listEtcdMembers (timeout : N) : M (list etcdMember) :=
  out <- etcdctl ["member list -w json"] ;;
  wrapping (fun err => Wrap err "unable to parse etcdctl member list json output")
    (lift (jsonUnmarshalMembers E (fst out))).

Definition etcdClusterHealthCheck (timeout : N) : M unit :=
  members <- listEtcdMembers timeout ;;
  let endpoints := concat (map ClientURLs members) in
  etcdctl ["endpoint health --endpoints"; Join endpoints ","] ;;;
  ret tt.

Definition oldNodeToEtcdMemberId (timeout : N) : M unit :=
  members <- listEtcdMembers timeout ;;
  setOldNodeToEtcdMember
    (fold_left (fun m member => <[Name member := FormatUint16 (ID member)]> m)
       members ∅).

Definition deleteEtcdMember (timeout : N) (newNode etcdMemberId : string) : M unit :=
  pods <- listEtcdPods ;;
  match pods with
  | [] => fail (ErrorNew "found 0 etcd pods")
  | _ =>
      match find (fun p => String.eqb (pNodeName p) newNode) pods with
      | None => fail (ErrorNew ("no new etcd pod found running on node" ++ newNode))
      | Some pod =>
          etcdctlForPod pod ["member"; "remove"; etcdMemberId] ;;; ret tt
      end
  end.

(** Modelled from the spec: [UpdateProviderIDsToNodes] and
    [GetNodeFromProviderID] are methods of [base], whose file is not among
    the sources.  The spec has the orchestrator resolve "the old Machine's
    prior Node via its previously-recorded compute identity": the first
    lists the nodes and records each under its normalized provider id (the
    raw one when it does not parse), the second looks a node up. *)
Definition nodeKey (node : Node) : string :=
  match NewProviderID E (nProviderID node) with
  | Ok providerID => pidID providerID
  | _ => nProviderID node
  end.

Definition UpdateProviderIDsToNodes : M unit :=
  r <- doCall E ListNodes ;;
  let (nodes, err) := reply_nodes r in
  check (fun err => Wrap err "error listing nodes") err ;;;
  setProviderIDsToNodes
    (fold_left (fun pairs node => <[nodeKey node := node]> pairs) nodes ∅).

Definition GetNodeFromProviderID (st : state) (providerID : string) : option Node :=
  providerIDsToNodes st !! providerID.

Definition updateAndUploadKubeadmKubernetesVersion : M unit :=
  got <- getConfigMap "kubeadm-config" ;;
  check (fun err => Wrap err "error getting kubeadm configmap from target cluster")
    (snd got) ;;;
  st <- getState ;;
  let (original, h) := decodeConfigMap (fst got) in
  let (res, h') :=
    updateKubeadmKubernetesVersion E original ("v" ++ VString (desiredVersion st)) h in
  updated <- lift res ;;
  r <- doCall E (UpdateConfigMap (encodeConfigMap h' updated)) ;;
  check (fun err => Wrap err "error updating kubeadm configmap") (reply_err r).

Definition clonedObject (name : string) (object : Unstructured) : Unstructured :=
  mkUnstructured (uAPIVersion object) (uKind object) (uNamespace object)
    name "" [] (delete "providerID" (uSpec object)).

(** [ref] is a pointer: the first statement reads [ref.Namespace]. *)
Definition updateObjectReference (name : string) (ref : option ObjectReference)
  : M (ObjectReference * Unstructured) :=
  match ref with
  | None => panic nilDeref
  | Some ref =>
      let ref := if String.eqb (refNamespace ref) ""
                 then mkRef (refKind ref) "default" (refName ref)
                        (refAPIVersion ref) (refResourceVersion ref)
                 else ref in
      r <- doCall E (GetObject ref (refNamespace ref)) ;;
      let (object, err) := reply_object r in
      check (fun err => err) err ;;;
      ret (mkRef (refKind ref) (refNamespace ref) name (refAPIVersion ref) "",
           clonedObject name object)
  end.

Definition applyAnnotation (m : Machine) : M unit :=
  let original := m in
  let updated :=
    mkMachine (mName m) (mNamespace m) (mResourceVersion m)
      (annotate (mAnnotations m) UpgradeIDAnnotationKey (upgradeID cfg))
      (mSpec m) in
  doCall E (PatchMachine updated original) ;;;
  ret tt.

Definition deleteMachine (machine : Machine) : M unit :=
  r <- doCall E (DeleteMachine machine) ;;
  check (fun err => err) (WithStack (reply_err r)).

(** The call in the source passes [name] and the machine; the namespace the
    creator of that revision was configured with ([WithNamespace]) is the
    first argument here. *)
Definition updateMachine (name : string) (machine : Machine)
    (machineCreator : MachineCreator) : M unit :=
  match specProviderID (mSpec machine) with
  | None => panic nilDeref
  | Some rawProviderID =>
      originalProviderID <- lift (NewProviderID E rawProviderID) ;;
      st <- getState ;;
      match GetNodeFromProviderID st (pidID originalProviderID) with
      | None =>
          fail (ErrorNew ("unknown previous node "
                            ++ quoted (pidOriginal originalProviderID)))
      | Some oldNode =>
          oldHostName <- lift (hostnameForNode (Some oldNode)) ;;
          created <- NewMachine E machineCreator (clusterNamespace cfg) name machine ;;
          let (newMachine, node) := created in
          nodeHostname <- lift (hostnameForNode node) ;;
          UpdateProviderIDsToNodes ;;;
          st <- getState ;;
          let etcdMemberId := default "" (oldNodeToEtcdMember st !! oldHostName) in
          wrapping
            (fun err => Wrap err ("unable to delete old etcd member " ++ etcdMemberId))
            (deleteEtcdMember (1 * Minute) nodeHostname etcdMemberId) ;;;
          deleteMachine machine ;;;
          applyAnnotation newMachine
      end
  end.

Definition withRefs (machine : Machine) (infra : ObjectReference)
    (bootstrap : option ObjectReference) : Machine :=
  withSpec machine
    (mkMachineSpec (specVersion (mSpec machine)) (specProviderID (mSpec machine))
       infra bootstrap).

(** One iteration of the loop of [updateCRDs] on a machine that is not
    skipped. *)
Definition replaceMachine (machineCreator : MachineCreator) (machine : Machine)
  : M unit :=
  let nameParts := Split (mName machine) "-" in
  match nameParts with
  | part0 :: part1 :: _ =>
      st <- getState ;;
      let name := part0 ++ "-" ++ part1 ++ "-" ++ Z_to_string (nowUnix E (trace st)) in
      cloned <- updateObjectReference name
                  (Some (specInfrastructureRef (mSpec machine))) ;;
      let (infraMachine, object) := cloned in
      r <- doCall E (CreateObject object) ;;
      check (fun err => err) (reply_err r) ;;;
      let machine := withRefs machine infraMachine
                       (specBootstrapConfigRef (mSpec machine)) in
      cloned <- updateObjectReference name (specBootstrapConfigRef (mSpec machine)) ;;
      let (bootstrap, object) := cloned in
      let machine := withRefs machine (specInfrastructureRef (mSpec machine))
                       (Some bootstrap) in
      updateMachine name machine machineCreator
  | _ =>
      fail (ErrorNew ("machine name " ++ quoted (mName machine)
                        ++ " does not match expected format <name>-<index> or <name>-<index>-<timestamp>"))
  end.

Fixpoint updateCRDsLoop (machineCreator : MachineCreator) (items : list Machine)
  : M unit :=
  match items with
  | [] => ret tt
  | machine :: rest =>
      if hasUpgradeID (mAnnotations machine) (upgradeID cfg) then
        updateCRDsLoop machineCreator rest
      else match specProviderID (mSpec machine) with
           | None => updateCRDsLoop machineCreator rest
           | Some _ =>
               replaceMachine machineCreator machine ;;;
               updateCRDsLoop machineCreator rest
           end
  end.

Definition updateCRDs (machines : list Machine) : M unit :=
  oldNodeToEtcdMemberId (1 * Minute) ;;;
  st <- getState ;;
  let mo := mkMachineOptions (imageID cfg) (imageField cfg) (desiredVersion st) in
  (* the other options of the source hand over clients, getters and the logger *)
  let machineCreator := NewMachineCreator [WithMachineOptions mo] in
  updateCRDsLoop machineCreator machines.

Definition ControlPlaneUpgrader_Upgrade : M unit :=
  machines <- listMachines ;;
  match machines with
  | [] => fail (ErrorNew "Found 0 control plane machines")
  | _ =>
      versions <-
        wrapping (fun err => Wrap err "error determining current control plane versions")
          (lift (minMaxControlPlaneVersions machines)) ;;
      let (min, max) := versions in
      (if EQ (unsetVersion E) (userVersion cfg) then setDesiredVersion max
       else ret tt) ;;;
      st <- getState ;;
      (if isMinorVersionUpgrade min (desiredVersion st) then
         updateKubeletConfigMapIfNeeded (desiredVersion st) ;;;
         updateKubeletRbacIfNeeded (desiredVersion st)
       else ret tt) ;;;
      etcdClusterHealthCheck (1 * Minute) ;;;
      UpdateProviderIDsToNodes ;;;
      updateAndUploadKubeadmKubernetesVersion ;;;
      updateCRDs machines
  end.

End ControlPlaneUpgrader.

(** ** The worker path *)

Section MachineDeploymentUpgrader.
Context (E : Env) (cfg : Config).

Definition listMachineDeployments : M (list MachineDeployment) :=
  r <- doCall E (ListMachineDeployments (clusterName cfg) (clusterNamespace cfg)) ;;
  let (list, err) := reply_machineDeployments r in
  check (fun err => Wrap err "error listing machines") err ;;;
  ret list.

Definition updateMachineDeployment (machineDeployment : MachineDeployment) : M unit :=
  let original := machineDeployment in
  st <- getState ;;
  let desiredVersion := VString (desiredVersion st) in
  let spec := withVersion (mdTemplateSpec machineDeployment) desiredVersion in
  let annotations :=
    annotate (mdTemplateAnnotations machineDeployment) UpgradeIDAnnotationKey
      (upgradeID cfg) in
  spec <-
    (if negb (String.eqb (imageField cfg) "") && negb (String.eqb (imageID cfg) "")
     then lift (updateMachineSpecImage E spec (imageField cfg) (imageID cfg))
     else ret spec) ;;
  let updated :=
    mkMachineDeployment (mdName machineDeployment) (mdNamespace machineDeployment)
      annotations spec in
  r <- doCall E (PatchMachineDeployment updated original) ;;
  check (fun err => Wrap err ("error patching machinedeployment "
                                ++ mdName machineDeployment))
    (reply_err r).

Fixpoint upgradeMachineDeployments (items : list MachineDeployment) : M unit :=
  match items with
  | [] => ret tt
  | machineDeployment :: rest =>
      if hasUpgradeID (mdTemplateAnnotations machineDeployment) (upgradeID cfg) then
        upgradeMachineDeployments rest
      else
        updateMachineDeployment machineDeployment ;;;
        upgradeMachineDeployments rest
  end.

Definition MachineDeploymentUpgrader_Upgrade : M unit :=
  machineDeployments <- listMachineDeployments ;;
  match machineDeployments with
  | [] => fail (ErrorNew "Found 0 machine deployments")
  | _ => upgradeMachineDeployments machineDeployments
  end.

End MachineDeploymentUpgrader.

(** ** Retrying

    [count] is a Go [int], 64 bits wide: decrementing the least value
    wraps around.  [time.Sleep] between two attempts has no effect on the
    state and is left out.  The recursion of the source is on [fuel] here;
    [retry] starts it with as much as it can use. *)

Definition int64 (z : Z) : Z := ((z + 2 ^ 63) mod 2 ^ 64 - 2 ^ 63)%Z.

Fixpoint retryLoop (fuel : nat) (node : option Node) (count : Z)
    (fn : option Node -> M unit) : M unit :=
  fun st =>
    match fn node st with
    | (Err err, st') =>
        let count := int64 (count - 1) in
        if (0 <? count)%Z then
          match fuel with
          | S fuel' => retryLoop fuel' node count fn st'
          | O => (Err err, st')
          end
        else (Err err, st')
    | r => r
    end.

Definition retry (node : option Node) (count : Z) (interval : N)
    (fn : option Node -> M unit) : M unit :=
  retryLoop (Z.to_nat (int64 (count - 1))) node count fn.

(** ** A concrete cluster

    One control-plane machine [controlplane-0] at v1.13.7 on node
    [ip-10-0-0-1], a cluster that answers every call successfully, and a
    replacement node [ip-10-0-0-9] whose pods are healthy.  The library
    functions are small executable stand-ins that agree with the real ones
    on the inputs used here. *)

Module Scenario.

Definition newline : string := String "010"%char EmptyString.

Definition digitValue (c : ascii) : option N :=
  let n := N_of_ascii c in
  if (48 <=? n)%N && (n <=? 57)%N then Some (n - 48)%N else None.

Fixpoint parseDigitsAux (s : string) (acc : N) : option N :=
  match s with
  | EmptyString => Some acc
  | String c rest =>
      match digitValue c with
      | Some d => parseDigitsAux rest (acc * 10 + d)%N
      | None => None
      end
  end.

Definition parseDigits (s : string) : option N :=
  match s with
  | EmptyString => None
  | _ => parseDigitsAux s 0%N
  end.

(** [semver.ParseTolerant] on the fragment [[v]MAJOR.MINOR.PATCH] of plain
    decimal numbers; anything else is outside the stand-in. *)
Definition parseVersion (s : string) : outcome Version :=
  let s := match s with
           | String "v"%char rest => rest
           | _ => s
           end in
  match Split s "."%char with
  | [a; b; c] =>
      match parseDigits a, parseDigits b, parseDigits c with
      | Some major, Some minor, Some patch =>
          Ok (mkVersion major minor patch [] [])
      | _, _, _ => Err (ErrorNew "Invalid character(s) found in version")
      end
  | _ => Err (ErrorNew "No Major.Minor.Patch elements found")
  end.

(** [noderefutil.NewProviderID] on ids of the form
    [provider:///zone/instance]. *)
Definition parseProviderID (s : string) : outcome ProviderID :=
  match s with
  | EmptyString => Err (ErrorNew "providerID is empty")
  | _ =>
      match Split s "/"%char with
      | provider :: rest =>
          Ok (mkProviderID s provider (List.last rest provider))
      | [] => Err (ErrorNew "providerID is empty")
      end
  end.

(** A YAML codec for flat documents of string fields, one [key: value] per
    line, keys in sorted order. *)
Fixpoint insertSorted (f : string * string) (l : list (string * string))
  : list (string * string) :=
  match l with
  | [] => [f]
  | g :: rest =>
      if String.leb (fst f) (fst g) then f :: l else g :: insertSorted f rest
  end.

Fixpoint stringFields (l : list (string * Value)) : option (list (string * string)) :=
  match l with
  | [] => Some []
  | (k, VStr v) :: rest =>
      match stringFields rest with
      | Some fs => Some (insertSorted (k, v) fs)
      | None => None
      end
  | _ => None
  end.

Definition marshalFlat (doc : gmap string Value) : outcome string :=
  match stringFields (map_to_list doc) with
  | Some fs =>
      Ok (fold_right (fun f acc => fst f ++ ": " ++ snd f ++ newline ++ acc) "" fs)
  | None => Err (ErrorNew "unsupported value")
  end.

(** The text before and after the first [": "] of a line. *)
Fixpoint splitField (s : string) (key : string) : option (string * string) :=
  match s with
  | String ":"%char (String " "%char rest) => Some (key, rest)
  | String c rest => splitField rest (key ++ String c EmptyString)
  | EmptyString => None
  end.

Fixpoint parseLines (lines : list string) (doc : gmap string Value)
  : outcome (gmap string Value) :=
  match lines with
  | [] => Ok doc
  | EmptyString :: rest => parseLines rest doc
  | line :: rest =>
      match splitField line "" with
      | Some (k, v) => parseLines rest (<[k := VStr v]> doc)
      | None => Err (ErrorNew "could not find expected ':'")
      end
  end.

Definition unmarshalFlat (s : string) : outcome (gmap string Value) :=
  parseLines (Split s "010"%char) ∅.

Definition oldNode : Node :=
  mkNode "ip-10-0-0-1" "aws:///us-east-1a/i-old0"
    [mkAddress "InternalIP" "10.0.0.1"; mkAddress "Hostname" "ip-10-0-0-1"].
Definition newNode : Node :=
  mkNode "ip-10-0-0-9" "aws:///us-east-1a/i-new0"
    [mkAddress "InternalIP" "10.0.0.9"; mkAddress "Hostname" "ip-10-0-0-9"].

Definition infraRef : ObjectReference :=
  mkRef "AWSMachine" "default" "controlplane-0"
    "infrastructure.cluster.x-k8s.io/v1alpha2" "41".
Definition bootstrapRef : ObjectReference :=
  mkRef "KubeadmConfig" "default" "controlplane-0"
    "bootstrap.cluster.x-k8s.io/v1alpha2" "42".

Definition machine0 : Machine :=
  mkMachine "controlplane-0" "default" "40" None
    (mkMachineSpec (Some "v1.13.7") (Some "aws:///us-east-1a/i-old0")
       infraRef (Some bootstrapRef)).

(** A control-plane machine that only differs from [machine0] in its name
    and version. *)
Definition machineAt (name version : string) : Machine :=
  mkMachine name "default" "40" None
    (mkMachineSpec (Some version) (Some "aws:///us-east-1a/i-old0")
       infraRef (Some bootstrapRef)).

(** A machine and a worker template a previous run of the same upgrade has
    already handled. *)
Definition doneMachine : Machine :=
  mkMachine "controlplane-1-1562170000" "default" "77"
    (Some (<["upgrade-id" := "upgrade-20190703"]> ∅))
    (mkMachineSpec (Some "1.13.8") (Some "aws:///us-east-1a/i-new1")
       infraRef (Some bootstrapRef)).

Definition doneDeployment : MachineDeployment :=
  mkMachineDeployment "workers" "default"
    (Some (<["upgrade-id" := "upgrade-20190703"]> ∅))
    (mkMachineSpec (Some "1.13.8") None infraRef (Some bootstrapRef)).

Definition healthy : list PodCondition :=
  [mkCondition "Initialized" "True"; mkCondition "Ready" "True";
   mkCondition "ContainersReady" "True"; mkCondition "PodScheduled" "True"].

Definition etcdPods : list Pod :=
  [mkPod "etcd-ip-10-0-0-1" "kube-system" "ip-10-0-0-1" "10.0.0.1" healthy;
   mkPod "etcd-ip-10-0-0-9" "kube-system" "ip-10-0-0-9" "10.0.0.9" healthy].

Definition members : list etcdMember :=
  [mkMember 5782640540428238474 "ip-10-0-0-1" ["https://10.0.0.1:2379"]].

Definition kubeadmConfig : ConfigMap :=
  mkConfigMap "kubeadm-config" "kube-system" "1312"
    (Some (<["ClusterConfiguration" :=
               "clusterName: test1" ++ newline ++ "kubernetesVersion: v1.13.7" ++ newline]>
             (<["ClusterStatus" := "kind: ClusterStatus" ++ newline]> ∅))).

Definition storedObject (ref : ObjectReference) : Unstructured :=
  mkUnstructured (refAPIVersion ref) (refKind ref) (refNamespace ref) (refName ref)
    (refResourceVersion ref) [mkOwner "Machine" (refName ref)]
    (<["providerID" := VStr "aws:///us-east-1a/i-old0"]>
       (<["instanceType" := VStr "t3.large"]> ∅)).

Definition cluster (history : list event) (c : call) : reply :=
  match c with
  | ListMachines _ _ => RMachines [machine0] None
  | ListMachineDeployments _ _ => RMachineDeployments [] None
  | GetConfigMap "kubeadm-config" => RConfigMap kubeadmConfig None
  | GetConfigMap name =>
      RConfigMap emptyConfigMap (Some (StatusError ReasonNotFound name))
  | CreateConfigMap _ | UpdateConfigMap _ => RErr None
  | GetRole _ | GetRoleBinding _ | CreateRole _ | CreateRoleBinding _ => RErr None
  | ListPods _ => RPods etcdPods None
  | GetPod name => RPod (mkPod name "kube-system" "ip-10-0-0-9" "10.0.0.9" healthy) None
  | ListNodes => RNodes [oldNode; newNode] None
  | PodExec _ _ _ => RExec "members" "" None
  | GetObject ref _ => RObject (storedObject ref) None
  | CreateObject _ | CreateMachine _ | DeleteMachine _ => RErr None
  | GetMachine ns name =>
      RMachine (mkMachine name ns "50" None
                  (mkMachineSpec (Some "1.13.8") (Some "aws:///us-east-1a/i-new0")
                     infraRef (Some bootstrapRef))) None
  | PatchMachine _ _ | PatchMachineDeployment _ _ => RErr None
  end.

(** The environment around a cluster: a fixed clock, a ticker none of whose
    ticks is lost, the stand-ins above, and [unset] for the package's unset
    version. *)
Definition envAround (cluster : list event -> call -> reply) (unset : Version) : Env :=
  mkEnv cluster (fun _ => 1562177821%Z)
    (fun interval timeout _ => N.to_nat (timeout / interval))
    parseVersion parseProviderID
    (fun _ => Ok members) unmarshalFlat marshalFlat (fun spec _ _ => Ok spec) unset.

Definition env : Env := envAround cluster Semver.zero.

(** The same cluster, except that it rejects every patch of a Machine. *)
Definition rejectingPatches : Env :=
  envAround
    (fun history c =>
       match c with
       | PatchMachine _ _ =>
           RErr (Some (StatusError ReasonOther "admission webhook denied the request"))
       | _ => cluster history c
       end)
    Semver.zero.

(** The same cluster, except that the first pod lookup of a run fails with
    a read error. *)
Definition flaky : Env :=
  envAround
    (fun history c =>
       match c, history with
       | GetPod _, [] =>
           RPod emptyPod (Some (StatusError ReasonOther "etcdserver: request timed out"))
       | _, _ => cluster history c
       end)
    Semver.zero.

Definition config : Config :=
  mkConfig "test1" "default" (mkVersion 1 13 8 [] []) "upgrade-20190703" "" "".

(** The same run with no version given by the user. *)
Definition unsetConfig : Config :=
  mkConfig "test1" "default" Semver.zero "upgrade-20190703" "" "".

Definition start : state := mkState (mkVersion 1 13 8 [] []) ∅ ∅ [].

(** The state once the nodes of the cluster have been recorded. *)
Definition recorded : state := snd (UpdateProviderIDsToNodes env start).

(** The calls of a trace, without the answers. *)
Definition calls (st : state) : list call := map fst (trace st).

End Scenario.

(** ** Variations of the concrete cluster *)

Module Cases.

(** Whether a call that [p] accepts has been made. *)
Definition asked (p : call -> bool) (history : list event) : bool :=
  existsb (fun ev => p (fst ev)) history.

Definition isGetMachine (c : call) : bool :=
  match c with GetMachine _ _ => true | _ => false end.

Definition isListNodes (c : call) : bool :=
  match c with ListNodes => true | _ => false end.

(** A cluster that is slow to provision: the first read of a Machine shows
    no provider id yet, and the first listing of the nodes does not have
    the new node yet. *)
Definition slow : Env :=
  Scenario.envAround
    (fun history c =>
       match c with
       | GetMachine ns name =>
           if asked isGetMachine history then Scenario.cluster history c
           else RMachine (mkMachine name ns "49" None
                            (mkMachineSpec (Some "1.13.8") None Scenario.infraRef
                               (Some Scenario.bootstrapRef))) None
       | ListNodes =>
           if asked isListNodes history then Scenario.cluster history c
           else RNodes [Scenario.oldNode] None
       | _ => Scenario.cluster history c
       end)
    Semver.zero.

(** The creator [updateCRDs] builds for the upgrade to 1.13.8. *)
Definition creator : MachineCreator :=
  NewMachineCreator [WithMachineOptions (mkMachineOptions "" "" (mkVersion 1 13 8 [] []))].

End Cases.

(** * Specifications

    The predicates the properties below are stated with. *)

(** ** Orders given by a three-way comparison *)

(** What makes a three-way comparison an order up to its own [Eq]. *)
Record order_laws {A} (cmp : A -> A -> comparison) : Prop := mkOrderLaws {
  ol_antisym : forall a b, cmp a b = CompOpp (cmp b a);
  ol_trans : forall a b c, cmp a b = Lt -> cmp b c = Lt -> cmp a c = Lt;
  ol_eq_l : forall a b c, cmp a b = Eq -> cmp a c = cmp b c
}.

Definition lexc (c1 c2 : comparison) : comparison :=
  match c1 with Eq => c2 | c => c end.

(** [PRCompare] read as a lexicographic comparison: numeric identifiers
    come first, then by number or by text. *)
Definition PRClass (p : PRVersion) : N := if IsNum p then 0%N else 1%N.

Definition PRNum (p : PRVersion) : N := if IsNum p then VersionNum p else 0%N.

Definition PRText (p : PRVersion) : string := if IsNum p then "" else VersionStr p.

(** The comparison of the pre-release parts inside [Compare]: a version
    without pre-release identifiers is above one with them. *)
Definition PreCompare (pv po : list PRVersion) : comparison :=
  match pv, po with
  | [], [] => Eq
  | [], _ :: _ => Gt
  | _ :: _, [] => Lt
  | _, _ => ComparePre pv po
  end.

(** ** Events and runs *)

Inductive kind :=
| KListMachines | KListMachineDeployments
| KGetConfigMap | KCreateConfigMap | KUpdateConfigMap
| KGetRole | KCreateRole | KGetRoleBinding | KCreateRoleBinding
| KListPods | KGetPod | KListNodes
| KExec | KMemberRemove
| KGetObject | KCreateObject
| KCreateMachine | KGetMachine | KDeleteMachine | KPatchMachine
| KPatchMachineDeployment.

(** A remote command is a member removal when the arguments passed on to
    [etcdctl] start with [member remove]. *)
Definition isMemberRemove (command : list string) : bool :=
  match command with
  | _ :: _ :: _ :: "member" :: "remove" :: _ => true
  | _ => false
  end.

Definition kindOf (c : call) : kind :=
  match c with
  | ListMachines _ _ => KListMachines
  | ListMachineDeployments _ _ => KListMachineDeployments
  | GetConfigMap _ => KGetConfigMap
  | CreateConfigMap _ => KCreateConfigMap
  | UpdateConfigMap _ => KUpdateConfigMap
  | GetRole _ => KGetRole
  | CreateRole _ => KCreateRole
  | GetRoleBinding _ => KGetRoleBinding
  | CreateRoleBinding _ => KCreateRoleBinding
  | ListPods _ => KListPods
  | GetPod _ => KGetPod
  | ListNodes => KListNodes
  | PodExec _ _ command => if isMemberRemove command then KMemberRemove else KExec
  | GetObject _ _ => KGetObject
  | CreateObject _ => KCreateObject
  | CreateMachine _ => KCreateMachine
  | GetMachine _ _ => KGetMachine
  | DeleteMachine _ => KDeleteMachine
  | PatchMachine _ _ => KPatchMachine
  | PatchMachineDeployment _ _ => KPatchMachineDeployment
  end.

(** The kubeadm-config rewrite is the only [Update] of a ConfigMap. *)
Definition isRewrite (ev : event) : bool :=
  match kindOf (fst ev) with KUpdateConfigMap => true | _ => false end.

(** The steps of one machine's replacement that change the cluster: the
    clones and the new Machine are created, the old etcd member is removed,
    the old Machine is deleted, the new one is annotated. *)
Definition isMachineStep (ev : event) : bool :=
  match kindOf (fst ev) with
  | KCreateObject | KCreateMachine | KMemberRemove | KDeleteMachine
  | KPatchMachine => true
  | _ => false
  end.

Definition isMemberRemoval (ev : event) : bool :=
  match kindOf (fst ev) with KMemberRemove => true | _ => false end.

Definition isMachineDeletion (ev : event) : bool :=
  match kindOf (fst ev) with KDeleteMachine => true | _ => false end.

(** The error of an answer, whatever its shape. *)
Definition replyError (r : reply) : option error :=
  match r with
  | RErr e | RMachines _ e | RMachineDeployments _ e | RConfigMap _ e
  | RPods _ e | RPod _ e | RNodes _ e | RExec _ _ e | RObject _ e
  | RMachine _ e => e
  end.

(** [st'] is [st] after the events [evs]. *)
Definition extends (st : state) (evs : list event) (st' : state) : Prop :=
  trace st' = (trace st ++ evs)%list.

(** A run from [st] to [st'] that leaves the desired version alone and
    makes only calls of the kinds [ks]. *)
Definition runs (ks : list kind) (st st' : state) : Prop :=
  desiredVersion st' = desiredVersion st /\
  exists evs, extends st evs st' /\ Forall (fun ev => kindOf (fst ev) ∈ ks) evs.

Definition steps {A} (R : state -> state -> Prop) (m : M A) : Prop :=
  forall st, R st (snd (m st)).

Definition calls (ks : list kind) (st st' : state) : Prop :=
  exists evs, extends st evs st' /\ Forall (fun ev => kindOf (fst ev) ∈ ks) evs.

(** [st] with the events [evs] added to its trace. *)
Definition after (st : state) (evs : list event) : state :=
  mkState (desiredVersion st) (oldNodeToEtcdMember st) (providerIDsToNodes st)
    (trace st ++ evs)%list.

(** The calls of [updateMachine], of one machine's replacement, and of the
    whole loop. *)
Definition updateMachineKinds : list kind :=
  [KCreateMachine; KGetMachine; KListNodes; KGetPod; KListPods; KMemberRemove;
   KDeleteMachine; KPatchMachine].

Definition replacementKinds : list kind :=
  KGetObject :: KCreateObject :: updateMachineKinds.

Definition upgradeKinds : list kind :=
  [KGetConfigMap; KCreateConfigMap; KUpdateConfigMap; KGetRole; KCreateRole;
   KGetRoleBinding; KCreateRoleBinding; KListPods; KExec; KListNodes;
   KGetObject; KCreateObject; KCreateMachine; KGetMachine; KGetPod;
   KMemberRemove; KDeleteMachine; KPatchMachine].

(** The calls made before the replacements begin. *)
Definition preparationKinds : list kind :=
  [KListMachines; KGetConfigMap; KCreateConfigMap; KUpdateConfigMap; KGetRole;
   KCreateRole; KGetRoleBinding; KCreateRoleBinding; KListPods; KExec; KListNodes].

(** ** Versions *)

(** The versions the loop of [minMaxControlPlaneVersions] reads: those of
    the machines whose version field is a non-empty string, in order. *)
Fixpoint versionsOf (E : Env) (machines : list Machine) : list Version :=
  match machines with
  | [] => []
  | machine :: rest =>
      match specVersion (mSpec machine) with
      | Some version =>
          if negb (String.eqb version "") then
            match ParseTolerant E version with
            | Ok v => v :: versionsOf E rest
            | _ => versionsOf E rest
            end
          else versionsOf E rest
      | None => versionsOf E rest
      end
  end.

Definition minimum_of (v : Version) (vs : list Version) : Prop :=
  v ∈ vs /\ Forall (fun x => LE v x = true) vs.

Definition maximum_of (v : Version) (vs : list Version) : Prop :=
  v ∈ vs /\ Forall (fun x => LE x v = true) vs.

(** The version field is set, and parses when it is not empty. *)
Definition readable (E : Env) (machine : Machine) : Prop :=
  exists version, specVersion (mSpec machine) = Some version /\
    (version <> "" -> exists v, ParseTolerant E version = Ok v).

(** The same, and the parsed version is not the unset one. *)
Definition readable_set (E : Env) (machine : Machine) : Prop :=
  exists version, specVersion (mSpec machine) = Some version /\
    (version <> "" ->
     exists v, ParseTolerant E version = Ok v /\ EQ v (unsetVersion E) = false).

(** The function returns the minimum and the maximum of the versions read. *)
Definition computesMinMax (E : Env) (machines : list Machine) : Prop :=
  exists mn mx,
    minMaxControlPlaneVersions E machines = Ok (mn, mx) /\
    (versionsOf E machines <> [] ->
     minimum_of mn (versionsOf E machines) /\ maximum_of mx (versionsOf E machines)).

(** What the loop knows after the versions [seen]. *)
Definition minMaxInv (E : Env) (seen : list Version) (mn mx : Version) : Prop :=
  (seen = [] /\ mn = unsetVersion E /\ mx = unsetVersion E) \/
  (minimum_of mn seen /\ maximum_of mx seen /\
   Forall (fun x => EQ x (unsetVersion E) = false) seen).

(** ** Order of the steps of a run *)

(** C1 as it is stated, on the events of a run: every rewrite of the
    kubeadm-config comes after every per-machine step. *)
Definition rewriteAfterMachines (evs : list event) : Prop :=
  forall i j rewrite step,
    evs !! i = Some rewrite -> isRewrite rewrite = true ->
    evs !! j = Some step -> isMachineStep step = true ->
    (j < i)%nat.

(** A run in two phases: no per-machine step in the first, no rewrite in
    the second, and the second only begins on a rewrite that succeeded. *)
Definition rewriteThenMachines (st st' : state) : Prop :=
  exists before after,
    extends st (before ++ after)%list st' /\
    Forall (fun ev => isMachineStep ev = false) before /\
    Forall (fun ev => isRewrite ev = false) after /\
    (after <> [] ->
     exists earlier cm r,
       before = (earlier ++ [(UpdateConfigMap cm, r)])%list /\ replyError r = None).

(** Within [evs], every deletion of a Machine has an earlier member removal
    that succeeded. *)
Definition removalBeforeDeletion (evs : list event) : Prop :=
  forall i deletion,
    evs !! i = Some deletion -> isMachineDeletion deletion = true ->
    exists j removal,
      (j < i)%nat /\ evs !! j = Some removal /\
      isMemberRemoval removal = true /\ replyError (snd removal) = None.

Definition noTeardown (ev : event) : Prop :=
  isMemberRemoval ev = false /\ isMachineDeletion ev = false.

(** The objects a trace submits for creation, in order. *)
Fixpoint createdObjects (evs : list event) : list Unstructured :=
  match evs with
  | [] => []
  | (CreateObject obj, _) :: rest => obj :: createdObjects rest
  | _ :: rest => createdObjects rest
  end.

(** ** Continuations of the orchestrator

    [Upgrade] and [updateMachine] are each one function in the source; the
    two definitions below name what follows a point inside them, so that
    properties of the rest of the function can be stated. *)

(** Everything [Upgrade] does once the desired version is settled. *)
Definition afterVersions (E : Env) (cfg : Config) (machines : list Machine)
    (mn : Version) : M unit :=
  st <- getState ;;
  (if isMinorVersionUpgrade mn (desiredVersion st) then
     updateKubeletConfigMapIfNeeded E (desiredVersion st) ;;;
     updateKubeletRbacIfNeeded E (desiredVersion st)
   else ret tt) ;;;
  etcdClusterHealthCheck E (1 * Minute) ;;;
  UpdateProviderIDsToNodes E ;;;
  updateAndUploadKubeadmKubernetesVersion E ;;;
  updateCRDs E cfg machines.

(** What [updateMachine] does once [NewMachine] has returned. *)
Definition afterNewMachine (E : Env) (cfg : Config) (machine : Machine)
    (oldHostName : string)
    (created : Machine * option Node) : M unit :=
  let (newMachine, node) := created in
  nodeHostname <- lift (hostnameForNode node) ;;
  UpdateProviderIDsToNodes E ;;;
  st <- getState ;;
  let etcdMemberId := default "" (oldNodeToEtcdMember st !! oldHostName) in
  wrapping
    (fun err => Wrap err ("unable to delete old etcd member " ++ etcdMemberId))
    (deleteEtcdMember E (1 * Minute) nodeHostname etcdMemberId) ;;;
  deleteMachine E machine ;;;
  applyAnnotation E cfg newMachine.

(** ** Readiness and the rewrite *)



(** The lookups of the pods of the components [cs] on a host. *)
Definition podLookups (nodeHostname : string) (cs : list string) : list call :=
  map (fun component => GetPod (component ++ "-" ++ nodeHostname)) cs.


(** What the rewrite of [original], found in the store [h] with its Data
    map [data] at [l], does when the ClusterConfiguration decodes to [doc]
    and the updated document is serialized as [text']. *)
Definition rewritesOnlyVersion (E : Env) (original : InMemoryConfigMap)
    (version : string) (h : mapStore) (l : nat) (data : gmap string string)
    (doc : gmap string Value) (text' : string) : Prop :=
  exists cm h',
    updateKubeadmKubernetesVersion E original version h = (Ok cm, h') /\
    (* a new ConfigMap, with a Data map of its own *)
    cmData cm = Some (length h) /\ length h <> l /\
    cmName cm = cmName original /\ cmNamespace cm = cmNamespace original /\
    cmResourceVersion cm = cmResourceVersion original /\
    (* the original is not mutated: every map of the store is as it was *)
    (forall i, (i < length h)%nat -> h' !! i = h !! i) /\
    encodeConfigMap h' original = encodeConfigMap h original /\
    (* of the keys of the ConfigMap only ClusterConfiguration changes *)
    h' !! length h = Some (<["ClusterConfiguration" := text']> data) /\
    (forall k, k <> "ClusterConfiguration" ->
       mapAt h' (length h) !! k = data !! k) /\
    (* inside the document only kubernetesVersion changes *)
    yamlMarshal E (<["kubernetesVersion" := VStr version]> doc) = Ok text' /\
    exists doc',
      yamlUnmarshal E text' = Ok doc' /\
      doc' !! "kubernetesVersion" = Some (VStr version) /\
      forall k, k <> "kubernetesVersion" -> doc' !! k = doc !! k.

(** ** Answers of the cluster *)

(** The events [evs] are what happens when their calls are made one after
    the other from the history [history]: each answer is the one the
    cluster gives at that point. *)
Fixpoint answered (E : Env) (history evs : list event) : Prop :=
  match evs with
  | [] => True
  | ev :: rest =>
      snd ev = api E history (fst ev) /\ answered E (history ++ [ev])%list rest
  end.

(** The two calls of one [etcdctl] invocation: the listing of the etcd
    pods, and the command run in the first pod listed. *)
Definition etcdctlEvents (pod : Pod) (rest : list Pod) (args : list string)
    (stdout stderr : string) : list event :=
  [(ListPods "component=etcd", RPods (pod :: rest) None);
   (PodExec (pNamespace pod) (pName pod) (etcdctlCommand pod args),
    RExec stdout stderr None)].

(** ** The steps of a replacement *)

(** The machines the loop of [updateCRDs] replaces: those that do not
    carry the upgrade id and have a provider id. *)
Definition eligible (cfg : Config) (machine : Machine) : bool :=
  negb (hasUpgradeID (mAnnotations machine) (upgradeID cfg))
  && match specProviderID (mSpec machine) with Some _ => true | None => false end.




(** The deployments the loop of [upgradeMachineDeployments] patches. *)
Definition unpatched (cfg : Config) (machineDeployment : MachineDeployment) : bool :=
  negb (hasUpgradeID (mdTemplateAnnotations machineDeployment) (upgradeID cfg)).

(** A computation all of whose calls, with their answers, satisfy [P],
    however it ends. *)
Definition emits {A} (P : event -> Prop) (m : M A) : Prop :=
  forall st, exists evs, extends st evs (snd (m st)) /\ Forall P evs.

(** A call that has nothing to do with the kubelet configuration of a new
    minor version: it creates no ConfigMap, touches no Role and no
    RoleBinding, and reads no ConfigMap but [kubeadm-config]. *)
Definition notKubelet (ev : event) : Prop :=
  match fst ev with
  | CreateConfigMap _ | GetRole _ | CreateRole _ | GetRoleBinding _
  | CreateRoleBinding _ => False
  | GetConfigMap name => name = "kubeadm-config"
  | _ => True
  end.

(** ** Attempts *)

(** One attempt of [fn] and up to [more] further ones while it returns an
    error; the outcome is that of the last attempt made. *)
Fixpoint attempts (more : nat) (node : option Node) (fn : option Node -> M unit)
  : M unit :=
  fun st =>
    match fn node st with
    | (Err err, st') =>
        match more with
        | O => (Err err, st')
        | S more' => attempts more' node fn st'
        end
    | r => r
    end.

(** ** Names *)

(** How often the character [c] occurs in [s]. *)
Fixpoint occurrences (c : ascii) (s : string) : nat :=
  match s with
  | EmptyString => 0
  | String a rest => (if Ascii.eqb a c then 1 else 0) + occurrences c rest
  end.

(** A call that creates, reads back or patches an object does so under the
    name [name]. *)
Definition namedBy (name : string) (ev : event) : Prop :=
  match fst ev with
  | CreateObject obj => uName obj = name
  | CreateMachine m => mName m = name
  | GetMachine _ machineName => machineName = name
  | PatchMachine updated original => mName updated = name /\ mName original = name
  | _ => True
  end.

(** A deletion is of a machine of [machines] that the loop replaces, and
    the Machine a patch sends has the upgrade annotation with the id of
    this upgrade. *)
Definition onlyListed (cfg : Config) (machines : list Machine) (ev : event) : Prop :=
  match fst ev with
  | DeleteMachine m =>
      exists listed,
        listed ∈ machines /\ eligible cfg listed = true /\
        mName m = mName listed /\ mNamespace m = mNamespace listed
  | PatchMachine updated _ =>
      hasUpgradeID (mAnnotations updated) (upgradeID cfg) = true
  | _ => True
  end.

(** ** The health check comes first *)

(** The health command, run in some pod for some endpoints, returned
    without error. *)
Definition healthChecked (ev : event) : Prop :=
  exists namespace name pod endpoints stdout stderr,
    ev = (PodExec namespace name
            (etcdctlCommand pod ["endpoint health --endpoints"; endpoints]),
          RExec stdout stderr None).

(** A call that neither rewrites the kubeadm-config nor is a per-machine
    step. *)
Definition preparing (ev : event) : Prop :=
  isRewrite ev = false /\ isMachineStep ev = false.

(** Within [evs], the rewrite of the kubeadm-config and every per-machine
    step come after a health check that passed. *)
Definition healthFirst (evs : list event) : Prop :=
  forall i ev,
    evs !! i = Some ev ->
    isRewrite ev = true \/ isMachineStep ev = true ->
    exists j checked, (j < i)%nat /\ evs !! j = Some checked /\ healthChecked checked.

Definition guarded {A} (m : M A) : Prop :=
  forall st, exists evs, extends st evs (snd (m st)) /\ healthFirst evs.

(** ** The member that is removed *)

(** A remote command is the removal of the member [etcdMemberId], run in
    some pod by way of [etcdctlForPod]. *)
Definition removes (etcdMemberId : string) (ev : event) : Prop :=
  match fst ev with
  | PodExec namespace name command =>
      exists pod,
        namespace = pNamespace pod /\ name = pName pod /\
        command = etcdctlCommand pod ["member"; "remove"; etcdMemberId]
  | _ => True
  end.

(** A computation that leaves the fields of the upgrader as they are and
    only adds to the trace. *)
Definition appends {A} (m : M A) : Prop :=
  forall st, exists evs, snd (m st) = after st evs.

(** ** One version for the whole upgrade *)

(** What a call writes is at the version [d]: a Machine that is created
    has it as its version, and a ConfigMap that is updated has a
    ClusterConfiguration that is the serialization of a document whose
    [kubernetesVersion] is the letter v followed by [d]. *)
Definition versioned (E : Env) (d : Version) (ev : event) : Prop :=
  match fst ev with
  | CreateMachine m => specVersion (mSpec m) = Some (VString d)
  | UpdateConfigMap cm =>
      exists data doc text,
        cmData cm = Some (<["ClusterConfiguration" := text]> data) /\
        yamlMarshal E (<["kubernetesVersion" := VStr ("v" ++ VString d)]> doc) = Ok text
  | _ => True
  end.

(** A computation that, started with the desired version [d], keeps it
    and makes only calls that satisfy [P]. *)
Definition holding {A} (d : Version) (P : event -> Prop) (m : M A) : Prop :=
  forall st,
    desiredVersion st = d ->
    exists evs,
      extends st evs (snd (m st)) /\ Forall P evs /\ desiredVersion (snd (m st)) = d.

(** ** The text of messages *)


(** * Properties *)

(** ** Version comparison is a total preorder *)

Module SemverFacts.

Lemma ol_eq_r {A} (cmp : A -> A -> comparison) (H : order_laws cmp) a b c :
  cmp a b = Eq -> cmp c a = cmp c b.
Proof.
  intros Hab. rewrite (ol_antisym _ H c a), (ol_antisym _ H c b).
  f_equal. apply (ol_eq_l _ H); exact Hab.
Qed.

Lemma ol_refl {A} (cmp : A -> A -> comparison) (H : order_laws cmp) a :
  cmp a a = Eq.
Proof.
  pose proof (ol_antisym _ H a a) as Ha.
  destruct (cmp a a); simpl in Ha; congruence.
Qed.

(** [a < b <= c] gives [a < c]. *)
Lemma ol_lt_le {A} (cmp : A -> A -> comparison) (H : order_laws cmp) a b c :
  cmp a b = Lt -> cmp b c <> Gt -> cmp a c = Lt.
Proof.
  intros Hab Hbc. destruct (cmp b c) eqn:Ebc; [| |congruence].
  - rewrite <- (ol_eq_r _ H b c a Ebc). exact Hab.
  - eapply (ol_trans _ H); eassumption.
Qed.

(** [a <= b < c] gives [a < c]. *)
Lemma ol_le_lt {A} (cmp : A -> A -> comparison) (H : order_laws cmp) a b c :
  cmp a b <> Gt -> cmp b c = Lt -> cmp a c = Lt.
Proof.
  intros Hab Hbc. destruct (cmp a b) eqn:Eab; [| |congruence].
  - rewrite (ol_eq_l _ H a b c Eab). exact Hbc.
  - eapply (ol_trans _ H); eassumption.
Qed.

Lemma lexc_Lt c1 c2 :
  lexc c1 c2 = Lt <-> c1 = Lt \/ (c1 = Eq /\ c2 = Lt).
Proof. destruct c1, c2; simpl; intuition congruence. Qed.

Lemma lexc_Eq c1 c2 : lexc c1 c2 = Eq <-> c1 = Eq /\ c2 = Eq.
Proof. destruct c1, c2; simpl; intuition congruence. Qed.

Lemma lex_order {A} (c1 c2 : A -> A -> comparison) :
  order_laws c1 -> order_laws c2 ->
  order_laws (fun a b => lexc (c1 a b) (c2 a b)).
Proof.
  intros H1 H2. split.
  - intros a b. rewrite (ol_antisym _ H1 a b), (ol_antisym _ H2 a b).
    destruct (c1 b a), (c2 b a); reflexivity.
  - intros a b c Hab Hbc.
    apply lexc_Lt in Hab. apply lexc_Lt in Hbc. apply lexc_Lt.
    destruct Hab as [Hab | [Hab Hab']], Hbc as [Hbc | [Hbc Hbc']].
    + left. eapply (ol_trans _ H1); eassumption.
    + left. rewrite <- (ol_eq_r _ H1 b c a Hbc). exact Hab.
    + left. rewrite (ol_eq_l _ H1 a b c Hab). exact Hbc.
    + right. split.
      * rewrite (ol_eq_l _ H1 a b c Hab). exact Hbc.
      * eapply (ol_trans _ H2); eassumption.
  - intros a b c Hab. apply lexc_Eq in Hab. destruct Hab as [Hab Hab'].
    rewrite (ol_eq_l _ H1 a b c Hab), (ol_eq_l _ H2 a b c Hab'). reflexivity.
Qed.

Lemma N_order {A} (f : A -> N) : order_laws (fun a b => N.compare (f a) (f b)).
Proof.
  split.
  - intros a b. apply N.compare_antisym.
  - intros a b c. rewrite !N.compare_lt_iff. lia.
  - intros a b c Hab. apply N.compare_eq in Hab. rewrite Hab. reflexivity.
Qed.

Lemma string_order : order_laws String.compare.
Proof.
  split.
  - apply String.compare_antisym.
  - intros a. induction a as [|x a IH]; intros [|y b] [|z c]; simpl;
      try congruence.
    unfold Ascii.compare.
    destruct (N.compare_spec (N_of_ascii x) (N_of_ascii y)) as [Exy|Lxy|Gxy];
      destruct (N.compare_spec (N_of_ascii y) (N_of_ascii z)) as [Eyz|Lyz|Gyz];
      intros Hab Hbc; try congruence.
    + rewrite Exy, Eyz, N.compare_refl. eapply IH; eassumption.
    + rewrite Exy. apply N.compare_lt_iff in Lyz. rewrite Lyz. reflexivity.
    + rewrite <- Eyz. apply N.compare_lt_iff in Lxy. rewrite Lxy. reflexivity.
    + assert (Hxz : (N_of_ascii x < N_of_ascii z)%N) by lia.
      apply N.compare_lt_iff in Hxz. rewrite Hxz. reflexivity.
  - intros a b c Hab. apply String.compare_eq_iff in Hab. subst. reflexivity.
Qed.

Lemma PRCompare_lex v o :
  PRCompare v o =
  lexc (N.compare (PRClass v) (PRClass o))
    (lexc (N.compare (PRNum v) (PRNum o)) (String.compare (PRText v) (PRText o))).
Proof.
  unfold PRCompare, PRClass, PRNum, PRText.
  destruct (IsNum v), (IsNum o); simpl; try reflexivity.
  destruct (N.eqb_spec (VersionNum v) (VersionNum o)) as [Heq|Hne].
  - rewrite Heq, N.compare_refl. reflexivity.
  - destruct (N.ltb_spec (VersionNum o) (VersionNum v)) as [Hlt|Hge].
    + apply N.compare_gt_iff in Hlt. rewrite Hlt. reflexivity.
    + assert (Hlt : (VersionNum v < VersionNum o)%N) by lia.
      apply N.compare_lt_iff in Hlt. rewrite Hlt. reflexivity.
Qed.

Lemma order_ext {A} (c1 c2 : A -> A -> comparison) :
  (forall a b, c1 a b = c2 a b) -> order_laws c2 -> order_laws c1.
Proof.
  intros Heq H. split.
  - intros a b. rewrite !Heq. apply (ol_antisym _ H).
  - intros a b c. rewrite !Heq. apply (ol_trans _ H).
  - intros a b c. rewrite !Heq. apply (ol_eq_l _ H).
Qed.

Lemma PR_order : order_laws PRCompare.
Proof.
  eapply order_ext; [exact PRCompare_lex|].
  apply (lex_order (fun a b => N.compare (PRClass a) (PRClass b))).
  - apply N_order.
  - apply (lex_order (fun a b => N.compare (PRNum a) (PRNum b))
             (fun a b => String.compare (PRText a) (PRText b))).
    + apply N_order.
    + split.
      * intros a b. apply (ol_antisym _ string_order).
      * intros a b c. apply (ol_trans _ string_order).
      * intros a b c. apply (ol_eq_l _ string_order).
Qed.

Lemma ComparePre_cons x a y b :
  ComparePre (x :: a) (y :: b) = lexc (PRCompare x y) (ComparePre a b).
Proof. cbn [ComparePre]. destruct (PRCompare x y); reflexivity. Qed.

Lemma ComparePre_order : order_laws ComparePre.
Proof.
  pose proof PR_order as HP. split.
  - intros a. induction a as [|x a IH]; intros [|y b]; try reflexivity.
    rewrite !ComparePre_cons, (ol_antisym _ HP x y), (IH b).
    destruct (PRCompare y x); reflexivity.
  - intros a. induction a as [|x a IH]; intros [|y b] [|z c];
      try (cbn; congruence).
    rewrite !ComparePre_cons. intros Hab Hbc.
    apply lexc_Lt in Hab. apply lexc_Lt in Hbc. apply lexc_Lt.
    destruct Hab as [Hab | [Hab Hab']], Hbc as [Hbc | [Hbc Hbc']].
    + left. eapply (ol_trans _ HP); eassumption.
    + left. rewrite <- (ol_eq_r _ HP y z x Hbc). exact Hab.
    + left. rewrite (ol_eq_l _ HP x y z Hab). exact Hbc.
    + right. split.
      * rewrite (ol_eq_l _ HP x y z Hab). exact Hbc.
      * eapply IH; eassumption.
  - intros a. induction a as [|x a IH]; intros [|y b] c; try (cbn; congruence).
    rewrite ComparePre_cons. intros Hab.
    apply lexc_Eq in Hab. destruct Hab as [Hxy Hab].
    destruct c as [|z c]; [reflexivity|].
    rewrite !ComparePre_cons, (ol_eq_l _ HP x y z Hxy), (IH b c Hab). reflexivity.
Qed.

Lemma PreCompare_order : order_laws PreCompare.
Proof.
  pose proof ComparePre_order as HC. split.
  - intros [|x a] [|y b]; simpl; try reflexivity.
    apply (ol_antisym _ HC (x :: a) (y :: b)).
  - intros [|x a] [|y b] [|z c]; simpl; try congruence.
    apply (ol_trans _ HC (x :: a) (y :: b) (z :: c)).
  - intros [|x a] [|y b] c; simpl; try congruence.
    intros Hab. destruct c as [|z c]; [reflexivity|].
    apply (ol_eq_l _ HC (x :: a) (y :: b) (z :: c) Hab).
Qed.

Lemma N_compare_go (a b : N) (k : comparison) :
  (if negb (N.eqb a b) then (if N.ltb b a then Gt else Lt) else k)
  = lexc (N.compare a b) k.
Proof.
  destruct (N.eqb_spec a b) as [Heq|Hne]; simpl.
  - rewrite Heq, N.compare_refl. reflexivity.
  - destruct (N.ltb_spec b a) as [Hlt|Hge].
    + apply N.compare_gt_iff in Hlt. rewrite Hlt. reflexivity.
    + assert (Hlt : (a < b)%N) by lia.
      apply N.compare_lt_iff in Hlt. rewrite Hlt. reflexivity.
Qed.

Lemma Compare_lex v o :
  Compare v o =
  lexc (N.compare (Major v) (Major o))
    (lexc (N.compare (Minor v) (Minor o))
       (lexc (N.compare (Patch v) (Patch o)) (PreCompare (Pre v) (Pre o)))).
Proof.
  unfold Compare. rewrite !N_compare_go. unfold PreCompare.
  destruct (Pre v), (Pre o); reflexivity.
Qed.

Lemma Compare_order : order_laws Compare.
Proof.
  eapply order_ext; [exact Compare_lex|].
  apply (lex_order (fun a b => N.compare (Major a) (Major b))); [apply N_order|].
  apply (lex_order (fun a b => N.compare (Minor a) (Minor b))); [apply N_order|].
  apply (lex_order (fun a b => N.compare (Patch a) (Patch b))
           (fun a b => PreCompare (Pre a) (Pre b))); [apply N_order|].
  split.
  - intros a b. apply (ol_antisym _ PreCompare_order).
  - intros a b c. apply (ol_trans _ PreCompare_order).
  - intros a b c. apply (ol_eq_l _ PreCompare_order).
Qed.

Lemma LE_refl v : LE v v = true.
Proof. unfold LE. rewrite (ol_refl _ Compare_order). reflexivity. Qed.

Lemma LT_LE_trans a b c : LT a b = true -> LE b c = true -> LE a c = true.
Proof.
  unfold LT, LE. intros Hab Hbc.
  assert (Compare a c = Lt) as ->; [|reflexivity].
  apply (ol_lt_le _ Compare_order a b c).
  - destruct (Compare a b); congruence.
  - destruct (Compare b c); congruence.
Qed.

Lemma LE_GT_trans a b c : LE a b = true -> GT c b = true -> LE a c = true.
Proof.
  unfold GT, LE. intros Hab Hcb.
  assert (Compare a c = Lt) as ->; [|reflexivity].
  apply (ol_le_lt _ Compare_order a b c).
  - destruct (Compare a b); congruence.
  - rewrite (ol_antisym _ Compare_order). destruct (Compare c b); simpl; congruence.
Qed.

Lemma not_LT_LE a b : LT a b = false -> LE b a = true.
Proof.
  unfold LT, LE. rewrite (ol_antisym _ Compare_order b a).
  destruct (Compare a b); simpl; congruence.
Qed.

Lemma not_GT_LE a b : GT a b = false -> LE a b = true.
Proof. unfold GT, LE. destruct (Compare a b); congruence. Qed.

Lemma LT_LE a b : LT a b = true -> LE a b = true.
Proof. unfold LT, LE. destruct (Compare a b); congruence. Qed.

Lemma GT_LE a b : GT a b = true -> LE b a = true.
Proof.
  unfold GT, LE. rewrite (ol_antisym _ Compare_order b a).
  destruct (Compare a b); simpl; congruence.
Qed.

End SemverFacts.

(** ** Composing runs: which calls a computation makes *)

Section Logic.
Context (E : Env).

Lemma runs_refl ks st : runs ks st st.
Proof.
  split; [reflexivity|]. exists []. split; [|constructor].
  unfold extends. rewrite app_nil_r. reflexivity.
Qed.

Lemma runs_trans ks st1 st2 st3 : runs ks st1 st2 -> runs ks st2 st3 -> runs ks st1 st3.
Proof.
  intros [Hv1 (evs1 & Ht1 & Hk1)] [Hv2 (evs2 & Ht2 & Hk2)]. split; [congruence|].
  exists (evs1 ++ evs2)%list. split.
  - unfold extends in *. rewrite Ht2, Ht1, app_assoc. reflexivity.
  - apply Forall_app. split; assumption.
Qed.

Lemma runs_weaken ks ks' st st' : ks ⊆ ks' -> runs ks st st' -> runs ks' st st'.
Proof.
  intros Hsub [Hv (evs & Ht & Hk)]. split; [exact Hv|]. exists evs. split; [exact Ht|].
  eapply Forall_impl; [exact Hk|]. intros ev Hev. apply Hsub. exact Hev.
Qed.

Lemma steps_weaken {A} ks ks' (m : M A) :
  steps (runs ks) m -> ks ⊆ ks' -> steps (runs ks') m.
Proof. intros Hm Hsub st. eapply runs_weaken; [exact Hsub|apply Hm]. Qed.

Lemma steps_ret {A} ks (a : A) : steps (runs ks) (ret a).
Proof. intros st. apply runs_refl. Qed.

Lemma steps_fail {A} ks e : steps (runs ks) (@fail A e).
Proof. intros st. apply runs_refl. Qed.

Lemma steps_panic {A} ks p : steps (runs ks) (@panic A p).
Proof. intros st. apply runs_refl. Qed.

Lemma steps_lift {A} ks (o : outcome A) : steps (runs ks) (lift o).
Proof. intros st. apply runs_refl. Qed.

Lemma steps_check ks f err : steps (runs ks) (check f err).
Proof. intros st. destruct err; apply runs_refl. Qed.

Lemma steps_getState ks : steps (runs ks) getState.
Proof. intros st. apply runs_refl. Qed.

Lemma steps_setOldNodeToEtcdMember ks m : steps (runs ks) (setOldNodeToEtcdMember m).
Proof.
  intros st. split; [reflexivity|]. exists []. split; [|constructor].
  unfold extends. simpl. rewrite app_nil_r. reflexivity.
Qed.

Lemma steps_setProviderIDsToNodes ks m : steps (runs ks) (setProviderIDsToNodes m).
Proof.
  intros st. split; [reflexivity|]. exists []. split; [|constructor].
  unfold extends. simpl. rewrite app_nil_r. reflexivity.
Qed.

Lemma steps_bind {A B} ks (m : M A) (k : A -> M B) :
  steps (runs ks) m -> (forall a, steps (runs ks) (k a)) -> steps (runs ks) (bind m k).
Proof.
  intros Hm Hk st. unfold bind. specialize (Hm st).
  destruct (m st) as [[a|e|p] st1]; simpl in *; try exact Hm.
  eapply runs_trans; [exact Hm|apply Hk].
Qed.

Lemma steps_wrapping {A} ks f (m : M A) :
  steps (runs ks) m -> steps (runs ks) (wrapping f m).
Proof.
  intros Hm st. unfold wrapping. specialize (Hm st).
  destruct (m st) as [[a|e|p] st1]; exact Hm.
Qed.

Lemma steps_doCall ks c : kindOf c ∈ ks -> steps (runs ks) (doCall E c).
Proof.
  intros Hc st. split; [reflexivity|].
  exists [(c, api E (trace st) c)]. split; [reflexivity|].
  constructor; [exact Hc|constructor].
Qed.

Lemma steps_pollLoop {V} ks n (condition : V -> M (bool * V)) v :
  (forall v, steps (runs ks) (condition v)) -> steps (runs ks) (pollLoop n condition v).
Proof.
  intros Hc. revert v. induction n as [|n IH]; intros v; simpl;
    apply steps_bind; try apply Hc; intros [[|] v']; simpl;
    auto using steps_ret, steps_fail.
Qed.

Lemma steps_PollImmediate {V} ks interval timeout (condition : V -> M (bool * V)) v :
  (forall v, steps (runs ks) (condition v)) ->
  steps (runs ks) (PollImmediate E interval timeout condition v).
Proof. intros Hc st. unfold PollImmediate. apply steps_pollLoop. exact Hc. Qed.

End Logic.

Create HintDb steps.
Create HintDb kinds.

Ltac kinds_solve := autounfold with kinds; cbn; set_solver.

(** One step through a computation built from binds, branches and calls. *)
Ltac steps_step :=
  match goal with
  | |- steps _ (bind _ _) => apply steps_bind; [|intros ?]
  | |- steps _ (ret _) => apply steps_ret
  | |- steps _ (fail _) => apply steps_fail
  | |- steps _ (panic _) => apply steps_panic
  | |- steps _ (lift _) => apply steps_lift
  | |- steps _ (check _ _) => apply steps_check
  | |- steps _ getState => apply steps_getState
  | |- steps _ (setOldNodeToEtcdMember _) => apply steps_setOldNodeToEtcdMember
  | |- steps _ (setProviderIDsToNodes _) => apply steps_setProviderIDsToNodes
  | |- steps _ (wrapping _ _) => apply steps_wrapping
  | |- steps _ (PollImmediate _ _ _ _ _) => apply steps_PollImmediate; intros ?
  | |- steps _ (doCall _ _) => apply steps_doCall; kinds_solve
  | |- steps _ (match ?x with _ => _ end) => destruct x
  | |- steps _ _ => solve [eapply steps_weaken; [eauto with steps|kinds_solve]]
  end.

Ltac steps_go := repeat steps_step.

(** ** Reading a successful run backwards *)

Lemma bind_Ok {A B} (m : M A) (k : A -> M B) st b st' :
  bind m k st = (Ok b, st') ->
  exists a st1, m st = (Ok a, st1) /\ k a st1 = (Ok b, st').
Proof.
  unfold bind. destruct (m st) as [[a|e|p] st1]; try discriminate.
  intros H. exists a, st1. split; [reflexivity|exact H].
Qed.

Lemma ret_Ok {A} (a b : A) st st' : ret a st = (Ok b, st') -> b = a /\ st' = st.
Proof. unfold ret. intros H. injection H as <- <-. split; reflexivity. Qed.

Lemma lift_Ok {A} (o : outcome A) b st st' :
  lift o st = (Ok b, st') -> o = Ok b /\ st' = st.
Proof. unfold lift. intros H. injection H as -> <-. split; reflexivity. Qed.

Lemma check_Ok f err u st st' :
  check f err st = (Ok u, st') -> err = None /\ st' = st.
Proof.
  destruct err; simpl; [discriminate|]. unfold ret. intros H.
  injection H as <- <-. split; reflexivity.
Qed.

Lemma getState_Ok a st st' : getState st = (Ok a, st') -> a = st /\ st' = st.
Proof. unfold getState. intros H. injection H as <- <-. split; reflexivity. Qed.

Lemma doCall_Ok E c r st st' :
  doCall E c st = (Ok r, st') ->
  r = api E (trace st) c /\ st' = record (c, api E (trace st) c) st.
Proof. unfold doCall. intros H. injection H as <- <-. split; reflexivity. Qed.

Lemma wrapping_Ok {A} f (m : M A) a st st' :
  wrapping f m st = (Ok a, st') -> m st = (Ok a, st').
Proof. unfold wrapping. destruct (m st) as [[x|e|p] st1]; congruence. Qed.

Ltac run_inv H :=
  lazymatch type of H with
  | bind _ _ _ = (Ok _, _) =>
      let a := fresh "a" in
      let s := fresh "s" in
      let H1 := fresh "Hrun" in
      apply bind_Ok in H as (a & s & H1 & H); run_inv H1; run_inv H
  | ret _ _ = (Ok _, _) =>
      let Ha := fresh in let Hs := fresh in
      apply ret_Ok in H as [Ha Hs]; try subst
  | lift _ _ = (Ok _, _) =>
      let Hs := fresh in apply lift_Ok in H as [H Hs]; try subst
  | check _ _ _ = (Ok _, _) =>
      let Hs := fresh in apply check_Ok in H as [H Hs]; try subst
  | getState _ = (Ok _, _) =>
      let Ha := fresh in let Hs := fresh in
      apply getState_Ok in H as [Ha Hs]; try subst
  | doCall _ _ _ = (Ok _, _) =>
      let Ha := fresh in let Hs := fresh in
      apply doCall_Ok in H as [Ha Hs]; try subst
  | wrapping _ _ _ = (Ok _, _) => apply wrapping_Ok in H; run_inv H
  | fail _ _ = (Ok _, _) => discriminate H
  | panic _ _ = (Ok _, _) => discriminate H
  | (match ?x with _ => _ end) _ = (Ok _, _) =>
      let Hx := fresh "Hcase" in destruct x eqn:Hx; run_inv H
  | _ => idtac
  end.

(** ** The calls each function makes *)

#[global] Hint Unfold updateMachineKinds replacementKinds : kinds.

Section Footprints.
Context (E : Env) (cfg : Config).

Lemma waitForProviderID_runs ns name timeout :
  steps (runs [KGetMachine]) (waitForProviderID E ns name timeout).
Proof. unfold waitForProviderID. steps_go. Qed.

Lemma waitForMatchingNode_runs raw timeout :
  steps (runs [KListNodes]) (waitForMatchingNode E raw timeout).
Proof. unfold waitForMatchingNode. steps_go. Qed.

Lemma isReadyLoop_runs cs host : steps (runs [KGetPod]) (isReadyLoop E cs host).
Proof. induction cs as [|c cs IH]; simpl; steps_go. Qed.

Lemma isReady_runs host : steps (runs [KGetPod]) (isReady E host).
Proof. apply isReadyLoop_runs. Qed.
Hint Resolve isReady_runs : steps.

Lemma waitForNodeReady_runs node timeout :
  steps (runs [KGetPod]) (waitForNodeReady E node timeout).
Proof. unfold waitForNodeReady. steps_go. Qed.
Hint Resolve waitForProviderID_runs waitForMatchingNode_runs waitForNodeReady_runs : steps.

Lemma NewMachine_runs n ns name source :
  steps (runs [KCreateMachine; KGetMachine; KListNodes; KGetPod])
    (NewMachine E n ns name source).
Proof. unfold NewMachine. steps_go. Qed.

Lemma listMachines_runs : steps (runs [KListMachines]) (listMachines E cfg).
Proof. unfold listMachines. steps_go. Qed.

Lemma getConfigMap_runs name : steps (runs [KGetConfigMap]) (getConfigMap E name).
Proof. unfold getConfigMap. steps_go. Qed.
Hint Resolve getConfigMap_runs : steps.

Lemma updateKubeletConfigMapIfNeeded_runs version :
  steps (runs [KGetConfigMap; KCreateConfigMap]) (updateKubeletConfigMapIfNeeded E version).
Proof. unfold updateKubeletConfigMapIfNeeded. steps_go. Qed.

Lemma ensureExists_runs get create onCreate onGet :
  steps (runs [kindOf get; kindOf create]) (ensureExists E get create onCreate onGet).
Proof. unfold ensureExists. steps_go. Qed.
Hint Resolve ensureExists_runs : steps.

Lemma updateKubeletRbacIfNeeded_runs version :
  steps (runs [KGetRole; KCreateRole; KGetRoleBinding; KCreateRoleBinding])
    (updateKubeletRbacIfNeeded E version).
Proof. unfold updateKubeletRbacIfNeeded. steps_go. Qed.

Lemma listEtcdPods_runs : steps (runs [KListPods]) (listEtcdPods E).
Proof. unfold listEtcdPods. steps_go. Qed.
Hint Resolve listEtcdPods_runs : steps.

Lemma etcdctlForPod_runs pod args :
  steps (runs [kindOf (PodExec (pNamespace pod) (pName pod) (etcdctlCommand pod args))])
    (etcdctlForPod E pod args).
Proof. unfold etcdctlForPod. steps_go. Qed.

Lemma etcdctl_list_runs :
  steps (runs [KListPods; KExec]) (etcdctl E ["member list -w json"]).
Proof.
  unfold etcdctl. steps_go.
  eapply steps_weaken; [apply etcdctlForPod_runs|kinds_solve].
Qed.

Lemma etcdctl_health_runs endpoints :
  steps (runs [KListPods; KExec]) (etcdctl E ["endpoint health --endpoints"; endpoints]).
Proof.
  unfold etcdctl. steps_go.
  eapply steps_weaken; [apply etcdctlForPod_runs|kinds_solve].
Qed.
Hint Resolve etcdctl_list_runs etcdctl_health_runs : steps.

Lemma listEtcdMembers_runs timeout :
  steps (runs [KListPods; KExec]) (listEtcdMembers E timeout).
Proof. unfold listEtcdMembers. steps_go. Qed.
Hint Resolve listEtcdMembers_runs : steps.

Lemma etcdClusterHealthCheck_runs timeout :
  steps (runs [KListPods; KExec]) (etcdClusterHealthCheck E timeout).
Proof. unfold etcdClusterHealthCheck. steps_go. Qed.

Lemma oldNodeToEtcdMemberId_runs timeout :
  steps (runs [KListPods; KExec]) (oldNodeToEtcdMemberId E timeout).
Proof. unfold oldNodeToEtcdMemberId. steps_go. Qed.

Lemma deleteEtcdMember_runs timeout newNode id :
  steps (runs [KListPods; KMemberRemove]) (deleteEtcdMember E timeout newNode id).
Proof.
  unfold deleteEtcdMember. steps_go.
  eapply steps_weaken; [apply etcdctlForPod_runs|kinds_solve].
Qed.

Lemma UpdateProviderIDsToNodes_runs : steps (runs [KListNodes]) (UpdateProviderIDsToNodes E).
Proof. unfold UpdateProviderIDsToNodes. steps_go. Qed.

Lemma updateAndUploadKubeadmKubernetesVersion_runs :
  steps (runs [KGetConfigMap; KUpdateConfigMap]) (updateAndUploadKubeadmKubernetesVersion E).
Proof. unfold updateAndUploadKubeadmKubernetesVersion. steps_go. Qed.

Lemma updateObjectReference_runs name ref :
  steps (runs [KGetObject]) (updateObjectReference E name ref).
Proof. unfold updateObjectReference. steps_go. Qed.

Lemma applyAnnotation_runs m : steps (runs [KPatchMachine]) (applyAnnotation E cfg m).
Proof. unfold applyAnnotation. steps_go. Qed.

Lemma deleteMachine_runs m : steps (runs [KDeleteMachine]) (deleteMachine E m).
Proof. unfold deleteMachine. steps_go. Qed.
Hint Resolve NewMachine_runs deleteEtcdMember_runs UpdateProviderIDsToNodes_runs
  updateObjectReference_runs applyAnnotation_runs deleteMachine_runs
  oldNodeToEtcdMemberId_runs : steps.

Lemma updateMachine_runs name machine creator :
  steps (runs updateMachineKinds) (updateMachine E cfg name machine creator).
Proof. unfold updateMachine. steps_go. Qed.
Hint Resolve updateMachine_runs : steps.

Lemma replaceMachine_runs creator machine :
  steps (runs replacementKinds) (replaceMachine E cfg creator machine).
Proof. unfold replaceMachine. steps_go. Qed.
Hint Resolve replaceMachine_runs : steps.

Lemma updateCRDsLoop_runs creator items :
  steps (runs replacementKinds) (updateCRDsLoop E cfg creator items).
Proof. induction items as [|m items IH]; simpl; steps_go. Qed.
Hint Resolve updateCRDsLoop_runs : steps.

Lemma updateCRDs_runs machines :
  steps (runs (KExec :: replacementKinds)) (updateCRDs E cfg machines).
Proof. unfold updateCRDs. steps_go. Qed.

End Footprints.

#[global] Hint Resolve isReady_runs waitForProviderID_runs waitForMatchingNode_runs
  waitForNodeReady_runs NewMachine_runs listMachines_runs getConfigMap_runs
  updateKubeletConfigMapIfNeeded_runs ensureExists_runs updateKubeletRbacIfNeeded_runs
  listEtcdPods_runs etcdctl_list_runs etcdctl_health_runs listEtcdMembers_runs
  etcdClusterHealthCheck_runs oldNodeToEtcdMemberId_runs deleteEtcdMember_runs
  UpdateProviderIDsToNodes_runs updateAndUploadKubeadmKubernetesVersion_runs
  updateObjectReference_runs applyAnnotation_runs deleteMachine_runs
  updateMachine_runs replaceMachine_runs updateCRDsLoop_runs updateCRDs_runs : steps.

(** ** Versions of the control plane *)

(** C6: [isMinorVersionUpgrade a b] is true exactly when the major versions
    are equal and the minor version of [a] is strictly below that of [b];
    it is false exactly when the major version changes or the minor version
    does not increase. *)
Theorem isMinorVersionUpgrade_iff (a b : Version) :
  (isMinorVersionUpgrade a b = true <-> Major a = Major b /\ (Minor a < Minor b)%N)
  /\ (isMinorVersionUpgrade a b = false <->
      Major a <> Major b \/ (Minor b <= Minor a)%N).
Proof.
  unfold isMinorVersionUpgrade.
  destruct (N.eqb_spec (Major a) (Major b)) as [Hmaj|Hmaj];
    destruct (N.ltb_spec (Minor a) (Minor b)) as [Hmin|Hmin]; simpl;
    repeat split; intros; try tauto; try lia; try congruence;
    intuition (try congruence; try lia).
Qed.

Section MinMax.
Context (E : Env).
Hypothesis unset_zero : unsetVersion E = Semver.zero.

Lemma minMaxInv_step seen mn mx v :
  minMaxInv E seen mn mx -> EQ v (unsetVersion E) = false ->
  minMaxInv E (seen ++ [v])
    (if EQ mn (unsetVersion E) || LT v mn then v else mn)
    (if EQ mx (unsetVersion E) || GT v mx then v else mx).
Proof.
  intros [(-> & -> & ->) | ([Hmn Hmin] & [Hmx Hmax] & Hset)] Hv; right.
  - assert (EQ (unsetVersion E) (unsetVersion E) = true) as ->.
    { unfold EQ. rewrite (SemverFacts.ol_refl _ SemverFacts.Compare_order). reflexivity. }
    simpl. repeat split; try (apply list_elem_of_singleton; reflexivity);
      repeat constructor; auto using SemverFacts.LE_refl.
  - assert (EQ mn (unsetVersion E) = false) as ->.
    { rewrite Forall_forall in Hset. apply Hset. exact Hmn. }
    assert (EQ mx (unsetVersion E) = false) as ->.
    { rewrite Forall_forall in Hset. apply Hset. exact Hmx. }
    simpl. split; [|split].
    + destruct (LT v mn) eqn:Hlt; split.
      * apply elem_of_app. right. apply list_elem_of_singleton. reflexivity.
      * apply Forall_app. split.
        -- eapply Forall_impl; [exact Hmin|]. intros x Hx. simpl in Hx.
           eapply SemverFacts.LT_LE_trans; eassumption.
        -- repeat constructor. apply SemverFacts.LE_refl.
      * apply elem_of_app. left. exact Hmn.
      * apply Forall_app. split; [exact Hmin|].
        repeat constructor. apply SemverFacts.not_LT_LE. exact Hlt.
    + destruct (GT v mx) eqn:Hgt; split.
      * apply elem_of_app. right. apply list_elem_of_singleton. reflexivity.
      * apply Forall_app. split.
        -- eapply Forall_impl; [exact Hmax|]. intros x Hx. simpl in Hx.
           eapply SemverFacts.LE_GT_trans; eassumption.
        -- repeat constructor. apply SemverFacts.LE_refl.
      * apply elem_of_app. left. exact Hmx.
      * apply Forall_app. split; [exact Hmax|].
        repeat constructor. apply SemverFacts.not_GT_LE. exact Hgt.
    + apply Forall_app. split; [exact Hset|]. repeat constructor. exact Hv.
Qed.

Lemma minMaxLoop_inv items :
  Forall (readable_set E) items ->
  forall seen mn mx, minMaxInv E seen mn mx ->
  exists mn' mx',
    minMaxLoop E items mn mx = Ok (mn', mx') /\
    minMaxInv E (seen ++ versionsOf E items) mn' mx'.
Proof.
  induction 1 as [|machine items (version & Hver & Hparse) Hitems IH];
    intros seen mn mx Hinv; simpl.
  - exists mn, mx. rewrite app_nil_r. split; [reflexivity|exact Hinv].
  - rewrite Hver. destruct (String.eqb_spec version "") as [Hempty|Hne]; simpl.
    + apply IH. exact Hinv.
    + destruct (Hparse Hne) as (v & -> & Hset).
      destruct (IH (seen ++ [v])%list _ _ (minMaxInv_step _ _ _ _ Hinv Hset))
        as (mn' & mx' & Hrun & Hinv').
      exists mn', mx'. split; [exact Hrun|].
      rewrite <- app_assoc in Hinv'. exact Hinv'.
Qed.

Lemma minMax_computes machines :
  Forall (readable_set E) machines -> computesMinMax E machines.
Proof.
  intros Hm.
  unfold computesMinMax, minMaxControlPlaneVersions. rewrite <- unset_zero.
  destruct (minMaxLoop_inv machines Hm [] (unsetVersion E) (unsetVersion E))
    as (mn & mx & Hrun & Hinv).
  { left. repeat split. }
  exists mn, mx. split; [exact Hrun|]. intros Hne.
  destruct Hinv as [(Hnil & _) | (Hmin & Hmax & _)]; [contradiction|].
  split; assumption.
Qed.

End MinMax.

(** C7, as stated, fails: with machines at 0.0.0 and 1.0.0, both readable,
    the function answers 1.0.0 for the minimum, because the first
    machine's version equals the unset version and is overwritten by the
    second. *)
Lemma minMax_zero_version_counterexample :
  Forall (readable Scenario.env)
    [Scenario.machineAt "controlplane-0" "0.0.0";
     Scenario.machineAt "controlplane-1" "1.0.0"]
  /\ minMaxControlPlaneVersions Scenario.env
       [Scenario.machineAt "controlplane-0" "0.0.0";
        Scenario.machineAt "controlplane-1" "1.0.0"]
     = Ok (mkVersion 1 0 0 [] [], mkVersion 1 0 0 [] [])
  /\ ~ computesMinMax Scenario.env
         [Scenario.machineAt "controlplane-0" "0.0.0";
          Scenario.machineAt "controlplane-1" "1.0.0"].
Proof.
  split; [|split].
  - repeat constructor.
    + exists "0.0.0". split; [reflexivity|]. intros _. eexists. reflexivity.
    + exists "1.0.0". split; [reflexivity|]. intros _. eexists. reflexivity.
  - reflexivity.
  - intros (mn & mx & Hrun & Hspec).
    change (Ok (mkVersion 1 0 0 [] [], mkVersion 1 0 0 [] []) = Ok (mn, mx)) in Hrun.
    injection Hrun as <- <-.
    destruct Hspec as [[_ Hmin] _]; [discriminate|].
    inversion Hmin as [|x l Hle _]. discriminate Hle.
Qed.

(** Nor does another choice of the unset version help: when it is not the
    zero version, [min] is never assigned and stays 0.0.0. *)
Lemma minMax_min_stays_zero (unset : Version) :
  EQ Semver.zero unset = false ->
  minMaxControlPlaneVersions (Scenario.envAround Scenario.cluster unset)
    [Scenario.machineAt "controlplane-0" "1.13.7"]
  = Ok (Semver.zero, mkVersion 1 13 7 [] []).
Proof.
  intros Hunset. unfold minMaxControlPlaneVersions. cbn.
  rewrite Hunset. reflexivity.
Qed.

(** The fleet of the spec's scenario: 1.13.7, 1.13.7 and 1.13.8 give the
    minimum 1.13.7 and the maximum 1.13.8, and going from that minimum to
    that maximum is no minor-version upgrade. *)
Example minMax_of_three_machines :
  minMaxControlPlaneVersions Scenario.env
    [Scenario.machineAt "controlplane-0" "1.13.7";
     Scenario.machineAt "controlplane-1" "1.13.7";
     Scenario.machineAt "controlplane-2" "1.13.8"]
  = Ok (mkVersion 1 13 7 [] [], mkVersion 1 13 8 [] [])
  /\ isMinorVersionUpgrade (mkVersion 1 13 7 [] []) (mkVersion 1 13 8 [] []) = false.
Proof. split; reflexivity. Qed.

Section DesiredVersion.
Context (E : Env) (cfg : Config).

Lemma runs_desiredVersion {A} ks (m : M A) st :
  steps (runs ks) m -> desiredVersion (snd (m st)) = desiredVersion st.
Proof. intros Hm. apply (Hm st). Qed.

Lemma afterVersions_runs machines mn :
  steps (runs upgradeKinds) (afterVersions E cfg machines mn).
Proof. unfold afterVersions, upgradeKinds. steps_go. Qed.

Lemma Upgrade_unfold st machines st1 mn mx :
  machines <> [] ->
  listMachines E cfg st = (Ok machines, st1) ->
  minMaxControlPlaneVersions E machines = Ok (mn, mx) ->
  ControlPlaneUpgrader_Upgrade E cfg st =
  bind (if EQ (unsetVersion E) (userVersion cfg) then setDesiredVersion mx else ret tt)
    (fun _ => afterVersions E cfg machines mn) st1.
Proof.
  intros Hne Hlist Hmm. unfold ControlPlaneUpgrader_Upgrade.
  unfold bind at 1. rewrite Hlist.
  destruct machines as [|m ms]; [contradiction|].
  unfold bind at 1. unfold wrapping, lift. rewrite Hmm. reflexivity.
Qed.

End DesiredVersion.

(** C7 (amended): with 0.0.0 for the unset version, for a non-empty list
    of control-plane Machines whose version fields are set, parse when they
    are not the empty string and never parse to a version equal to the
    unset version, the
    orchestrator computes the minimum and the maximum of the parsed
    versions of exactly the Machines with a non-empty version field; when
    the user version is the unset one, [Upgrade] sets the desired version
    to that maximum. *)
Theorem minMaxControlPlaneVersions_correct (E : Env) (cfg : Config)
    (machines : list Machine) :
  unsetVersion E = Semver.zero ->
  machines <> [] ->
  Forall (readable_set E) machines ->
  exists mn mx,
    minMaxControlPlaneVersions E machines = Ok (mn, mx) /\
    (versionsOf E machines <> [] ->
     minimum_of mn (versionsOf E machines) /\ maximum_of mx (versionsOf E machines)) /\
    (forall st st1,
       EQ (unsetVersion E) (userVersion cfg) = true ->
       listMachines E cfg st = (Ok machines, st1) ->
       desiredVersion (snd (ControlPlaneUpgrader_Upgrade E cfg st)) = mx).
Proof.
  intros Hunset Hne Hm.
  destruct (minMax_computes E Hunset machines Hm) as (mn & mx & Hrun & Hspec).
  exists mn, mx. split; [exact Hrun|]. split; [exact Hspec|].
  intros st st1 Huser Hlist.
  rewrite (Upgrade_unfold E cfg st machines st1 mn mx Hne Hlist Hrun), Huser.
  unfold bind, setDesiredVersion.
  rewrite (runs_desiredVersion upgradeKinds (afterVersions E cfg machines mn)).
  - reflexivity.
  - apply afterVersions_runs.
Qed.

(** The amended C7 at the three machines of the spec's scenario
    (1.13.7, 1.13.7, 1.13.8), with an empty version field among them. *)
Lemma minMaxControlPlaneVersions_correct_witness :
  exists mn mx,
    minMaxControlPlaneVersions Scenario.env
      [Scenario.machineAt "controlplane-0" "1.13.7";
       Scenario.machineAt "controlplane-1" "";
       Scenario.machineAt "controlplane-2" "1.13.7";
       Scenario.machineAt "controlplane-3" "v1.13.8"] = Ok (mn, mx) /\
    (versionsOf Scenario.env
       [Scenario.machineAt "controlplane-0" "1.13.7";
        Scenario.machineAt "controlplane-1" "";
        Scenario.machineAt "controlplane-2" "1.13.7";
        Scenario.machineAt "controlplane-3" "v1.13.8"] <> [] ->
     minimum_of mn
       (versionsOf Scenario.env
          [Scenario.machineAt "controlplane-0" "1.13.7";
           Scenario.machineAt "controlplane-1" "";
           Scenario.machineAt "controlplane-2" "1.13.7";
           Scenario.machineAt "controlplane-3" "v1.13.8"]) /\
     maximum_of mx
       (versionsOf Scenario.env
          [Scenario.machineAt "controlplane-0" "1.13.7";
           Scenario.machineAt "controlplane-1" "";
           Scenario.machineAt "controlplane-2" "1.13.7";
           Scenario.machineAt "controlplane-3" "v1.13.8"])) /\
    (forall st st1,
       EQ (unsetVersion Scenario.env) (userVersion Scenario.unsetConfig) = true ->
       listMachines Scenario.env Scenario.unsetConfig st =
         (Ok [Scenario.machineAt "controlplane-0" "1.13.7";
              Scenario.machineAt "controlplane-1" "";
              Scenario.machineAt "controlplane-2" "1.13.7";
              Scenario.machineAt "controlplane-3" "v1.13.8"], st1) ->
       desiredVersion
         (snd (ControlPlaneUpgrader_Upgrade Scenario.env Scenario.unsetConfig st)) = mx).
Proof.
  apply (minMaxControlPlaneVersions_correct Scenario.env Scenario.unsetConfig).
  - reflexivity.
  - discriminate.
  - repeat constructor.
    + exists "1.13.7". split; [reflexivity|]. intros _. eexists. split; reflexivity.
    + exists "". split; [reflexivity|]. intros H. contradiction H. reflexivity.
    + exists "1.13.7". split; [reflexivity|]. intros _. eexists. split; reflexivity.
    + exists "v1.13.8". split; [reflexivity|]. intros _. eexists. split; reflexivity.
Defined.

(** ** The order of the rewrite and of the replacements *)

Section Order.
Context (E : Env) (cfg : Config).

Lemma runs_calls {A} ks (m : M A) : steps (runs ks) m -> steps (calls ks) m.
Proof. intros Hm st. destruct (Hm st) as [_ H]. exact H. Qed.

Lemma setDesiredVersion_calls ks v : steps (calls ks) (setDesiredVersion v).
Proof.
  intros st. exists []. split; [|constructor].
  unfold extends. simpl. rewrite app_nil_r. reflexivity.
Qed.

Lemma preparation_no_step evs :
  Forall (fun ev => kindOf (fst ev) ∈ preparationKinds) evs ->
  Forall (fun ev => isMachineStep ev = false) evs.
Proof.
  intros H. eapply Forall_impl; [exact H|]. clear H.
  intros ev Hev. simpl in Hev. unfold isMachineStep.
  destruct (kindOf (fst ev)); try reflexivity;
    unfold preparationKinds in Hev; set_solver.
Qed.

Lemma replacement_no_rewrite evs :
  Forall (fun ev => kindOf (fst ev) ∈ KExec :: replacementKinds) evs ->
  Forall (fun ev => isRewrite ev = false) evs.
Proof.
  intros H. eapply Forall_impl; [exact H|]. clear H.
  intros ev Hev. simpl in Hev. unfold isRewrite.
  destruct (kindOf (fst ev)); try reflexivity;
    unfold replacementKinds, updateMachineKinds in Hev; set_solver.
Qed.

Lemma calls_rewriteThenMachines {A} (m : M A) :
  steps (calls preparationKinds) m -> steps rewriteThenMachines m.
Proof.
  intros Hm st. destruct (Hm st) as (evs & Hext & Hk).
  exists evs, []. rewrite app_nil_r. repeat split.
  - exact Hext.
  - apply preparation_no_step. exact Hk.
  - constructor.
  - intros H. contradiction H. reflexivity.
Qed.

Lemma rewriteThenMachines_bind {A B} (m : M A) (k : A -> M B) :
  steps (calls preparationKinds) m ->
  (forall a, steps rewriteThenMachines (k a)) ->
  steps rewriteThenMachines (bind m k).
Proof.
  intros Hm Hk st. unfold bind.
  pose proof (calls_rewriteThenMachines m Hm st) as Hfail.
  destruct (Hm st) as (evs & Hext & Hkinds).
  destruct (m st) as [[a|e|p] st1]; simpl in *; try exact Hfail.
  destruct (Hk a st1) as (before & after & Hext' & Hb & Ha & Hlast).
  exists (evs ++ before)%list, after. repeat split.
  - unfold extends in *. rewrite Hext', Hext, !app_assoc. reflexivity.
  - apply Forall_app. split; [apply preparation_no_step; exact Hkinds|exact Hb].
  - exact Ha.
  - intros Hne. destruct (Hlast Hne) as (earlier & cm & r & -> & Hr).
    exists (evs ++ earlier)%list, cm, r. rewrite app_assoc. split; [reflexivity|exact Hr].
Qed.

Lemma reply_err_None r : reply_err r = None -> replyError r = None.
Proof. destruct r; simpl; unfold malformed; congruence. Qed.

(** A successful rewrite ends on a successful [Update] of the ConfigMap. *)
Lemma updateAndUpload_ok st st1 :
  updateAndUploadKubeadmKubernetesVersion E st = (Ok tt, st1) ->
  exists earlier cm r,
    extends st (earlier ++ [(UpdateConfigMap cm, r)])%list st1 /\ replyError r = None.
Proof.
  unfold updateAndUploadKubeadmKubernetesVersion, getConfigMap. intros H.
  run_inv H.
  eexists [_], _, _. split.
  - unfold extends. cbn. rewrite <- app_assoc. reflexivity.
  - apply reply_err_None. exact H.
Qed.

Lemma rewrite_then_updateCRDs machines :
  steps rewriteThenMachines
    (bind (updateAndUploadKubeadmKubernetesVersion E) (fun _ => updateCRDs E cfg machines)).
Proof.
  intros st. unfold bind.
  pose proof (calls_rewriteThenMachines (updateAndUploadKubeadmKubernetesVersion E)) as Hfail.
  assert (Hcalls : steps (calls preparationKinds) (updateAndUploadKubeadmKubernetesVersion E)).
  { apply runs_calls. eapply steps_weaken; [apply updateAndUploadKubeadmKubernetesVersion_runs|].
    unfold preparationKinds. set_solver. }
  specialize (Hfail Hcalls st).
  pose proof (updateAndUpload_ok st) as Hok.
  destruct (Hcalls st) as (evs & Hext & Hkinds).
  destruct (updateAndUploadKubeadmKubernetesVersion E st) as [[[]|e|p] st1];
    simpl in *; try exact Hfail.
  destruct (Hok st1 eq_refl) as (earlier & cm & r & Hext1 & Hr).
  destruct (updateCRDs_runs E cfg machines st1) as [_ (evs2 & Hext2 & Hkinds2)].
  assert (evs = (earlier ++ [(UpdateConfigMap cm, r)])%list) as Hevs.
  { unfold extends in *. rewrite Hext in Hext1. eapply app_inv_head. exact Hext1. }
  exists evs, evs2. repeat split.
  - unfold extends in *. rewrite Hext2, Hext, app_assoc. reflexivity.
  - apply preparation_no_step. exact Hkinds.
  - apply replacement_no_rewrite. exact Hkinds2.
  - intros _. exists earlier, cm, r. split; [exact Hevs|exact Hr].
Qed.

End Order.

Ltac prepare_go :=
  apply runs_calls;
  first [ solve [eapply steps_weaken; [eauto with steps|unfold preparationKinds; kinds_solve]]
        | unfold preparationKinds; steps_go ].

Lemma Upgrade_rewriteThenMachines (E : Env) (cfg : Config) :
  steps rewriteThenMachines (ControlPlaneUpgrader_Upgrade E cfg).
Proof.
  unfold ControlPlaneUpgrader_Upgrade.
  apply rewriteThenMachines_bind; [prepare_go|]. intros machines.
  destruct machines as [|m ms].
  { apply calls_rewriteThenMachines. prepare_go. }
  apply rewriteThenMachines_bind; [prepare_go|]. intros [mn mx].
  apply rewriteThenMachines_bind.
  { destruct (EQ _ _); [apply setDesiredVersion_calls|prepare_go]. }
  intros _.
  apply rewriteThenMachines_bind; [prepare_go|]. intros st'.
  apply rewriteThenMachines_bind; [prepare_go|]. intros _.
  apply rewriteThenMachines_bind; [prepare_go|]. intros _.
  apply rewriteThenMachines_bind; [prepare_go|]. intros _.
  apply rewrite_then_updateCRDs.
Qed.

(** In a run of two such phases every rewrite comes before every
    per-machine step. *)
Lemma phases_order (before after : list event) :
  Forall (fun ev => isMachineStep ev = false) before ->
  Forall (fun ev => isRewrite ev = false) after ->
  forall i j rewrite step,
    (before ++ after)%list !! i = Some rewrite -> isRewrite rewrite = true ->
    (before ++ after)%list !! j = Some step -> isMachineStep step = true ->
    (i < j)%nat.
Proof.
  intros Hb Ha i j rewrite step Hi Hr Hj Hs.
  rewrite Forall_forall in Hb, Ha.
  assert (Hilt : (i < length before)%nat).
  { destruct (Nat.lt_ge_cases i (length before)) as [Hlt|Hge]; [exact Hlt|].
    rewrite lookup_app_r in Hi by exact Hge.
    rewrite (Ha rewrite) in Hr; [discriminate|].
    eapply list_elem_of_lookup_2. exact Hi. }
  assert (Hjge : (length before <= j)%nat).
  { destruct (Nat.lt_ge_cases j (length before)) as [Hlt|Hge]; [|exact Hge].
    rewrite lookup_app_l in Hj by exact Hlt.
    rewrite (Hb step) in Hs; [discriminate|].
    eapply list_elem_of_lookup_2. exact Hj. }
  lia.
Qed.

(** C1 (amended): in a control-plane upgrade run the kubeadm-config rewrite
    comes before the per-machine loop.  The events of a run split in two:
    the first part holds no per-machine step (creation of a clone or of a
    Machine, member removal, deletion, annotation), the second part holds
    no rewrite, and the second part is empty unless the first ends with a
    rewrite the cluster accepted.  So every rewrite comes before every
    per-machine step of the run. *)
Theorem Upgrade_rewrites_before_replacing (E : Env) (cfg : Config) (st : state) :
  exists before after,
    extends st (before ++ after)%list (snd (ControlPlaneUpgrader_Upgrade E cfg st)) /\
    Forall (fun ev => isMachineStep ev = false) before /\
    Forall (fun ev => isRewrite ev = false) after /\
    (after <> [] ->
     exists earlier cm r,
       before = (earlier ++ [(UpdateConfigMap cm, r)])%list /\ replyError r = None) /\
    (forall i j rewrite step,
       (before ++ after)%list !! i = Some rewrite -> isRewrite rewrite = true ->
       (before ++ after)%list !! j = Some step -> isMachineStep step = true ->
       (i < j)%nat).
Proof.
  destruct (Upgrade_rewriteThenMachines E cfg st)
    as (before & after & Hext & Hb & Ha & Hlast).
  exists before, after. repeat split; try assumption.
  apply phases_order; assumption.
Qed.

(** C1, as stated, fails: in the run on the concrete cluster the rewrite is
    the eighth event and the creation of the infrastructure clone, a
    per-machine step, the twelfth. *)
Lemma Upgrade_rewrite_first_counterexample :
  ~ rewriteAfterMachines
      (trace (snd (ControlPlaneUpgrader_Upgrade Scenario.env Scenario.config
                     Scenario.start))).
Proof.
  intros H.
  assert (exists rewrite step,
            trace (snd (ControlPlaneUpgrader_Upgrade Scenario.env Scenario.config
                          Scenario.start)) !! 7%nat = Some rewrite /\
            isRewrite rewrite = true /\
            trace (snd (ControlPlaneUpgrader_Upgrade Scenario.env Scenario.config
                          Scenario.start)) !! 11%nat = Some step /\
            isMachineStep step = true) as (rewrite & step & Hi & Hr & Hj & Hs).
  { eexists _, _. vm_compute. repeat split; reflexivity. }
  specialize (H 7%nat 11%nat rewrite step Hi Hr Hj Hs). lia.
Qed.

(** ** Tearing down the old machine *)

Section Teardown.
Context (E : Env) (cfg : Config).

Lemma no_deletion_removalBeforeDeletion evs :
  Forall (fun ev => isMachineDeletion ev = false) evs -> removalBeforeDeletion evs.
Proof.
  intros Hno i deletion Hi Hdel. rewrite Forall_forall in Hno.
  rewrite (Hno deletion) in Hdel; [discriminate|].
  eapply list_elem_of_lookup_2. exact Hi.
Qed.

Lemma removal_then_deletions pre removal post :
  Forall (fun ev => isMachineDeletion ev = false) pre ->
  isMemberRemoval removal = true -> replyError (snd removal) = None ->
  removalBeforeDeletion (pre ++ removal :: post).
Proof.
  intros Hpre Hrem Hok i deletion Hi Hdel.
  destruct (Nat.lt_trichotomy i (length pre)) as [Hlt|[Heq|Hgt]].
  - rewrite lookup_app_l in Hi by exact Hlt. rewrite Forall_forall in Hpre.
    rewrite (Hpre deletion) in Hdel; [discriminate|].
    eapply list_elem_of_lookup_2. exact Hi.
  - subst i. rewrite list_lookup_middle in Hi by reflexivity.
    injection Hi as <-. unfold isMemberRemoval in Hrem.
    unfold isMachineDeletion in Hdel.
    destruct (kindOf (fst removal)); discriminate.
  - exists (length pre), removal. repeat split; try assumption.
    apply list_lookup_middle. reflexivity.
Qed.

Lemma kinds_no_deletion (ks : list kind) evs :
  KDeleteMachine ∉ ks ->
  Forall (fun ev => kindOf (fst ev) ∈ ks) evs ->
  Forall (fun ev => isMachineDeletion ev = false) evs.
Proof.
  intros Hks H. eapply Forall_impl; [exact H|]. clear H.
  intros ev Hev. simpl in Hev. unfold isMachineDeletion.
  destruct (kindOf (fst ev)) eqn:Hk; try reflexivity. contradiction.
Qed.

Lemma kinds_noTeardown (ks : list kind) evs :
  KDeleteMachine ∉ ks -> KMemberRemove ∉ ks ->
  Forall (fun ev => kindOf (fst ev) ∈ ks) evs -> Forall noTeardown evs.
Proof.
  intros Hd Hr H. eapply Forall_impl; [exact H|]. clear H.
  intros ev Hev. simpl in Hev. unfold noTeardown, isMemberRemoval, isMachineDeletion.
  destruct (kindOf (fst ev)) eqn:Hk; split; try reflexivity; contradiction.
Qed.

Lemma reply_exec_None r out err :
  reply_exec r = (out, err, None) -> replyError r = None.
Proof. destruct r; simpl; unfold malformed; congruence. Qed.

(** A member removal that returns no error ends on the remote command that
    removed the member, accepted by the cluster. *)
Lemma deleteEtcdMember_ok timeout newNode id st st1 :
  deleteEtcdMember E timeout newNode id st = (Ok tt, st1) ->
  exists earlier removal,
    extends st (earlier ++ [removal])%list st1 /\
    Forall (fun ev => isMachineDeletion ev = false) earlier /\
    isMemberRemoval removal = true /\ replyError (snd removal) = None.
Proof.
  unfold deleteEtcdMember, listEtcdPods, etcdctlForPod. intros H.
  run_inv H.
  eexists [_], _. repeat split.
  - unfold extends. cbn. rewrite <- app_assoc. reflexivity.
  - repeat constructor.
  - reflexivity.
  - eapply reply_exec_None. eassumption.
Qed.

Lemma afterNewMachine_order machine oldHostName created st :
  exists torn,
    extends st torn (snd (afterNewMachine E cfg machine oldHostName created st)) /\
    removalBeforeDeletion torn.
Proof.
  destruct created as [newMachine node]. unfold afterNewMachine.
  unfold bind at 1. unfold lift.
  destruct (hostnameForNode node) as [nodeHostname|e|p];
    try (exists []; split;
         [unfold extends; simpl; rewrite app_nil_r; reflexivity
         |apply no_deletion_removalBeforeDeletion; constructor]).
  unfold bind at 1.
  destruct (UpdateProviderIDsToNodes_runs E st) as [_ (evs1 & Hext1 & Hk1)].
  pose proof (kinds_no_deletion [KListNodes] evs1 ltac:(set_solver) Hk1) as Hno1.
  destruct (UpdateProviderIDsToNodes E st) as [[[]|e|p] st1]; simpl in Hext1;
    try (exists evs1; split; [exact Hext1|apply no_deletion_removalBeforeDeletion; exact Hno1]).
  unfold bind at 1. unfold getState. unfold bind at 1.
  set (etcdMemberId := default "" (oldNodeToEtcdMember st1 !! oldHostName)).
  pose proof (deleteEtcdMember_ok (1 * Minute) nodeHostname etcdMemberId st1) as Hok.
  destruct (deleteEtcdMember_runs E (1 * Minute) nodeHostname etcdMemberId st1)
    as [_ (evs2 & Hext2 & Hk2)].
  pose proof (kinds_no_deletion [KListPods; KMemberRemove] evs2 ltac:(set_solver) Hk2)
    as Hno2.
  unfold wrapping.
  destruct (deleteEtcdMember E (1 * Minute) nodeHostname etcdMemberId st1)
    as [[[]|e|p] st2]; simpl in Hext2;
    try (exists (evs1 ++ evs2)%list; split;
         [unfold extends in *; simpl; rewrite Hext2, Hext1, app_assoc; reflexivity
         |apply no_deletion_removalBeforeDeletion; apply Forall_app; split; assumption]).
  destruct (Hok st2 eq_refl) as (earlier & removal & Hext2' & Hearlier & Hrem & Hrok).
  assert (evs2 = (earlier ++ [removal])%list) as ->.
  { unfold extends in *. rewrite Hext2 in Hext2'. eapply app_inv_head. exact Hext2'. }
  assert (Hrest : steps (runs [KDeleteMachine; KPatchMachine])
                    (bind (deleteMachine E machine) (fun _ => applyAnnotation E cfg newMachine))).
  { steps_go. }
  destruct (Hrest st2) as [_ (evs3 & Hext3 & _)].
  exists ((evs1 ++ earlier) ++ removal :: evs3)%list. split.
  - unfold extends in *. rewrite Hext3, Hext2, Hext1.
    rewrite <- !app_assoc. reflexivity.
  - apply removal_then_deletions; try assumption.
    apply Forall_app. split; assumption.
Qed.

Lemma updateMachine_unfold name machine creator rawProviderID providerID oldNode st :
  specProviderID (mSpec machine) = Some rawProviderID ->
  NewProviderID E rawProviderID = Ok providerID ->
  GetNodeFromProviderID st (pidID providerID) = Some oldNode ->
  updateMachine E cfg name machine creator st =
  bind (NewMachine E creator (clusterNamespace cfg) name machine)
    (afterNewMachine E cfg machine (firstHostname (nAddresses oldNode))) st.
Proof.
  intros Hraw Hpid Hold. unfold updateMachine. rewrite Hraw.
  unfold bind at 1. unfold lift. rewrite Hpid.
  unfold bind at 1. unfold getState. rewrite Hold.
  unfold bind at 1. unfold hostnameForNode. reflexivity.
Qed.

(** When the preliminaries of [updateMachine] fail, nothing is called. *)
Lemma updateMachine_early name machine creator st :
  (forall rawProviderID providerID oldNode,
     specProviderID (mSpec machine) = Some rawProviderID ->
     NewProviderID E rawProviderID = Ok providerID ->
     GetNodeFromProviderID st (pidID providerID) = Some oldNode -> False) ->
  snd (updateMachine E cfg name machine creator st) = st /\
  forall u, fst (updateMachine E cfg name machine creator st) <> Ok u.
Proof.
  intros Hnone. unfold updateMachine.
  unfold bind, lift, getState, fail, panic.
  destruct (specProviderID (mSpec machine)) as [raw|] eqn:Hraw;
    [|split; [reflexivity|intros u; simpl; discriminate]].
  destruct (NewProviderID E raw) as [providerID|e|p] eqn:Hpid;
    try (split; [reflexivity|intros u; simpl; discriminate]).
  destruct (GetNodeFromProviderID st (pidID providerID)) as [oldNode|] eqn:Hold;
    [|split; [reflexivity|intros u; simpl; discriminate]].
  exfalso. exact (Hnone raw providerID oldNode eq_refl Hpid Hold).
Qed.

End Teardown.

(** C3: in [updateMachine] the removal of the old etcd member and the
    deletion of the old Machine come only after [NewMachine] has returned
    without error.  The events of a run split in two: the first part are
    the events of [NewMachine] and holds neither a member removal nor a
    deletion; the second part is empty unless [NewMachine] returned a
    machine, and in it every deletion follows a member removal that
    succeeded.  If [NewMachine] fails, so does [updateMachine], with the
    same error and with no event after those of [NewMachine]. *)
Theorem updateMachine_tears_down_after_NewMachine (E : Env) (cfg : Config)
    (name : string) (machine : Machine) (creator : MachineCreator) (st : state) :
  exists waited torn,
    extends st (waited ++ torn)%list (snd (updateMachine E cfg name machine creator st)) /\
    Forall noTeardown waited /\
    (torn <> [] ->
     exists created st1,
       NewMachine E creator (clusterNamespace cfg) name machine st = (Ok created, st1) /\
       extends st waited st1) /\
    removalBeforeDeletion torn /\
    ((forall created st1,
        NewMachine E creator (clusterNamespace cfg) name machine st <> (Ok created, st1)) ->
     torn = [] /\ forall u, fst (updateMachine E cfg name machine creator st) <> Ok u).
Proof.
  destruct (specProviderID (mSpec machine)) as [raw|] eqn:Hraw.
  2:{ destruct (updateMachine_early E cfg name machine creator st) as [Hst Hno].
      { intros; congruence. }
      exists [], []. rewrite Hst. repeat split.
      - unfold extends. rewrite app_nil_r. reflexivity.
      - constructor.
      - intros H. contradiction H. reflexivity.
      - apply no_deletion_removalBeforeDeletion. constructor.
      - exact Hno. }
  destruct (NewProviderID E raw) as [providerID|e|p] eqn:Hpid.
  2,3: destruct (updateMachine_early E cfg name machine creator st) as [Hst Hno];
       [intros; congruence|];
       exists [], []; rewrite Hst; repeat split;
       [unfold extends; rewrite app_nil_r; reflexivity
       |constructor
       |intros H; contradiction H; reflexivity
       |apply no_deletion_removalBeforeDeletion; constructor
       |exact Hno].
  destruct (GetNodeFromProviderID st (pidID providerID)) as [oldNode|] eqn:Hold.
  2:{ destruct (updateMachine_early E cfg name machine creator st) as [Hst Hno].
      { intros; congruence. }
      exists [], []. rewrite Hst. repeat split.
      - unfold extends. rewrite app_nil_r. reflexivity.
      - constructor.
      - intros H. contradiction H. reflexivity.
      - apply no_deletion_removalBeforeDeletion. constructor.
      - exact Hno. }
  rewrite (updateMachine_unfold E cfg name machine creator raw providerID oldNode st
             Hraw Hpid Hold).
  unfold bind.
  destruct (NewMachine_runs E creator (clusterNamespace cfg) name machine st)
    as [_ (waited & Hext & Hkinds)].
  assert (Hquiet : Forall noTeardown waited).
  { eapply kinds_noTeardown; [| |exact Hkinds]; set_solver. }
  destruct (NewMachine E creator (clusterNamespace cfg) name machine st)
    as [[created|e|p] st1]; simpl in Hext.
  - destruct (afterNewMachine_order E cfg machine (firstHostname (nAddresses oldNode))
                created st1) as (torn & Hext' & Horder).
    exists waited, torn. repeat split.
    + unfold extends in *. rewrite Hext', Hext, app_assoc. reflexivity.
    + exact Hquiet.
    + intros _. exists created, st1. split; [reflexivity|exact Hext].
    + exact Horder.
    + exfalso. eapply H. reflexivity.
    + exfalso. eapply H. reflexivity.
  - exists waited, []. simpl. repeat split.
    + unfold extends in *. rewrite app_nil_r. exact Hext.
    + exact Hquiet.
    + intros H. contradiction H. reflexivity.
    + apply no_deletion_removalBeforeDeletion. constructor.
    + intros u Hu. discriminate Hu.
  - exists waited, []. simpl. repeat split.
    + unfold extends in *. rewrite app_nil_r. exact Hext.
    + exact Hquiet.
    + intros H. contradiction H. reflexivity.
    + apply no_deletion_removalBeforeDeletion. constructor.
    + intros u Hu. discriminate Hu.
Qed.

(** ** Resuming: items that already carry the upgrade id *)

Section Resume.
Context (E : Env) (cfg : Config).

Lemma hasUpgradeID_lookup annotations id :
  annotationLookup annotations UpgradeIDAnnotationKey = Some id ->
  hasUpgradeID annotations id = true.
Proof. unfold hasUpgradeID. intros ->. apply String.eqb_refl. Qed.

Lemma updateCRDsLoop_skips creator pre machine rest st :
  hasUpgradeID (mAnnotations machine) (upgradeID cfg) = true ->
  updateCRDsLoop E cfg creator (pre ++ machine :: rest) st =
  updateCRDsLoop E cfg creator (pre ++ rest) st.
Proof.
  intros Hid. revert st. induction pre as [|m pre IH]; intros st; simpl.
  - rewrite Hid. reflexivity.
  - destruct (hasUpgradeID (mAnnotations m) (upgradeID cfg)); [apply IH|].
    destruct (specProviderID (mSpec m)); [|apply IH].
    unfold bind. destruct (replaceMachine E cfg creator m st) as [[[]|e|p] st1];
      [apply IH|reflexivity|reflexivity].
Qed.

Lemma upgradeMachineDeployments_skips pre md rest st :
  hasUpgradeID (mdTemplateAnnotations md) (upgradeID cfg) = true ->
  upgradeMachineDeployments E cfg (pre ++ md :: rest) st =
  upgradeMachineDeployments E cfg (pre ++ rest) st.
Proof.
  intros Hid. revert st. induction pre as [|m pre IH]; intros st; simpl.
  - rewrite Hid. reflexivity.
  - destruct (hasUpgradeID (mdTemplateAnnotations m) (upgradeID cfg)); [apply IH|].
    unfold bind. destruct (updateMachineDeployment E cfg m st) as [[[]|e|p] st1];
      [apply IH|reflexivity|reflexivity].
Qed.

End Resume.

(** C4: a Machine (control-plane path) or a MachineDeployment template
    (worker path) whose annotation [upgrade-id] equals the current upgrade
    identifier is skipped by the per-item loop: its iteration makes no call
    and leaves the state as it is, and the loop over a list holding it,
    anywhere, runs exactly as the loop over the list without it. *)
Theorem annotated_items_are_skipped (E : Env) (cfg : Config)
    (machine : Machine) (machineDeployment : MachineDeployment) :
  annotationLookup (mAnnotations machine) UpgradeIDAnnotationKey
    = Some (upgradeID cfg) ->
  annotationLookup (mdTemplateAnnotations machineDeployment) UpgradeIDAnnotationKey
    = Some (upgradeID cfg) ->
  (forall creator st, updateCRDsLoop E cfg creator [machine] st = (Ok tt, st)) /\
  (forall creator pre rest st,
     updateCRDsLoop E cfg creator (pre ++ machine :: rest) st =
     updateCRDsLoop E cfg creator (pre ++ rest) st) /\
  (forall pre rest st,
     updateCRDs E cfg (pre ++ machine :: rest) st = updateCRDs E cfg (pre ++ rest) st) /\
  (forall st, upgradeMachineDeployments E cfg [machineDeployment] st = (Ok tt, st)) /\
  (forall pre rest st,
     upgradeMachineDeployments E cfg (pre ++ machineDeployment :: rest) st =
     upgradeMachineDeployments E cfg (pre ++ rest) st).
Proof.
  intros Hm Hmd.
  apply hasUpgradeID_lookup in Hm. apply hasUpgradeID_lookup in Hmd.
  repeat split.
  - intros creator st. simpl. rewrite Hm. reflexivity.
  - intros creator pre rest st. apply updateCRDsLoop_skips. exact Hm.
  - intros pre rest st. unfold updateCRDs, bind.
    destruct (oldNodeToEtcdMemberId E (1 * Minute) st) as [[[]|e|p] st1];
      try reflexivity.
    simpl. apply updateCRDsLoop_skips. exact Hm.
  - intros st. simpl. rewrite Hmd. reflexivity.
  - intros pre rest st. apply upgradeMachineDeployments_skips. exact Hmd.
Qed.

(** C4 at a Machine and a template of the concrete cluster that carry the
    upgrade id of the run. *)
Lemma annotated_items_are_skipped_witness :
  (forall creator st,
     updateCRDsLoop Scenario.env Scenario.config creator [Scenario.doneMachine] st
     = (Ok tt, st)) /\
  (forall creator pre rest st,
     updateCRDsLoop Scenario.env Scenario.config creator
       (pre ++ Scenario.doneMachine :: rest) st =
     updateCRDsLoop Scenario.env Scenario.config creator (pre ++ rest) st) /\
  (forall pre rest st,
     updateCRDs Scenario.env Scenario.config (pre ++ Scenario.doneMachine :: rest) st
     = updateCRDs Scenario.env Scenario.config (pre ++ rest) st) /\
  (forall st,
     upgradeMachineDeployments Scenario.env Scenario.config [Scenario.doneDeployment] st
     = (Ok tt, st)) /\
  (forall pre rest st,
     upgradeMachineDeployments Scenario.env Scenario.config
       (pre ++ Scenario.doneDeployment :: rest) st =
     upgradeMachineDeployments Scenario.env Scenario.config (pre ++ rest) st).
Proof.
  apply (annotated_items_are_skipped Scenario.env Scenario.config
           Scenario.doneMachine Scenario.doneDeployment); reflexivity.
Defined.

(** ** The annotation patch *)

(** C10: [applyAnnotation] returns nil whatever the cluster answers to the
    patch: it makes the one [Patch] call, with the annotated copy against
    the machine as it was, drops the answer and returns no error.  So a
    rejected patch does not abort a run: on the concrete cluster, made to
    reject every patch of a Machine, the upgrade ends without error on the
    rejected patch. *)
Theorem applyAnnotation_returns_nil :
  (forall (E : Env) (cfg : Config) (m : Machine) (st : state),
     let updated :=
       mkMachine (mName m) (mNamespace m) (mResourceVersion m)
         (annotate (mAnnotations m) UpgradeIDAnnotationKey (upgradeID cfg)) (mSpec m) in
     applyAnnotation E cfg m st =
     (Ok tt, record (PatchMachine updated m, api E (trace st) (PatchMachine updated m)) st))
  /\ fst (ControlPlaneUpgrader_Upgrade Scenario.rejectingPatches Scenario.config
            Scenario.start) = Ok tt
  /\ exists ev e,
       last (trace (snd (ControlPlaneUpgrader_Upgrade Scenario.rejectingPatches
                           Scenario.config Scenario.start))) = Some ev
       /\ kindOf (fst ev) = KPatchMachine /\ snd ev = RErr (Some e).
Proof.
  split; [|split].
  - intros E cfg m st. reflexivity.
  - vm_compute. reflexivity.
  - eexists _, _. vm_compute. repeat split; reflexivity.
Qed.

(** ** A creator that does not wait for the matching node *)

Section NilNode.
Context (E : Env) (cfg : Config).


(** A nil node from [NewMachine] makes [updateMachine] panic where it asks
    for the node's hostname, before any step of the teardown. *)
Lemma updateMachine_nil_node name machine creator rawProviderID providerID oldNode
    newMachine st st1 :
  specProviderID (mSpec machine) = Some rawProviderID ->
  NewProviderID E rawProviderID = Ok providerID ->
  GetNodeFromProviderID st (pidID providerID) = Some oldNode ->
  NewMachine E creator (clusterNamespace cfg) name machine st
    = (Ok (newMachine, None), st1) ->
  updateMachine E cfg name machine creator st = (Panic nilDeref, st1).
Proof.
  intros Hraw Hpid Hold Hnew.
  rewrite (updateMachine_unfold E cfg name machine creator rawProviderID providerID
             oldNode st Hraw Hpid Hold).
  unfold bind. rewrite Hnew. reflexivity.
Qed.

End NilNode.


(** ** The clone of the bootstrap object *)

Section Clones.
Context (E : Env) (cfg : Config).

(** What [updateObjectReference] hands back: the reference renamed and
    without resource version, and the object fetched through it renamed,
    without resource version, owners and [spec.providerID]. *)
Lemma updateObjectReference_clone name ref st newRef object st1 :
  updateObjectReference E name (Some ref) st = (Ok (newRef, object), st1) ->
  refName newRef = name /\ refResourceVersion newRef = "" /\
  refKind newRef = refKind ref /\
  uName object = name /\ uResourceVersion object = "" /\
  uOwnerReferences object = [] /\ uSpec object !! "providerID" = None.
Proof.
  unfold updateObjectReference. intros H. run_inv H.
  match goal with Hp : (newRef, object) = _ |- _ => injection Hp as -> -> end.
  cbn. repeat split; try reflexivity.
  - destruct (refNamespace ref =? ""); reflexivity.
  - apply lookup_delete_eq.
Qed.

Lemma createdObjects_app evs1 evs2 :
  createdObjects (evs1 ++ evs2) = (createdObjects evs1 ++ createdObjects evs2)%list.
Proof.
  induction evs1 as [|[c r] evs1 IH]; [reflexivity|].
  destruct c; simpl; rewrite ?IH; reflexivity.
Qed.

Lemma kinds_no_create (ks : list kind) (evs : list event) :
  KCreateObject ∉ ks ->
  Forall (fun ev => kindOf (fst ev) ∈ ks) evs ->
  createdObjects evs = [].
Proof.
  intros Hks H. induction H as [|[c r] evs Hev _ IH]; [reflexivity|].
  destruct c; simpl in *; try exact IH. contradiction.
Qed.

(** One replacement submits at most one object for creation: the clone of
    the infrastructure object.  The clone of the bootstrap object is built
    and dropped. *)
Lemma replaceMachine_creates_one_object creator machine st :
  exists evs,
    extends st evs (snd (replaceMachine E cfg creator machine st)) /\
    (length (createdObjects evs) <= 1)%nat.
Proof.
  unfold replaceMachine.
  destruct (Split (mName machine) "-") as [|part0 [|part1 parts]];
    try (exists []; split; [unfold extends; simpl; rewrite app_nil_r; reflexivity
                           |simpl; lia]).
  unfold bind at 1. unfold getState.
  set (name := part0 ++ "-" ++ part1 ++ "-" ++ Z_to_string (nowUnix E (trace st))).
  unfold bind at 1.
  destruct (updateObjectReference_runs E name
              (Some (specInfrastructureRef (mSpec machine))) st)
    as [_ (evs1 & Hext1 & Hk1)].
  assert (Hc1 : createdObjects evs1 = []).
  { eapply kinds_no_create; [|exact Hk1]. set_solver. }
  destruct (updateObjectReference E name _ st) as [[[infraMachine object]|e|p] st1];
    simpl in Hext1;
    try (exists evs1; split; [exact Hext1|rewrite Hc1; simpl; lia]).
  unfold bind at 1. unfold doCall. unfold bind at 1.
  set (created := (CreateObject object, api E (trace st1) (CreateObject object))).
  assert (Hafter : forall k : M unit,
            steps (runs (KGetObject :: updateMachineKinds)) k ->
            exists evs, extends st evs (snd (k (record created st1))) /\
              (length (createdObjects evs) <= 1)%nat).
  { intros k Hk.
    destruct (Hk (record created st1)) as [_ (evs3 & Hext3 & Hk3)].
    exists (evs1 ++ created :: evs3)%list. split.
    - unfold extends in *. rewrite Hext3. simpl. rewrite Hext1.
      rewrite <- !app_assoc. reflexivity.
    - rewrite createdObjects_app, Hc1. simpl.
      rewrite (kinds_no_create (KGetObject :: updateMachineKinds) evs3);
        [simpl; lia|unfold updateMachineKinds; set_solver|exact Hk3]. }
  assert (Hstop : exists evs, extends st evs (record created st1) /\
                    (length (createdObjects evs) <= 1)%nat).
  { exists (evs1 ++ [created])%list. split.
    - unfold extends in *. simpl. rewrite Hext1, <- app_assoc. reflexivity.
    - rewrite createdObjects_app, Hc1. simpl. lia. }
  destruct (reply_err (api E (trace st1) (CreateObject object))) as [e|]; simpl.
  - exact Hstop.
  - apply Hafter. steps_go.
Qed.

End Clones.

(** C2, evaluated: in the run on the concrete cluster the infrastructure
    clone is the only object submitted for creation; the bootstrap object
    is fetched, the new Machine refers to its clone by the new name, and no
    object of that kind is ever created. *)
Theorem Upgrade_never_creates_bootstrap_clone :
  let tr := trace (snd (ControlPlaneUpgrader_Upgrade Scenario.env Scenario.config
                          Scenario.start)) in
  map (fun obj => (uKind obj, uName obj)) (createdObjects tr)
    = [("AWSMachine", "controlplane-0-1562177821")]
  /\ (GetObject Scenario.bootstrapRef "default") ∈ map fst tr
  /\ exists m,
       CreateMachine m ∈ map fst tr /\
       specBootstrapConfigRef (mSpec m)
       = Some (mkRef "KubeadmConfig" "default" "controlplane-0-1562177821"
                 "bootstrap.cluster.x-k8s.io/v1alpha2" "").
Proof.
  split; [vm_compute; reflexivity|]. split.
  - apply list_elem_of_lookup. exists 12%nat. vm_compute. reflexivity.
  - eexists. split.
    + apply list_elem_of_lookup. exists 13%nat. vm_compute. reflexivity.
    + reflexivity.
Qed.

(** ** The node-ready predicate and its poll *)

Section Ready.
Context (E : Env).

Lemma after_nil st : after st [] = st.
Proof. destruct st. unfold after. simpl. rewrite app_nil_r. reflexivity. Qed.


Lemma record_after st ev : record ev st = after st [ev].
Proof. reflexivity. Qed.








End Ready.



(** The second iteration finds the pods healthy and the wait succeeds. *)
Example waitForNodeReady_survives_read_error :
  fst (isReady Scenario.flaky "ip-10-0-0-9" Scenario.start) = Ok false /\
  fst (waitForNodeReady Scenario.flaky (Some Scenario.newNode) 30 Scenario.start)
  = Ok tt /\
  map fst (trace (snd (waitForNodeReady Scenario.flaky (Some Scenario.newNode) 30
                         Scenario.start)))
  = GetPod "etcd-ip-10-0-0-9" :: podLookups "ip-10-0-0-9" components.
Proof. repeat split; vm_compute; reflexivity. Qed.

(** ** The rewrite of the kubeadm-config *)

(** C8: for a ConfigMap whose ClusterConfiguration value decodes as a YAML
    document, [updateKubeadmKubernetesVersion] returns a new ConfigMap whose
    ClusterConfiguration is the serialization of that document with the
    field [kubernetesVersion] set to the given version: every other field
    of the document, every other key of Data and the metadata are
    unchanged, and the original and its Data map are not written to.  The
    codec is the YAML library's: the document with the field replaced is
    assumed to serialize, and to read back as itself. *)
Theorem updateKubeadmKubernetesVersion_frame (E : Env) (original : InMemoryConfigMap)
    (version : string) (h : mapStore) (l : nat) (data : gmap string string)
    (text : string) (doc : gmap string Value) (text' : string) :
  cmData original = Some l ->
  h !! l = Some data ->
  data !! "ClusterConfiguration" = Some text ->
  yamlUnmarshal E text = Ok doc ->
  yamlMarshal E (<["kubernetesVersion" := VStr version]> doc) = Ok text' ->
  yamlUnmarshal E text' = Ok (<["kubernetesVersion" := VStr version]> doc) ->
  rewritesOnlyVersion E original version h l data doc text'.
Proof.
  intros Hdata Hl Htext Hdoc Hmarshal Hround.
  assert (Hlt : (l < length h)%nat) by (eapply lookup_lt_Some; exact Hl).
  assert (Hcopy : mapAt (h ++ [mapAt h l])%list (length h) = data).
  { unfold mapAt. rewrite list_lookup_middle by reflexivity. simpl.
    rewrite Hl. reflexivity. }
  unfold rewritesOnlyVersion, updateKubeadmKubernetesVersion, DeepCopy.
  rewrite Hdata. cbn [cmData mapIndex]. rewrite Hcopy, Htext. change (default "" (Some text)) with text.
  rewrite Hdoc, Hmarshal. cbn [mapAssign]. rewrite Hcopy.
  eexists _, _. split; [reflexivity|]. cbn [cmData cmName cmNamespace cmResourceVersion].
  assert (Hkeep : forall i, (i < length h)%nat ->
            <[length h := <["ClusterConfiguration" := text']> data]> (h ++ [mapAt h l])%list !! i
            = h !! i).
  { intros i Hi. rewrite list_lookup_insert_ne by lia.
    apply lookup_app_l. exact Hi. }
  assert (Hnew : <[length h := <["ClusterConfiguration" := text']> data]>
                   (h ++ [mapAt h l])%list !! length h
                 = Some (<["ClusterConfiguration" := text']> data)).
  { apply list_lookup_insert_eq. rewrite length_app. simpl. lia. }
  repeat split; try reflexivity.
  - lia.
  - exact Hkeep.
  - unfold encodeConfigMap. rewrite Hdata. unfold mapAt. rewrite Hkeep by exact Hlt.
    reflexivity.
  - exact Hnew.
  - intros k Hk. unfold mapAt at 1. rewrite Hnew. simpl.
    apply lookup_insert_ne. congruence.
  - exists (<["kubernetesVersion" := VStr version]> doc). repeat split.
    + exact Hround.
    + apply lookup_insert_eq.
    + intros k Hk. apply lookup_insert_ne. congruence.
Qed.

(** C8 on the kubeadm-config of the concrete cluster, rewritten from
    v1.13.7 to v1.14.3. *)
Lemma updateKubeadmKubernetesVersion_frame_witness :
  rewritesOnlyVersion Scenario.env
    (fst (decodeConfigMap Scenario.kubeadmConfig)) "v1.14.3"
    (snd (decodeConfigMap Scenario.kubeadmConfig)) 0
    (<["ClusterConfiguration" :=
         "clusterName: test1" ++ Scenario.newline ++ "kubernetesVersion: v1.13.7"
           ++ Scenario.newline]>
       (<["ClusterStatus" := "kind: ClusterStatus" ++ Scenario.newline]> ∅))
    (<["kubernetesVersion" := VStr "v1.13.7"]> (<["clusterName" := VStr "test1"]> ∅))
    ("clusterName: test1" ++ Scenario.newline ++ "kubernetesVersion: v1.14.3"
       ++ Scenario.newline).
Proof.
  apply (updateKubeadmKubernetesVersion_frame Scenario.env _ "v1.14.3" _ 0%nat _
           ("clusterName: test1" ++ Scenario.newline ++ "kubernetesVersion: v1.13.7"
              ++ Scenario.newline)).
  - reflexivity.
  - reflexivity.
  - vm_compute. reflexivity.
  - vm_compute. reflexivity.
  - vm_compute. reflexivity.
  - vm_compute. reflexivity.
Defined.

(** On the wire: what the orchestrator sends back differs from what it
    read in that one field of that one key. *)
Example kubeadmConfig_rewritten :
  let '(original, h) := decodeConfigMap Scenario.kubeadmConfig in
  let '(res, h') := updateKubeadmKubernetesVersion Scenario.env original "v1.14.3" h in
  match res with
  | Ok cm =>
      cmData (encodeConfigMap h' cm)
      = Some (<["ClusterConfiguration" :=
                  "clusterName: test1" ++ Scenario.newline
                    ++ "kubernetesVersion: v1.14.3" ++ Scenario.newline]>
                (<["ClusterStatus" := "kind: ClusterStatus" ++ Scenario.newline]> ∅))
      /\ encodeConfigMap h' original = Scenario.kubeadmConfig
  | _ => False
  end.
Proof. vm_compute. split; reflexivity. Qed.

(** ** Reading traces

    Lemmas on the events a computation adds to the trace, shared by the
    properties below. *)

Lemma extends_refl st : extends st [] st.
Proof. unfold extends. rewrite app_nil_r. reflexivity. Qed.

Lemma extends_record st evs st' ev :
  extends st evs st' -> extends st (evs ++ [ev]) (record ev st').
Proof. unfold extends, record. simpl. intros ->. rewrite app_assoc. reflexivity. Qed.

Lemma extends_trans st1 evs1 st2 evs2 st3 :
  extends st1 evs1 st2 -> extends st2 evs2 st3 -> extends st1 (evs1 ++ evs2) st3.
Proof. unfold extends. intros H1 H2. rewrite H2, H1, app_assoc. reflexivity. Qed.

Lemma extends_after st evs : extends st evs (after st evs).
Proof. reflexivity. Qed.

Lemma extends_inj st evs1 evs2 st' :
  extends st evs1 st' -> extends st evs2 st' -> evs1 = evs2.
Proof. unfold extends. intros H1 H2. rewrite H1 in H2. eapply app_inv_head, H2. Qed.

Lemma after_after st evs1 evs2 : after (after st evs1) evs2 = after st (evs1 ++ evs2).
Proof. unfold after. simpl. rewrite app_assoc. reflexivity. Qed.

(** The calls of a footprint are of its kinds, and of no other. *)
Lemma runs_events {A} (ks : list kind) (m : M A) st :
  steps (runs ks) m ->
  exists evs, extends st evs (snd (m st)) /\
    Forall (fun ev : event => kindOf (fst ev) ∈ ks) evs.
Proof. intros Hm. destruct (Hm st) as [_ Hevs]. exact Hevs. Qed.

Lemma kinds_lookup (ks : list kind) (evs : list event) i c r :
  Forall (fun ev => kindOf (fst ev) ∈ ks) evs ->
  evs !! i = Some (c, r) -> kindOf c ∈ ks.
Proof.
  intros Hall Hi. rewrite Forall_lookup in Hall. exact (Hall i (c, r) Hi).
Qed.

(** An answer that is read without error has the shape that was asked for. *)
Lemma reply_machine_None r m : reply_machine r = (m, None) -> r = RMachine m None.
Proof. destruct r; simpl; unfold malformed; congruence. Qed.

Lemma reply_nodes_None r nodes : reply_nodes r = (nodes, None) -> r = RNodes nodes None.
Proof. destruct r; simpl; unfold malformed; congruence. Qed.

Lemma reply_pods_None r pods : reply_pods r = (pods, None) -> r = RPods pods None.
Proof. destruct r; simpl; unfold malformed; congruence. Qed.

Lemma reply_configMap_None r cm :
  reply_configMap r = (cm, None) -> r = RConfigMap cm None.
Proof. destruct r; simpl; unfold malformed; congruence. Qed.

Lemma reply_exec_shape r out err :
  reply_exec r = (out, err, None) -> r = RExec out err None.
Proof. destruct r; simpl; unfold malformed; congruence. Qed.

Lemma reply_err_shape r : reply_err r = None -> r = RErr None.
Proof. destruct r; simpl; unfold malformed; congruence. Qed.

(** ** Polls *)

(** A poll that ends without error ends on a condition that answered true;
    [R] relates the states before and after the attempts that came first. *)
Lemma pollLoop_Ok {V} (R : state -> state -> Prop) n
    (condition : V -> M (bool * V)) v st v' st' :
  (forall s, R s s) ->
  (forall a b c, R a b -> R b c -> R a c) ->
  (forall v s, R s (snd (condition v s))) ->
  pollLoop n condition v st = (Ok v', st') ->
  exists v0 st0, R st st0 /\ condition v0 st0 = (Ok (true, v'), st').
Proof.
  intros Hrefl Htrans Hstep. revert v st.
  induction n as [|n IH]; intros v st H; simpl in H;
    apply bind_Ok in H as ([b v1] & st1 & Hc & H); simpl in H; destruct b.
  - apply ret_Ok in H as [-> ->]. exists v, st. split; [apply Hrefl|exact Hc].
  - discriminate.
  - apply ret_Ok in H as [-> ->]. exists v, st. split; [apply Hrefl|exact Hc].
  - apply IH in H as (v0 & st0 & HR & Hc0). exists v0, st0. split; [|exact Hc0].
    eapply Htrans; [|exact HR]. specialize (Hstep v st). rewrite Hc in Hstep.
    exact Hstep.
Qed.

(** The states a run reaches by calls that all satisfy [P]. *)
Lemma callsOnly_refl (P : event -> Prop) st :
  exists evs, st = after st evs /\ Forall P evs.
Proof. exists []. rewrite after_nil. split; [reflexivity|constructor]. Qed.

Lemma callsOnly_trans (P : event -> Prop) a b c :
  (exists evs, b = after a evs /\ Forall P evs) ->
  (exists evs, c = after b evs /\ Forall P evs) ->
  exists evs, c = after a evs /\ Forall P evs.
Proof.
  intros (evs1 & -> & H1) (evs2 & -> & H2). exists (evs1 ++ evs2)%list.
  rewrite after_after. split; [reflexivity|]. apply Forall_app. split; assumption.
Qed.

(** The trace of a state written out from [record]s. *)
Ltac extends_solve :=
  unfold extends, ret, fail, record, after; simpl; rewrite <- ?app_assoc; reflexivity.

(** ** More on the machine creator *)

Lemma firstHostname_spec addresses :
  (exists pre address post,
     addresses = (pre ++ address :: post)%list /\
     Forall (fun a => addrType a <> NodeHostName) pre /\
     addrType address = NodeHostName /\
     firstHostname addresses = addrAddress address) \/
  (Forall (fun a => addrType a <> NodeHostName) addresses /\
   firstHostname addresses = "").
Proof.
  induction addresses as [|a rest IH]; simpl.
  - right. split; [constructor|reflexivity].
  - destruct (String.eqb_spec (addrType a) NodeHostName) as [Heq|Hne].
    + left. exists [], a, rest. repeat split; [constructor|exact Heq].
    + destruct IH as [(pre & address & post & -> & Hpre & Htype & Hres)|[Hall Hres]].
      * left. exists (a :: pre), address, post.
        repeat split; [constructor; assumption|exact Htype|exact Hres].
      * right. split; [constructor; assumption|exact Hres].
Qed.

(** X1: [hostnameForNode] returns the address of the first entry of the
    node's address list whose type is [Hostname], whatever comes after it,
    and the empty string when the list has no entry of that type; it never
    returns an address of another type. *)
Theorem hostnameForNode_first_hostname (node : Node) :
  exists hostname,
    hostnameForNode (Some node) = Ok hostname /\
    ((exists pre address post,
        nAddresses node = (pre ++ address :: post)%list /\
        Forall (fun a => addrType a <> NodeHostName) pre /\
        addrType address = NodeHostName /\
        hostname = addrAddress address) \/
     (Forall (fun a => addrType a <> NodeHostName) (nAddresses node) /\
      hostname = "")).
Proof.
  exists (firstHostname (nAddresses node)). split; [reflexivity|].
  destruct (firstHostname_spec (nAddresses node))
    as [(pre & address & post & Hsplit & Hpre & Htype & Hres)|[Hall Hres]].
  - left. exists pre, address, post. repeat split; assumption.
  - right. split; assumption.
Qed.

(** X2: for a node that has no address of type [Hostname],
    [waitForNodeReady] fails at once with an error that names the node: it
    looks up no pod and does not wait, whatever the timeout. *)
Theorem waitForNodeReady_without_hostname (E : Env) (node : Node) (timeout : N)
    (st : state) :
  Forall (fun a => addrType a <> NodeHostName) (nAddresses node) ->
  waitForNodeReady E (Some node) timeout st =
  (Err (ErrorNew ("unable to find hostname for node " ++ nName node)), st).
Proof.
  intros Hnone.
  destruct (firstHostname_spec (nAddresses node))
    as [(pre & address & post & Hsplit & _ & Htype & _)|[_ Hres]].
  - rewrite Hsplit in Hnone. apply Forall_app in Hnone as [_ Hnone].
    apply Forall_cons in Hnone as [Hne _]. contradiction.
  - unfold waitForNodeReady, bind, lift, hostnameForNode. rewrite Hres. reflexivity.
Qed.

Lemma waitForNodeReady_without_hostname_witness :
  waitForNodeReady Scenario.env
    (Some (mkNode "ip-10-0-0-7" "aws:///us-east-1a/i-new7"
             [mkAddress "InternalIP" "10.0.0.7"; mkAddress "ExternalDNS" "n7.example"]))
    (15 * Minute) Scenario.start =
  (Err (ErrorNew "unable to find hostname for node ip-10-0-0-7"), Scenario.start).
Proof.
  apply (waitForNodeReady_without_hostname Scenario.env
           (mkNode "ip-10-0-0-7" "aws:///us-east-1a/i-new7"
              [mkAddress "InternalIP" "10.0.0.7"; mkAddress "ExternalDNS" "n7.example"])).
  repeat constructor; discriminate.
Defined.

Section CreatorResults.
Context (E : Env).

(** X3: when [waitForProviderID] returns without error, the id it returns
    is not empty and is the provider id of the Machine as the last call
    read it; every call of the wait is a read of that one Machine. *)
Theorem waitForProviderID_returns_read_id (ns name : string) (timeout : N)
    (st : state) (providerID : string) (st' : state) :
  waitForProviderID E ns name timeout st = (Ok providerID, st') ->
  providerID <> "" /\
  exists evs machine,
    st' = after st (evs ++ [(GetMachine ns name, RMachine machine None)]) /\
    specProviderID (mSpec machine) = Some providerID /\
    Forall (fun ev => fst ev = GetMachine ns name) evs.
Proof.
  intros H. unfold waitForProviderID, PollImmediate in H. apply wrapping_Ok in H.
  apply (pollLoop_Ok
           (fun s s' => exists evs, s' = after s evs /\
                          Forall (fun ev => fst ev = GetMachine ns name) evs)) in H.
  - destruct H as (v0 & st0 & (evs & -> & Hevs) & Hlast).
    apply bind_Ok in Hlast as (r & s1 & Hcall & Hlast).
    apply doCall_Ok in Hcall as [-> ->].
    destruct (reply_machine _) as [machine err] eqn:Hreply.
    apply bind_Ok in Hlast as ([] & s2 & Hcheck & Hlast).
    apply check_Ok in Hcheck as [-> ->].
    apply reply_machine_None in Hreply. simpl in Hreply.
    destruct (specProviderID (mSpec machine)) as [p|] eqn:Hp;
      [|apply ret_Ok in Hlast as [Hlast _]; discriminate].
    destruct (String.eqb_spec p "") as [Hempty|Hfull]; simpl in Hlast;
      apply ret_Ok in Hlast as [Hlast ->]; [discriminate|].
    injection Hlast as <-. split; [exact Hfull|].
    exists evs, machine. rewrite record_after, after_after, Hreply.
    repeat split; assumption.
  - apply callsOnly_refl.
  - apply callsOnly_trans.
  - intros v s. unfold bind, doCall. simpl.
    set (r := api E (trace s) (GetMachine ns name)).
    exists [(GetMachine ns name, r)].
    split; [|repeat constructor].
    destruct (reply_machine r) as [machine [e|]]; simpl; [reflexivity|].
    destruct (specProviderID (mSpec machine)) as [p|]; [|reflexivity].
    destruct (negb (String.eqb p "")); reflexivity.
Qed.

Lemma findMatchingNode_Ok providerID nodes matchingNode node :
  findMatchingNode E providerID nodes matchingNode = Ok (true, node) ->
  exists pre post nodeID,
    nodes = (pre ++ node :: post)%list /\
    NewProviderID E (nProviderID node) = Ok nodeID /\
    ProviderID_Equals providerID nodeID = true /\
    Forall (fun n => exists id, NewProviderID E (nProviderID n) = Ok id /\
                       ProviderID_Equals providerID id = false) pre.
Proof.
  induction nodes as [|n rest IH]; simpl; [discriminate|].
  destruct (NewProviderID E (nProviderID n)) as [nodeID|e|p] eqn:Hid; try discriminate.
  destruct (ProviderID_Equals providerID nodeID) eqn:Heq.
  - intros H. injection H as ->. exists [], rest, nodeID.
    repeat split; [exact Hid|exact Heq|constructor].
  - intros H. destruct (IH H) as (pre & post & id & -> & Hnode & Hmatch & Hpre).
    exists (n :: pre), post, id. repeat split; [exact Hnode|exact Hmatch|].
    constructor; [|exact Hpre]. exists nodeID. split; assumption.
Qed.

(** X4: when [waitForMatchingNode] returns without error, what it returns
    is a node, never nil: the first node of the last listing whose provider
    id equals the one waited for; the provider ids of the nodes listed
    before it all parsed and were different.  Every call of the wait is a
    listing of the nodes. *)
Theorem waitForMatchingNode_returns_first_match (rawProviderID : string)
    (timeout : N) (st : state) (result : option Node) (st' : state) :
  waitForMatchingNode E rawProviderID timeout st = (Ok result, st') ->
  exists providerID node nodeID pre post evs,
    NewProviderID E rawProviderID = Ok providerID /\
    result = Some node /\
    st' = after st (evs ++ [(ListNodes, RNodes (pre ++ node :: post) None)]) /\
    Forall (fun ev => fst ev = ListNodes) evs /\
    NewProviderID E (nProviderID node) = Ok nodeID /\
    ProviderID_Equals providerID nodeID = true /\
    Forall (fun n => exists id, NewProviderID E (nProviderID n) = Ok id /\
                       ProviderID_Equals providerID id = false) pre.
Proof.
  intros H. unfold waitForMatchingNode in H.
  apply bind_Ok in H as (providerID & s0 & Hpid & H). apply lift_Ok in Hpid as [Hpid ->].
  apply bind_Ok in H as (matchingNode & s1 & Hpoll & H). apply ret_Ok in H as [-> ->].
  apply wrapping_Ok in Hpoll. unfold PollImmediate in Hpoll.
  apply (pollLoop_Ok
           (fun s s' => exists evs, s' = after s evs /\
                          Forall (fun ev => fst ev = ListNodes) evs)) in Hpoll.
  - destruct Hpoll as (v0 & st0 & (evs & -> & Hevs) & Hlast).
    apply bind_Ok in Hlast as (r & s2 & Hcall & Hlast).
    apply doCall_Ok in Hcall as [-> ->].
    destruct (reply_nodes _) as [nodes err] eqn:Hreply.
    apply bind_Ok in Hlast as ([] & s3 & Hcheck & Hlast).
    apply check_Ok in Hcheck as [-> ->]. apply lift_Ok in Hlast as [Hfind ->].
    apply reply_nodes_None in Hreply.
    apply findMatchingNode_Ok in Hfind as (pre & post & nodeID & -> & Hid & Heq & Hpre).
    exists providerID, matchingNode, nodeID, pre, post, evs.
    rewrite record_after, after_after, Hreply. repeat split; assumption.
  - apply callsOnly_refl.
  - apply callsOnly_trans.
  - intros v s. unfold bind, doCall. simpl.
    set (r := api E (trace s) ListNodes).
    exists [(ListNodes, r)]. split; [|repeat constructor].
    destruct (reply_nodes r) as [nodes [e|]]; simpl; [reflexivity|].
    unfold lift. reflexivity.
Qed.

End CreatorResults.

Section NewMachineResults.
Context (E : Env).

(** X5: [NewMachine] sends at most one [Create], as its first call.  The
    Machine it sends has the new name, the namespace and the annotations of
    the source, no resource version and the desired version; when no image
    override is configured the rest of its spec is that of the source
    without the provider id, otherwise it is what [updateMachineSpecImage]
    made of that. *)
Theorem NewMachine_creates_once (n : MachineCreator) (namespace name : string)
    (source : Machine) (st : state) :
  exists evs,
    extends st evs (snd (NewMachine E n namespace name source st)) /\
    forall i created r,
      evs !! i = Some (CreateMachine created, r) ->
      i = 0%nat /\
      mName created = name /\
      mNamespace created = mNamespace source /\
      mResourceVersion created = "" /\
      mAnnotations created = mAnnotations source /\
      specVersion (mSpec created) = Some (VString (DesiredVersion (creatorOptions n))) /\
      exists spec,
        mSpec created = withVersion spec (VString (DesiredVersion (creatorOptions n))) /\
        (if negb (String.eqb (ImageField (creatorOptions n)) "")
            && negb (String.eqb (ImageID (creatorOptions n)) "")
         then (updateMachineSpecImage E (mSpec (clearedCopy name source))
                 (ImageField (creatorOptions n)) (ImageID (creatorOptions n)) = Ok spec)
         else (spec = mkMachineSpec (specVersion (mSpec source)) None
                        (specInfrastructureRef (mSpec source))
                        (specBootstrapConfigRef (mSpec source)))).
Proof.
  unfold NewMachine.
  set (image := negb (String.eqb (ImageField (creatorOptions n)) "")
                && negb (String.eqb (ImageID (creatorOptions n)) "")).
  set (v := VString (DesiredVersion (creatorOptions n))).
  set (cleared := clearedCopy name source).
  assert (Hspec : forall spec,
            (if image then lift (updateMachineSpecImage E (mSpec cleared)
                                   (ImageField (creatorOptions n))
                                   (ImageID (creatorOptions n)))
             else ret (mSpec cleared)) st = (Ok spec, st) ->
            if image
            then (updateMachineSpecImage E (mSpec cleared) (ImageField (creatorOptions n))
                    (ImageID (creatorOptions n)) = Ok spec)
            else (spec = mSpec cleared)).
  { intros spec. destruct image.
    - intros H. apply lift_Ok in H as [H _]. exact H.
    - intros H. apply ret_Ok in H as [H _]. exact H. }
  lazymatch goal with
  | |- context [snd (bind ?m ?k st)] => set (first := m) in *; set (rest := k)
  end.
  assert (Hst : snd (first st) = st).
  { subst first. destruct image; reflexivity. }
  unfold bind at 1.
  destruct (first st) as [[spec|e|p] st0] eqn:Hfirst; simpl in Hst; subst st0;
    try (exists []; split; [apply extends_refl|intros i created r Hi; discriminate]).
  specialize (Hspec spec eq_refl). subst rest. cbv beta.
  set (new := withSpec cleared (withVersion spec v)).
  unfold bind at 1. unfold doCall at 1.
  set (ev := (CreateMachine new, api E (trace st) (CreateMachine new))).
  match goal with
  | |- context [snd (?rest (record ev st))] =>
      destruct (runs_events [KGetMachine; KListNodes; KGetPod] rest (record ev st))
        as (evs' & Hext & Hkinds)
  end.
  { steps_go. }
  exists (ev :: evs'). split.
  - unfold extends in *. rewrite Hext. simpl. rewrite <- app_assoc. reflexivity.
  - intros [|i] created r Hi; simpl in Hi.
    + injection Hi as <- _. split; [reflexivity|]. repeat split.
      exists spec. split; [reflexivity|exact Hspec].
    + pose proof (kinds_lookup _ _ _ _ _ Hkinds Hi) as Hk. simpl in Hk.
      set_solver.
Qed.

(** X6: with its three waits on, as [NewMachineCreator] sets them,
    [NewMachine] never returns a nil node without an error: the node it
    returns has a non-empty hostname, and the call ends on a component
    check of that hostname that found all four pods ready. *)
Theorem NewMachine_returns_ready_node (n : MachineCreator) (namespace name : string)
    (source created : Machine) (result : option Node) (st st' : state) :
  shouldWaitForProviderID n = true ->
  shouldWaitForMatchingNode n = true ->
  shouldWaitForNodeReady n = true ->
  NewMachine E n namespace name source st = (Ok (created, result), st') ->
  exists node hostname st0,
    result = Some node /\
    hostnameForNode result = Ok hostname /\ hostname <> "" /\
    isReady E hostname st0 = (Ok true, st') /\
    mName created = name.
Proof.
  intros Hid Hnode Hready H. unfold NewMachine in H. rewrite Hid, Hnode, Hready in H.
  apply bind_Ok in H as (spec & s0 & _ & H).
  apply bind_Ok in H as (r & s1 & _ & H).
  apply bind_Ok in H as ([] & s2 & _ & H).
  apply bind_Ok in H as (providerID & s3 & _ & H).
  apply bind_Ok in H as (node & s4 & Hmatch & H).
  apply bind_Ok in H as ([] & s5 & Hwait & H).
  apply ret_Ok in H as [H ->]. injection H as -> ->.
  unfold waitForMatchingNode in Hmatch.
  apply bind_Ok in Hmatch as (pid & s6 & _ & Hmatch).
  apply bind_Ok in Hmatch as (matching & s7 & _ & Hmatch).
  apply ret_Ok in Hmatch as [-> ->].
  unfold waitForNodeReady in Hwait.
  apply bind_Ok in Hwait as (hostname & s8 & Hhost & Hwait).
  apply lift_Ok in Hhost as [Hhost ->].
  destruct (String.eqb_spec hostname "") as [Hempty|Hfull]; [discriminate|].
  apply wrapping_Ok in Hwait. unfold PollImmediate in Hwait.
  apply (pollLoop_Ok (fun _ _ => True)) in Hwait; try (intros; exact I).
  destruct Hwait as ([] & st0 & _ & Hlast).
  apply bind_Ok in Hlast as (ready & s9 & Hisready & Hlast).
  apply ret_Ok in Hlast as [Hlast ->]. injection Hlast as ->.
  exists matching, hostname, st0. repeat split; assumption.
Qed.

End NewMachineResults.

Lemma waitForProviderID_returns_read_id_witness :
  "aws:///us-east-1a/i-new0" <> "" /\
  exists evs machine,
    snd (waitForProviderID Cases.slow "default" "controlplane-0-1562177821"
           (15 * Minute) Scenario.start) =
    after Scenario.start
      (evs ++ [(GetMachine "default" "controlplane-0-1562177821",
                RMachine machine None)]) /\
    specProviderID (mSpec machine) = Some "aws:///us-east-1a/i-new0" /\
    Forall (fun ev => fst ev = GetMachine "default" "controlplane-0-1562177821") evs.
Proof.
  apply (waitForProviderID_returns_read_id Cases.slow "default"
           "controlplane-0-1562177821" (15 * Minute) Scenario.start).
  vm_compute. reflexivity.
Defined.

Lemma waitForMatchingNode_returns_first_match_witness :
  exists providerID node nodeID pre post evs,
    NewProviderID Cases.slow "aws:///us-east-1a/i-new0" = Ok providerID /\
    Some Scenario.newNode = Some node /\
    snd (waitForMatchingNode Cases.slow "aws:///us-east-1a/i-new0" (10 * Minute)
           Scenario.start) =
    after Scenario.start (evs ++ [(ListNodes, RNodes (pre ++ node :: post) None)]) /\
    Forall (fun ev => fst ev = ListNodes) evs /\
    NewProviderID Cases.slow (nProviderID node) = Ok nodeID /\
    ProviderID_Equals providerID nodeID = true /\
    Forall (fun n => exists id, NewProviderID Cases.slow (nProviderID n) = Ok id /\
                       ProviderID_Equals providerID id = false) pre.
Proof.
  apply (waitForMatchingNode_returns_first_match Cases.slow "aws:///us-east-1a/i-new0"
           (10 * Minute) Scenario.start).
  vm_compute. reflexivity.
Defined.

Lemma NewMachine_returns_ready_node_witness :
  exists node hostname st0,
    Some Scenario.newNode = Some node /\
    hostnameForNode (Some Scenario.newNode) = Ok hostname /\ hostname <> "" /\
    isReady Cases.slow hostname st0 =
      (Ok true,
       snd (NewMachine Cases.slow Cases.creator "default" "controlplane-0-1562177821"
              Scenario.machine0 Scenario.start)) /\
    mName (withSpec (clearedCopy "controlplane-0-1562177821" Scenario.machine0)
             (withVersion (mSpec (clearedCopy "controlplane-0-1562177821"
                                    Scenario.machine0)) "1.13.8"))
    = "controlplane-0-1562177821".
Proof.
  apply (NewMachine_returns_ready_node Cases.slow Cases.creator "default"
           "controlplane-0-1562177821" Scenario.machine0 _ _ Scenario.start _);
    vm_compute; reflexivity.
Defined.
(** ** A nil node needs a wait stage that is off *)

Section Stages.
Context (E : Env) (cfg : Config).


End Stages.



(** ** The kubelet ConfigMap and its RBAC *)

Section Kubelet.
Context (E : Env).

(** X7: [updateKubeletConfigMapIfNeeded] first reads the ConfigMap of the
    desired minor version and stops there without error when the read
    succeeds.  It creates a ConfigMap only as its third call, after that
    read answered not-found and a read of the ConfigMap of the previous
    minor version did not; what it creates is what the second read
    returned, under the desired name and without a resource version. *)
Theorem kubelet_configmap_copied_from_previous_minor (version : Version) (st : state) :
  let desired := kubeletConfigMapName (Major version) (Minor version) in
  let previous :=
    kubeletConfigMapName (Major version) (uint64_sub (Minor version) 1) in
  exists evs,
    extends st evs (snd (updateKubeletConfigMapIfNeeded E version st)) /\
    (exists r1 rest,
       evs = (GetConfigMap desired, r1) :: rest /\
       (snd (reply_configMap r1) = None ->
        rest = [] /\ fst (updateKubeletConfigMapIfNeeded E version st) = Ok tt)) /\
    forall i cm r,
      evs !! i = Some (CreateConfigMap cm, r) ->
      exists r1 r2 prev e2,
        evs = [(GetConfigMap desired, r1); (GetConfigMap previous, r2);
               (CreateConfigMap cm, r)] /\
        IsNotFound (snd (reply_configMap r1)) = true /\
        reply_configMap r2 = (prev, e2) /\ IsNotFound e2 = false /\
        cm = mkConfigMap desired (cmNamespace prev) "" (cmData prev).
Proof.
  intros desired previous.
  assert (Hok : snd (reply_configMap (api E (trace st) (GetConfigMap desired))) = None ->
                fst (updateKubeletConfigMapIfNeeded E version st) = Ok tt).
  { intros H. unfold updateKubeletConfigMapIfNeeded, getConfigMap, bind, doCall, ret.
    cbn [snd fst]. fold desired. rewrite H. reflexivity. }
  revert Hok. generalize (fst (updateKubeletConfigMapIfNeeded E version st)).
  intros result Hok.
  unfold updateKubeletConfigMapIfNeeded.
  fold desired. fold previous.
  unfold bind at 1. unfold getConfigMap at 1. unfold bind at 1. unfold doCall at 1.
  set (r1 := api E (trace st) (GetConfigMap desired)).
  set (st1 := record (GetConfigMap desired, r1) st).
  unfold ret at 1. cbv beta iota. cbn [snd fst].
  destruct (snd (reply_configMap r1)) as [err|] eqn:Herr1.
  2:{ exists [(GetConfigMap desired, r1)]. split; [subst st1; extends_solve|].
      split.
      - exists r1, []. split; [reflexivity|]. intros _. split; [reflexivity|].
        apply Hok, Herr1.
      - intros [|[|i]] cm r Hi; discriminate. }
  destruct (IsNotFound (Some err)) eqn:Hnf1; cbn [negb].
  2:{ exists [(GetConfigMap desired, r1)]. split; [subst st1; extends_solve|].
      split.
      - exists r1, []. split; [reflexivity|]. intros H; congruence.
      - intros [|[|i]] cm r Hi; discriminate. }
  unfold bind at 1. unfold getConfigMap at 1. unfold bind at 1. unfold doCall at 1.
  set (r2 := api E (trace st1) (GetConfigMap previous)).
  set (st2 := record (GetConfigMap previous, r2) st1).
  unfold ret at 1. cbv beta iota.
  destruct (reply_configMap r2) as [prev e2] eqn:Hr2.
  destruct (IsNotFound e2) eqn:Hnf2.
  { exists [(GetConfigMap desired, r1); (GetConfigMap previous, r2)]. split.
    - subst st2 st1. extends_solve.
    - split.
      + exists r1, [(GetConfigMap previous, r2)]. split; [reflexivity|].
        intros H; congruence.
      + intros [|[|[|i]]] cm r Hi; discriminate. }
  unfold bind at 1. unfold doCall at 1.
  set (cm := setObjectMeta prev desired "").
  set (r3 := api E (trace st2) (CreateConfigMap cm)).
  exists [(GetConfigMap desired, r1); (GetConfigMap previous, r2); (CreateConfigMap cm, r3)].
  split.
  - assert (Hext : extends st [(GetConfigMap desired, r1); (GetConfigMap previous, r2);
                               (CreateConfigMap cm, r3)]
                     (record (CreateConfigMap cm, r3) st2)).
    { subst st2 st1. extends_solve. }
    destruct (reply_err r3) as [e3|]; [|exact Hext].
    destruct (negb (IsAlreadyExists (Some e3))); exact Hext.
  - split.
    + exists r1, [(GetConfigMap previous, r2); (CreateConfigMap cm, r3)].
      split; [reflexivity|]. intros H; congruence.
    + intros [|[|[|[|i]]]] cm' r Hi; try discriminate.
      injection Hi as <- <-. exists r1, r2, prev, e2.
      rewrite Herr1. repeat split; assumption.
Qed.

Lemma ensureExists_trace get create onCreate onGet st :
  let r := api E (trace st) get in
  let st1 := record (get, r) st in
  if IsNotFound (reply_err r)
  then snd (ensureExists E get create onCreate onGet st)
       = record (create, api E (trace st1) create) st1
  else ensureExists E get create onCreate onGet st = (check onGet (reply_err r) st1).
Proof.
  intros r st1. unfold ensureExists, bind, doCall. fold r. fold st1.
  destruct (IsNotFound (reply_err r)); [|reflexivity].
  destruct (reply_err (api E (trace st1) create)) as [e|]; [|reflexivity].
  destruct (negb (IsAlreadyExists (Some e))); reflexivity.
Qed.

Lemma ensureExists_events get create onCreate onGet st :
  exists rg,
    (IsNotFound (reply_err rg) = false /\
     snd (ensureExists E get create onCreate onGet st) = after st [(get, rg)]) \/
    (IsNotFound (reply_err rg) = true /\
     exists rc, snd (ensureExists E get create onCreate onGet st)
                = after st [(get, rg); (create, rc)]).
Proof.
  pose proof (ensureExists_trace get create onCreate onGet st) as H. cbv zeta in H.
  exists (api E (trace st) get).
  destruct (IsNotFound (reply_err (api E (trace st) get))).
  - right. split; [reflexivity|]. eexists. rewrite H, !record_after, after_after.
    reflexivity.
  - left. split; [reflexivity|]. rewrite H.
    destruct (reply_err (api E (trace st) get)); reflexivity.
Qed.

(** X8: [updateKubeletRbacIfNeeded] creates a Role or a RoleBinding only
    right after the read of that same object answered not-found.  The Role
    it creates is [kubeadm:kubelet-config-MAJOR.MINOR] and grants [get] on
    the one ConfigMap [kubelet-config-MAJOR.MINOR], the name
    [updateKubeletConfigMapIfNeeded] uses; the RoleBinding has the same
    name and refers to that Role. *)
Theorem kubelet_rbac_created_only_when_missing (version : Version) (st : state) :
  let configMapName := kubeletConfigMapName (Major version) (Minor version) in
  let name := "kubeadm:" ++ configMapName in
  exists evs,
    extends st evs (snd (updateKubeletRbacIfNeeded E version st)) /\
    (forall i role r,
       evs !! i = Some (CreateRole role, r) ->
       role = mkRole "kube-system" name
                [mkRule ["get"] [""] ["configmaps"] [configMapName]] /\
       exists j rg,
         i = S j /\ evs !! j = Some (GetRole name, rg) /\
         IsNotFound (reply_err rg) = true) /\
    (forall i binding r,
       evs !! i = Some (CreateRoleBinding binding, r) ->
       rbName binding = name /\ rbNamespace binding = "kube-system" /\
       rbRoleRef binding = mkSubject "rbac.authorization.k8s.io" "Role" name /\
       exists j rg,
         i = S j /\ evs !! j = Some (GetRoleBinding name, rg) /\
         IsNotFound (reply_err rg) = true).
Proof.
  intros configMapName name. unfold updateKubeletRbacIfNeeded.
  set (majorMinor := N_to_string (Major version) ++ "." ++ N_to_string (Minor version)).
  change ("kubeadm:kubelet-config-" ++ majorMinor) with name.
  change (kubeletRole name majorMinor)
    with (mkRole "kube-system" name [mkRule ["get"] [""] ["configmaps"] [configMapName]]).
  set (role := mkRole "kube-system" name _).
  set (binding := kubeletRoleBinding name).
  match goal with
  | |- context [bind (ensureExists E ?g ?c ?oc ?og) (fun _ => ensureExists E ?g2 ?c2 ?oc2 ?og2)] =>
      set (first := ensureExists E g c oc og);
      set (second := ensureExists E g2 c2 oc2 og2)
  end.
  destruct (ensureExists_events (GetRole name) (CreateRole role)
              (fun err => Wrap err ("error creating role " ++ name))
              (fun err => Wrap err ("error determining if role " ++ name ++ " exists")) st)
    as (rg1 & Hfirst).
  fold first in Hfirst.
  assert (Hsecond : forall s, exists rg,
            (IsNotFound (reply_err rg) = false /\
             snd (second s) = after s [(GetRoleBinding name, rg)]) \/
            (IsNotFound (reply_err rg) = true /\
             exists rc, snd (second s)
                        = after s [(GetRoleBinding name, rg);
                                   (CreateRoleBinding binding, rc)])).
  { intros s. apply ensureExists_events. }
  unfold bind.
  destruct (first st) as [[[]|e|p] s1] eqn:Hrun; simpl in Hfirst.
  - destruct (Hsecond s1) as (rg2 & Hsnd).
    destruct Hfirst as [[Hnf1 ->]|[Hnf1 [rc1 ->]]];
      destruct Hsnd as [[Hnf2 ->]|[Hnf2 [rc2 ->]]];
      rewrite after_after; (eexists; split; [apply extends_after|]); split;
      intros i x r Hi;
      repeat (destruct i as [|i]; simpl in Hi; try discriminate);
      injection Hi as <- <-; repeat split; eexists _, _;
      (split; [reflexivity|]); (split; [reflexivity|assumption]).
  - destruct Hfirst as [[Hnf1 ->]|[Hnf1 [rc1 ->]]];
      (eexists; split; [apply extends_after|]); split;
      intros i x r Hi;
      repeat (destruct i as [|i]; simpl in Hi; try discriminate);
      injection Hi as <- <-; repeat split; eexists _, _;
      (split; [reflexivity|]); (split; [reflexivity|assumption]).
  - destruct Hfirst as [[Hnf1 ->]|[Hnf1 [rc1 ->]]];
      (eexists; split; [apply extends_after|]); split;
      intros i x r Hi;
      repeat (destruct i as [|i]; simpl in Hi; try discriminate);
      injection Hi as <- <-; repeat split; eexists _, _;
      (split; [reflexivity|]); (split; [reflexivity|assumption]).
Qed.

End Kubelet.

(** ** The etcd members *)

Section Etcd.
Context (E : Env).

(** A successful [etcdctl] is a listing that returned a pod and a command
    in that pod that returned no error, and nothing else. *)
Lemma etcdctl_Ok_iff args stdout stderr st st' :
  etcdctl E args st = (Ok (stdout, stderr), st') <->
  exists pod rest,
    st' = after st (etcdctlEvents pod rest args stdout stderr) /\
    answered E (trace st) (etcdctlEvents pod rest args stdout stderr).
Proof.
  unfold etcdctl, listEtcdPods, etcdctlForPod. split.
  - intros H.
    apply bind_Ok in H as (pods & s1 & Hlist & H).
    apply bind_Ok in Hlist as (r & s2 & Hcall & Hlist).
    apply doCall_Ok in Hcall as [-> ->].
    destruct (reply_pods _) as [items err] eqn:Hpods.
    apply bind_Ok in Hlist as ([] & s3 & Hcheck & Hlist).
    apply check_Ok in Hcheck as [-> ->]. apply ret_Ok in Hlist as [-> ->].
    apply reply_pods_None in Hpods.
    destruct items as [|pod rest]; [discriminate|].
    apply bind_Ok in H as (r & s4 & Hcall & H).
    apply doCall_Ok in Hcall as [-> ->].
    destruct (reply_exec _) as [[out err] e] eqn:Hexec.
    apply bind_Ok in H as ([] & s5 & Hcheck & H).
    apply check_Ok in Hcheck as [-> ->]. apply ret_Ok in H as [H ->].
    injection H as <- <-. apply reply_exec_shape in Hexec.
    exists pod, rest. unfold etcdctlEvents. split.
    + rewrite Hexec, Hpods, !record_after, after_after. reflexivity.
    + rewrite Hpods in Hexec. simpl in Hexec. simpl.
      repeat split; symmetry; assumption.
  - intros (pod & rest & -> & Hlist & Hexec & _). simpl in Hlist, Hexec.
    unfold bind, doCall, check, ret, fail. rewrite <- Hlist. simpl.
    rewrite <- Hexec. simpl.
    unfold record, after. simpl. rewrite <- app_assoc. reflexivity.
Qed.

(** X9: [etcdClusterHealthCheck] returns without error exactly when it
    made four calls that all succeeded: a listing of the etcd pods that
    returned at least one, the member list command in the first pod, whose
    output parses, a second listing that returned at least one pod, and in
    its first pod the health command for the client URLs of all members,
    joined by commas.  Only the error of the health command counts: what it
    printed is not looked at. *)
Theorem etcdClusterHealthCheck_passes_iff (timeout : N) (st st' : state) :
  etcdClusterHealthCheck E timeout st = (Ok tt, st') <->
  exists pod1 rest1 out1 err1 members pod2 rest2 out2 err2,
    let listing := etcdctlEvents pod1 rest1 ["member list -w json"] out1 err1 in
    let health :=
      etcdctlEvents pod2 rest2
        ["endpoint health --endpoints"; Join (concat (map ClientURLs members)) ","]
        out2 err2 in
    st' = after st (listing ++ health) /\
    answered E (trace st) (listing ++ health) /\
    jsonUnmarshalMembers E out1 = Ok members.
Proof.
  unfold etcdClusterHealthCheck, listEtcdMembers. split.
  - intros H.
    apply bind_Ok in H as (members & s1 & Hmembers & H).
    apply bind_Ok in Hmembers as ([out1 err1] & s2 & Hctl1 & Hmembers).
    apply wrapping_Ok in Hmembers. apply lift_Ok in Hmembers as [Hparse ->].
    apply bind_Ok in H as ([out2 err2] & s3 & Hctl2 & H).
    apply ret_Ok in H as [_ ->].
    apply etcdctl_Ok_iff in Hctl1 as (pod1 & rest1 & -> & Ha1 & Ha2 & _).
    apply etcdctl_Ok_iff in Hctl2 as (pod2 & rest2 & -> & Ha3 & Ha4 & _).
    exists pod1, rest1, out1, err1, members, pod2, rest2, out2, err2.
    cbv zeta. rewrite after_after. split; [reflexivity|]. split; [|exact Hparse].
    simpl in *. rewrite <- !app_assoc in *. simpl in *. repeat split; assumption.
  - intros (pod1 & rest1 & out1 & err1 & members & pod2 & rest2 & out2 & err2 & H).
    cbv zeta in H. destruct H as (-> & Hanswered & Hparse).
    destruct Hanswered as (Ha1 & Ha2 & Ha3 & Ha4 & _).
    assert (H1 : etcdctl E ["member list -w json"] st
                 = (Ok (out1, err1),
                    after st (etcdctlEvents pod1 rest1 ["member list -w json"] out1 err1))).
    { apply etcdctl_Ok_iff. exists pod1, rest1. split; [reflexivity|].
      simpl. repeat split; assumption. }
    unfold bind at 1. unfold bind at 1. rewrite H1. unfold wrapping, lift.
    cbn [fst]. rewrite Hparse.
    match goal with
    | |- bind (etcdctl E ?args) _ ?s = _ =>
        assert (H2 : etcdctl E args s
                     = (Ok (out2, err2), after s (etcdctlEvents pod2 rest2 args out2 err2)))
    end.
    { apply etcdctl_Ok_iff. exists pod2, rest2. split; [reflexivity|].
      simpl in *. rewrite <- !app_assoc in *. simpl in *. repeat split; assumption. }
    unfold bind. rewrite H2. rewrite after_after. reflexivity.
Qed.

Lemma recorded_members_lookup (members : list etcdMember) (name id : string) :
  fold_left (fun m member => <[Name member := FormatUint16 (ID member)]> m)
    members (∅ : gmap string string) !! name = Some id <->
  exists pre member post,
    members = (pre ++ member :: post)%list /\
    Name member = name /\ id = FormatUint16 (ID member) /\
    Forall (fun m => Name m <> name) post.
Proof.
  induction members as [|x l IH] using rev_ind.
  - simpl. rewrite lookup_empty. split; [discriminate|].
    intros (pre & member & post & H & _). destruct pre; discriminate.
  - rewrite fold_left_app. simpl.
    destruct (decide (Name x = name)) as [Heq|Hne].
    + rewrite Heq, lookup_insert. rewrite decide_True by reflexivity. split.
      * intros H. injection H as <-. exists l, x, []. repeat split; [exact Heq|constructor].
      * intros (pre & member & post & Hsplit & Hname & -> & Hpost).
        destruct post as [|y post _] using rev_ind.
        -- apply app_inj_tail in Hsplit as [_ <-]. reflexivity.
        -- change (pre ++ member :: post ++ [y])%list
             with (pre ++ (member :: post) ++ [y])%list in Hsplit.
           rewrite app_assoc in Hsplit. apply app_inj_tail in Hsplit as [_ <-].
           apply Forall_app in Hpost as [_ Hy]. apply Forall_cons in Hy as [Hy _].
           contradiction.
    + rewrite lookup_insert_ne by exact Hne. rewrite IH. split.
      * intros (pre & member & post & -> & Hname & -> & Hpost).
        exists pre, member, (post ++ [x])%list. rewrite <- app_assoc. simpl.
        repeat split; [exact Hname|]. apply Forall_app. split; [exact Hpost|].
        constructor; [exact Hne|constructor].
      * intros (pre & member & post & Hsplit & Hname & -> & Hpost).
        destruct post as [|y post _] using rev_ind.
        -- apply app_inj_tail in Hsplit as [_ <-]. contradiction.
        -- change (pre ++ member :: post ++ [y])%list
             with (pre ++ (member :: post) ++ [y])%list in Hsplit.
           rewrite app_assoc in Hsplit. apply app_inj_tail in Hsplit as [-> _].
           apply Forall_app in Hpost as [Hpost _].
           exists pre, member, post. repeat split; assumption.
Qed.

(** X10: a successful [oldNodeToEtcdMemberId] replaces the recorded map
    by one built from the member list alone: a name is mapped exactly when
    a member has it, to the id, in base 16, of the last member of the list
    with that name.  The desired version and the recorded nodes are left as
    they were; a failed call leaves the recorded map as it was too. *)
Theorem oldNodeToEtcdMemberId_records_last_member (timeout : N) (st : state) :
  match oldNodeToEtcdMemberId E timeout st with
  | (Ok _, st') =>
      exists pod rest out err members,
        trace st' = (trace st ++ etcdctlEvents pod rest ["member list -w json"] out err)%list /\
        jsonUnmarshalMembers E out = Ok members /\
        desiredVersion st' = desiredVersion st /\
        providerIDsToNodes st' = providerIDsToNodes st /\
        forall name id,
          oldNodeToEtcdMember st' !! name = Some id <->
          exists pre member post,
            members = (pre ++ member :: post)%list /\
            Name member = name /\ id = FormatUint16 (ID member) /\
            Forall (fun m => Name m <> name) post
  | (_, st') => oldNodeToEtcdMember st' = oldNodeToEtcdMember st
  end.
Proof.
  unfold oldNodeToEtcdMemberId, listEtcdMembers.
  assert (Hkeep : forall args, oldNodeToEtcdMember (snd (etcdctl E args st))
                               = oldNodeToEtcdMember st).
  { intros args. unfold etcdctl, listEtcdPods, etcdctlForPod, bind, doCall.
    destruct (reply_pods _) as [pods [e|]]; simpl; [reflexivity|].
    destruct pods as [|pod rest]; simpl; [reflexivity|].
    destruct (reply_exec _) as [[out err] [e|]]; reflexivity. }
  specialize (Hkeep ["member list -w json"]).
  unfold bind at 1. unfold bind at 1.
  destruct (etcdctl E ["member list -w json"] st) as [[[out err]|e|p] s1] eqn:Hctl;
    simpl in Hkeep; try exact Hkeep.
  unfold wrapping, lift. simpl.
  destruct (jsonUnmarshalMembers E out) as [members|e|p] eqn:Hparse; try exact Hkeep.
  apply etcdctl_Ok_iff in Hctl as (pod & rest & -> & _).
  exists pod, rest, out, err, members. unfold setOldNodeToEtcdMember. simpl.
  repeat split; try assumption; apply recorded_members_lookup.
Qed.

Lemma find_first {A} (f : A -> bool) l x :
  find f l = Some x ->
  exists pre post,
    l = (pre ++ x :: post)%list /\ f x = true /\ Forall (fun y => f y = false) pre.
Proof.
  induction l as [|a l IH]; simpl; [discriminate|].
  destruct (f a) eqn:Ha.
  - intros H. injection H as <-. exists [], l. repeat split; [exact Ha|constructor].
  - intros H. destruct (IH H) as (pre & post & -> & Hx & Hpre).
    exists (a :: pre), post. repeat split; [exact Hx|]. constructor; assumption.
Qed.

(** X11: [deleteEtcdMember] runs at most one command, and only after a
    listing of the etcd pods that succeeded: the command is [member remove]
    of the given member id, run in the first pod listed whose node name is
    the new node's.  When no listed pod is on that node it runs nothing. *)
Theorem deleteEtcdMember_runs_in_new_nodes_pod (timeout : N)
    (newNode etcdMemberId : string) (st : state) :
  exists evs,
    extends st evs (snd (deleteEtcdMember E timeout newNode etcdMemberId st)) /\
    forall i namespace name command r,
      evs !! i = Some (PodExec namespace name command, r) ->
      exists pre pod post,
        evs = [(ListPods "component=etcd", RPods (pre ++ pod :: post) None);
               (PodExec namespace name command, r)] /\
        pNodeName pod = newNode /\
        Forall (fun p => pNodeName p <> newNode) pre /\
        namespace = pNamespace pod /\ name = pName pod /\
        command = etcdctlCommand pod ["member"; "remove"; etcdMemberId].
Proof.
  unfold deleteEtcdMember, listEtcdPods.
  unfold bind at 1. unfold bind at 1. unfold doCall at 1.
  set (r1 := api E (trace st) (ListPods "component=etcd")).
  set (st1 := record (ListPods "component=etcd", r1) st).
  assert (Hone :
            exists evs, extends st evs st1 /\
              forall i namespace name command r,
                evs !! i = Some (PodExec namespace name command, r) ->
                exists pre pod post,
                  evs = [(ListPods "component=etcd", RPods (pre ++ pod :: post) None);
                         (PodExec namespace name command, r)] /\
                  pNodeName pod = newNode /\
                  Forall (fun p => pNodeName p <> newNode) pre /\
                  namespace = pNamespace pod /\ name = pName pod /\
                  command = etcdctlCommand pod ["member"; "remove"; etcdMemberId]).
  { exists [(ListPods "component=etcd", r1)].
    split; [subst st1; extends_solve|]. intros [|[|i]] ns nm cmd r Hi; discriminate. }
  destruct (reply_pods r1) as [pods err] eqn:Hpods.
  destruct err as [e|]; simpl; [exact Hone|].
  apply reply_pods_None in Hpods.
  destruct pods as [|p0 pods0] eqn:Hlist; [exact Hone|]. rewrite <- Hlist in Hpods |- *.
  destruct (find (fun p => String.eqb (pNodeName p) newNode) pods) as [pod|] eqn:Hfind;
    [|exact Hone].
  apply find_first in Hfind as (pre & post & Hsplit & Hnode & Hpre).
  apply String.eqb_eq in Hnode.
  unfold etcdctlForPod, bind, doCall.
  set (c := PodExec (pNamespace pod) (pName pod)
              (etcdctlCommand pod ["member"; "remove"; etcdMemberId])).
  set (r2 := api E (trace st1) c).
  exists [(ListPods "component=etcd", r1); (c, r2)]. split.
  - destruct (reply_exec r2) as [[out err] [e|]]; subst st1; extends_solve.
  - intros [|[|[|i]]] ns nm cmd r Hi; try discriminate.
    injection Hi as <- <- <- <-. exists pre, pod, post.
    rewrite Hpods, Hsplit. repeat split; [exact Hnode|].
    eapply Forall_impl; [exact Hpre|]. intros p Hp. simpl in Hp.
    apply String.eqb_neq. exact Hp.
Qed.

End Etcd.

(** ** The upload of the kubeadm-config *)

Section KubeadmUpload.
Context (E : Env).

(** X12: [updateAndUploadKubeadmKubernetesVersion] sends an [Update] only
    as its second call, after it read [kubeadm-config] without error and
    with a Data map.  What it uploads has the name, the namespace and the
    resource version that were read, and the Data that was read except for
    the key [ClusterConfiguration], whose value is the document decoded
    from the old value with [kubernetesVersion] set to the letter v
    followed by the desired version. *)
Theorem kubeadm_config_upload_changes_only_version (st : state) :
  exists evs,
    extends st evs (snd (updateAndUploadKubeadmKubernetesVersion E st)) /\
    forall i uploaded r,
      evs !! i = Some (UpdateConfigMap uploaded, r) ->
      exists cm data doc text,
        evs = [(GetConfigMap "kubeadm-config", RConfigMap cm None);
               (UpdateConfigMap uploaded, r)] /\
        cmData cm = Some data /\
        yamlUnmarshal E (default "" (data !! "ClusterConfiguration")) = Ok doc /\
        yamlMarshal E
          (<["kubernetesVersion" := VStr ("v" ++ VString (desiredVersion st))]> doc)
          = Ok text /\
        uploaded = mkConfigMap (cmName cm) (cmNamespace cm) (cmResourceVersion cm)
                     (Some (<["ClusterConfiguration" := text]> data)).
Proof.
  unfold updateAndUploadKubeadmKubernetesVersion.
  unfold bind at 1. unfold getConfigMap at 1. unfold bind at 1. unfold doCall at 1.
  set (r1 := api E (trace st) (GetConfigMap "kubeadm-config")).
  set (st1 := record (GetConfigMap "kubeadm-config", r1) st).
  unfold ret at 1. cbv beta iota.
  assert (Hone : exists evs, extends st evs st1 /\
            forall i uploaded r,
              evs !! i = Some (UpdateConfigMap uploaded, r) ->
              exists cm data doc text,
                evs = [(GetConfigMap "kubeadm-config", RConfigMap cm None);
                       (UpdateConfigMap uploaded, r)] /\
                cmData cm = Some data /\
                yamlUnmarshal E (default "" (data !! "ClusterConfiguration")) = Ok doc /\
                yamlMarshal E
                  (<["kubernetesVersion" := VStr ("v" ++ VString (desiredVersion st))]> doc)
                  = Ok text /\
                uploaded = mkConfigMap (cmName cm) (cmNamespace cm) (cmResourceVersion cm)
                             (Some (<["ClusterConfiguration" := text]> data))).
  { exists [(GetConfigMap "kubeadm-config", r1)].
    split; [subst st1; extends_solve|]. intros [|[|i]] uploaded r Hi; discriminate. }
  destruct (reply_configMap r1) as [cm err] eqn:Hr1. cbn [fst snd].
  destruct err as [e|]; [exact Hone|].
  apply reply_configMap_None in Hr1.
  unfold check at 1. unfold bind at 1. unfold ret at 1. unfold bind at 1.
  unfold getState at 1.
  change (desiredVersion st1) with (desiredVersion st).
  set (version := "v" ++ VString (desiredVersion st)).
  unfold decodeConfigMap.
  destruct (cmData cm) as [data|] eqn:Hdata.
  2:{ unfold updateKubeadmKubernetesVersion, DeepCopy. cbn [cmData mapIndex].
      destruct (yamlUnmarshal E "") as [doc|e|p]; try exact Hone.
      destruct (yamlMarshal E _) as [text|e|p]; exact Hone. }
  unfold updateKubeadmKubernetesVersion, DeepCopy. cbn [cmData mapIndex].
  change (mapAt ([data] ++ [mapAt [data] 0])%list (length [data])) with data.
  destruct (yamlUnmarshal E (default "" (data !! "ClusterConfiguration")))
    as [doc|e|p] eqn:Hdoc; try exact Hone.
  destruct (yamlMarshal E (<["kubernetesVersion" := VStr version]> doc))
    as [text|e|p] eqn:Htext; try exact Hone.
  cbn [mapAssign]. unfold bind at 1. unfold lift at 1.
  unfold bind at 1. unfold doCall at 1.
  set (uploaded := encodeConfigMap _ _).
  set (r2 := api E (trace st1) (UpdateConfigMap uploaded)).
  exists [(GetConfigMap "kubeadm-config", r1); (UpdateConfigMap uploaded, r2)]. split.
  - destruct (reply_err r2) as [e|]; subst st1; extends_solve.
  - intros [|[|[|i]]] uploaded' r Hi; try discriminate.
    injection Hi as <- <-. exists cm, data, doc, text.
    rewrite Hr1. repeat split; assumption.
Qed.

(** X13: given a ConfigMap whose Data map is nil,
    [updateKubeadmKubernetesVersion] decodes the empty string; when the
    codec accepts it, the function panics on the assignment to the nil map
    of the copy instead of returning: no ConfigMap and no error comes back,
    and the store is as it was. *)
Theorem updateKubeadmKubernetesVersion_nil_data (original : InMemoryConfigMap)
    (version : string) (h : mapStore) (doc : gmap string Value) (text : string) :
  cmData original = None ->
  yamlUnmarshal E "" = Ok doc ->
  yamlMarshal E (<["kubernetesVersion" := VStr version]> doc) = Ok text ->
  updateKubeadmKubernetesVersion E original version h = (Panic nilMapWrite, h).
Proof.
  intros Hdata Hdoc Htext. unfold updateKubeadmKubernetesVersion, DeepCopy.
  rewrite Hdata. cbn [mapIndex]. rewrite Hdata. cbn [mapIndex]. rewrite Hdoc, Htext.
  reflexivity.
Qed.

End KubeadmUpload.

Lemma updateKubeadmKubernetesVersion_nil_data_witness :
  updateKubeadmKubernetesVersion Scenario.env
    (mkConfigMap "kubeadm-config" "kube-system" "1312" None) "v1.13.8" []
  = (Panic nilMapWrite, []).
Proof.
  apply (updateKubeadmKubernetesVersion_nil_data Scenario.env
           (mkConfigMap "kubeadm-config" "kube-system" "1312" None) "v1.13.8" []
           ∅ ("kubernetesVersion: v1.13.8" ++ Scenario.newline)).
  - reflexivity.
  - vm_compute. reflexivity.
  - vm_compute. reflexivity.
Defined.

(** ** The steps of a successful run *)

Section Yields.
Context (E : Env) (cfg : Config).














End Yields.



(** ** The two upgraders as a whole *)

Section Emits.
Context (E : Env) (cfg : Config).

Lemma emits_bind {A B} (P : event -> Prop) (m : M A) (f : A -> M B) :
  emits P m -> (forall a, emits P (f a)) -> emits P (bind m f).
Proof.
  intros Hm Hf st. unfold bind. destruct (Hm st) as (evs1 & Hext1 & HP1).
  destruct (m st) as [[a|e|p] s1]; simpl in Hext1;
    try (exists evs1; split; assumption).
  destruct (Hf a s1) as (evs2 & Hext2 & HP2).
  exists (evs1 ++ evs2)%list. split; [eapply extends_trans; eassumption|].
  apply Forall_app. split; assumption.
Qed.

Lemma emits_runs {A} (P : event -> Prop) (ks : list kind) (m : M A) :
  steps (runs ks) m ->
  (forall c r, kindOf c ∈ ks -> P (c, r)) ->
  emits P m.
Proof.
  intros Hm HP st. destruct (runs_events ks m st Hm) as (evs & Hext & Hks).
  exists evs. split; [exact Hext|]. eapply Forall_impl; [exact Hks|].
  intros [c r] Hc. apply HP, Hc.
Qed.

Lemma emits_silent {A} (P : event -> Prop) (m : M A) :
  (forall st, trace (snd (m st)) = trace st) -> emits P m.
Proof.
  intros Hm st. exists []. split; [|constructor].
  unfold extends. rewrite Hm, app_nil_r. reflexivity.
Qed.

Lemma emits_bind_res {A B} (P : event -> Prop) (Q : A -> Prop) (m : M A)
    (f : A -> M B) :
  emits P m ->
  (forall st a st', m st = (Ok a, st') -> Q a) ->
  (forall a, Q a -> emits P (f a)) ->
  emits P (bind m f).
Proof.
  intros Hm HQ Hf st. unfold bind. destruct (Hm st) as (evs1 & Hext1 & HP1).
  destruct (m st) as [[a|e|p] s1] eqn:Hrun; simpl in Hext1;
    try (exists evs1; split; assumption).
  destruct (Hf a (HQ _ _ _ Hrun) s1) as (evs2 & Hext2 & HP2).
  exists (evs1 ++ evs2)%list. split; [eapply extends_trans; eassumption|].
  apply Forall_app. split; assumption.
Qed.

Lemma emits_wrapping {A} (P : event -> Prop) f (m : M A) :
  emits P m -> emits P (wrapping f m).
Proof.
  intros Hm st. unfold wrapping. destruct (Hm st) as (evs & Hext & HP).
  exists evs. split; [|exact HP]. destruct (m st) as [[a|e|p] s1]; exact Hext.
Qed.

Lemma emits_doCall (P : event -> Prop) c :
  (forall r, P (c, r)) -> emits P (doCall E c).
Proof.
  intros HP st. exists [(c, api E (trace st) c)]. split; [reflexivity|].
  repeat constructor. apply HP.
Qed.

Lemma emits_pollLoop {V} (P : event -> Prop) n (condition : V -> M (bool * V)) v :
  (forall v, emits P (condition v)) -> emits P (pollLoop n condition v).
Proof.
  intros Hc. revert v. induction n as [|n IH]; intros v; simpl;
    (apply emits_bind; [apply Hc|]); intros [[|] v']; simpl;
    try (apply emits_silent; reflexivity). apply IH.
Qed.

Lemma emits_PollImmediate {V} (P : event -> Prop) interval timeout
    (condition : V -> M (bool * V)) v :
  (forall v, emits P (condition v)) ->
  emits P (PollImmediate E interval timeout condition v).
Proof. intros Hc st. unfold PollImmediate. apply emits_pollLoop. exact Hc. Qed.

Lemma updateAndUpload_notKubelet :
  emits notKubelet (updateAndUploadKubeadmKubernetesVersion E).
Proof.
  unfold updateAndUploadKubeadmKubernetesVersion.
  apply emits_bind.
  { intros st. exists [(GetConfigMap "kubeadm-config",
                         api E (trace st) (GetConfigMap "kubeadm-config"))].
    split; [reflexivity|]. repeat constructor. }
  intros got. apply emits_bind; [apply emits_silent; intros st; destruct (snd got); reflexivity|].
  intros _. apply emits_bind; [apply emits_silent; reflexivity|].
  intros st0. destruct (decodeConfigMap (fst got)) as [original h].
  destruct (updateKubeadmKubernetesVersion E original _ h) as [res h'].
  apply emits_bind; [apply emits_silent; reflexivity|].
  intros updated. apply emits_bind.
  { intros st. eexists [(_, _)]. split; [reflexivity|]. repeat constructor. }
  intros r. apply emits_silent. intros st. destruct (reply_err r); reflexivity.
Qed.

Lemma afterKubelet_notKubelet machines :
  emits notKubelet
    (etcdClusterHealthCheck E (1 * Minute) ;;;
     UpdateProviderIDsToNodes E ;;;
     updateAndUploadKubeadmKubernetesVersion E ;;;
     updateCRDs E cfg machines).
Proof.
  apply emits_bind.
  { apply (emits_runs _ [KListPods; KExec]); [apply etcdClusterHealthCheck_runs|].
    intros c r Hc. destruct c; simpl in Hc; try exact I; set_solver. }
  intros _. apply emits_bind.
  { apply (emits_runs _ [KListNodes]); [apply UpdateProviderIDsToNodes_runs|].
    intros c r Hc. destruct c; simpl in Hc; try exact I; set_solver. }
  intros _. apply emits_bind; [apply updateAndUpload_notKubelet|].
  intros _. apply (emits_runs _ (KExec :: replacementKinds)); [apply updateCRDs_runs|].
  intros c r Hc. unfold replacementKinds, updateMachineKinds in Hc.
  destruct c; simpl in Hc; try exact I; set_solver.
Qed.

End Emits.

(** X15: when the desired version is not a minor-version upgrade of the
    lowest version of the control plane (a patch upgrade, a downgrade or a
    change of major version), [Upgrade] leaves the kubelet configuration
    alone: it creates no ConfigMap, reads and creates no Role and no
    RoleBinding, and the only ConfigMap it reads is [kubeadm-config]. *)
Theorem Upgrade_without_minor_change_skips_kubelet (E : Env) (cfg : Config)
    (st st1 : state) (machines : list Machine) (mn mx : Version) :
  machines <> [] ->
  listMachines E cfg st = (Ok machines, st1) ->
  minMaxControlPlaneVersions E machines = Ok (mn, mx) ->
  isMinorVersionUpgrade mn
    (if EQ (unsetVersion E) (userVersion cfg) then mx else desiredVersion st) = false ->
  exists evs,
    extends st evs (snd (ControlPlaneUpgrader_Upgrade E cfg st)) /\
    Forall notKubelet evs.
Proof.
  intros Hne Hlist Hmm Hminor.
  rewrite (Upgrade_unfold E cfg st machines st1 mn mx Hne Hlist Hmm).
  assert (Hfirst : exists evs1, extends st evs1 st1 /\ Forall notKubelet evs1 /\
                     desiredVersion st1 = desiredVersion st).
  { destruct (listMachines_runs E cfg st) as [Hv (evs1 & Hext & Hk)].
    rewrite Hlist in Hv, Hext. simpl in Hv, Hext. exists evs1.
    split; [exact Hext|]. split; [|exact Hv].
    eapply Forall_impl; [exact Hk|]. intros [c r] Hc.
    destruct c; simpl in Hc; try exact I; set_solver. }
  destruct Hfirst as (evs1 & Hext1 & HP1 & Hv).
  set (desired := if EQ (unsetVersion E) (userVersion cfg) then mx
                  else desiredVersion st) in *.
  set (st2 := mkState desired (oldNodeToEtcdMember st1) (providerIDsToNodes st1)
                (trace st1)).
  assert (Hset : (if EQ (unsetVersion E) (userVersion cfg) then setDesiredVersion mx
                  else ret tt) st1 = (Ok tt, st2)).
  { subst st2 desired. destruct (EQ (unsetVersion E) (userVersion cfg)).
    - reflexivity.
    - unfold ret. rewrite <- Hv. destruct st1; reflexivity. }
  unfold bind at 1. rewrite Hset.
  unfold afterVersions. unfold bind at 1. unfold getState at 1.
  change (desiredVersion st2) with desired. rewrite Hminor.
  unfold bind at 1. unfold ret at 1.
  destruct (afterKubelet_notKubelet E cfg machines st2) as (evs2 & Hext2 & HP2).
  exists (evs1 ++ evs2)%list. split.
  - unfold extends in *. rewrite Hext2. change (trace st2) with (trace st1).
    rewrite Hext1, app_assoc. reflexivity.
  - apply Forall_app. split; assumption.
Qed.

Lemma Upgrade_without_minor_change_skips_kubelet_witness :
  exists evs,
    extends Scenario.start evs
      (snd (ControlPlaneUpgrader_Upgrade Scenario.env Scenario.config Scenario.start)) /\
    Forall notKubelet evs.
Proof.
  apply (Upgrade_without_minor_change_skips_kubelet Scenario.env Scenario.config
           Scenario.start
           (snd (listMachines Scenario.env Scenario.config Scenario.start))
           [Scenario.machine0] (mkVersion 1 13 7 [] []) (mkVersion 1 13 7 [] []));
    [discriminate|vm_compute; reflexivity..].
Defined.

(** X16: with nothing to upgrade, both upgraders stop after their one
    listing call and change nothing.  [ControlPlaneUpgrader.Upgrade]
    returns the error [Found 0 control plane machines] when the listing is
    empty, and the wrapped listing error when the listing fails;
    [MachineDeploymentUpgrader.Upgrade] returns [Found 0 machine
    deployments], or the listing error, wrapped with the same text as for
    machines. *)
Theorem Upgrade_of_nothing (E : Env) (cfg : Config) (st : state) :
  let machines := ListMachines (clusterName cfg) (clusterNamespace cfg) in
  let deployments := ListMachineDeployments (clusterName cfg) (clusterNamespace cfg) in
  match reply_machines (api E (trace st) machines) with
  | (_, Some e) =>
      ControlPlaneUpgrader_Upgrade E cfg st =
      (Err (Wrap e "error listing machines"), after st [(machines, api E (trace st) machines)])
  | ([], None) =>
      ControlPlaneUpgrader_Upgrade E cfg st =
      (Err (ErrorNew "Found 0 control plane machines"),
       after st [(machines, api E (trace st) machines)])
  | (_ :: _, None) => True
  end /\
  match reply_machineDeployments (api E (trace st) deployments) with
  | (_, Some e) =>
      MachineDeploymentUpgrader_Upgrade E cfg st =
      (Err (Wrap e "error listing machines"),
       after st [(deployments, api E (trace st) deployments)])
  | ([], None) =>
      MachineDeploymentUpgrader_Upgrade E cfg st =
      (Err (ErrorNew "Found 0 machine deployments"),
       after st [(deployments, api E (trace st) deployments)])
  | (_ :: _, None) => True
  end.
Proof.
  intros machines deployments. split.
  - unfold ControlPlaneUpgrader_Upgrade, listMachines, bind, doCall. fold machines.
    destruct (reply_machines (api E (trace st) machines)) as [items [e|]]; simpl.
    + destruct items; reflexivity.
    + destruct items; [reflexivity|exact I].
  - unfold MachineDeploymentUpgrader_Upgrade, listMachineDeployments, bind, doCall.
    fold deployments.
    destruct (reply_machineDeployments (api E (trace st) deployments)) as [items [e|]];
      simpl.
    + destruct items; reflexivity.
    + destruct items; [reflexivity|exact I].
Qed.

(** ** The worker path *)

Section Workers.
Context (E : Env) (cfg : Config).

(** What a successful [updateMachineDeployment] has sent. *)
Lemma updateMachineDeployment_Ok machineDeployment st st' :
  updateMachineDeployment E cfg machineDeployment st = (Ok tt, st') ->
  exists updated,
    st' = after st [(PatchMachineDeployment updated machineDeployment, RErr None)] /\
    mdName updated = mdName machineDeployment /\
    mdNamespace updated = mdNamespace machineDeployment /\
    annotationLookup (mdTemplateAnnotations updated) UpgradeIDAnnotationKey
      = Some (upgradeID cfg) /\
    (forall k, k <> UpgradeIDAnnotationKey ->
       annotationLookup (mdTemplateAnnotations updated) k
       = annotationLookup (mdTemplateAnnotations machineDeployment) k) /\
    (if negb (String.eqb (imageField cfg) "") && negb (String.eqb (imageID cfg) "")
     then (updateMachineSpecImage E
             (withVersion (mdTemplateSpec machineDeployment)
                (VString (desiredVersion st)))
             (imageField cfg) (imageID cfg) = Ok (mdTemplateSpec updated))
     else (mdTemplateSpec updated
           = withVersion (mdTemplateSpec machineDeployment)
               (VString (desiredVersion st)))).
Proof.
  unfold updateMachineDeployment. intros H.
  apply bind_Ok in H as (st0 & s1 & Hget & H). apply getState_Ok in Hget as [-> ->].
  apply bind_Ok in H as (spec & s2 & Hspec & H).
  apply bind_Ok in H as (r & s3 & Hcall & H). apply doCall_Ok in Hcall as [-> ->].
  apply check_Ok in H as [Herr ->]. apply reply_err_shape in Herr.
  assert (s2 = st) as ->.
  { destruct (_ && _); [apply lift_Ok in Hspec as [_ ->]|apply ret_Ok in Hspec as [_ ->]];
      reflexivity. }
  eexists. rewrite record_after, Herr. split; [reflexivity|].
  cbn [mdName mdNamespace mdTemplateAnnotations mdTemplateSpec].
  split; [reflexivity|]. split; [reflexivity|]. split; [|split].
  - unfold annotate, annotationLookup. apply lookup_insert_eq.
  - intros k Hk. unfold annotate, annotationLookup.
    rewrite lookup_insert_ne by congruence.
    destruct (mdTemplateAnnotations machineDeployment); [reflexivity|apply lookup_empty].
  - destruct (_ && _).
    + apply lift_Ok in Hspec as [Hspec _]. exact Hspec.
    + apply ret_Ok in Hspec as [-> _]. reflexivity.
Qed.

(** X17: when [upgradeMachineDeployments] returns without error it has
    made exactly one call for each MachineDeployment whose template does
    not carry the upgrade id, in the order of the list, and no other call:
    a [Patch] of that deployment, as it was listed, that succeeded.  The
    patched copy keeps the name, the namespace and every other template
    annotation, carries the upgrade id (so that a second run skips it) and
    has the template spec with the desired version set, passed through
    [updateMachineSpecImage] when an image override is configured. *)
Theorem upgradeMachineDeployments_patches_each_once
    (items : list MachineDeployment) (st st' : state) :
  upgradeMachineDeployments E cfg items st = (Ok tt, st') ->
  exists evs,
    st' = after st evs /\
    Forall2
      (fun machineDeployment ev =>
         exists updated,
           ev = (PatchMachineDeployment updated machineDeployment, RErr None) /\
           mdName updated = mdName machineDeployment /\
           mdNamespace updated = mdNamespace machineDeployment /\
           unpatched cfg updated = false /\
           (forall k, k <> UpgradeIDAnnotationKey ->
              annotationLookup (mdTemplateAnnotations updated) k
              = annotationLookup (mdTemplateAnnotations machineDeployment) k) /\
           (if negb (String.eqb (imageField cfg) "")
               && negb (String.eqb (imageID cfg) "")
            then (updateMachineSpecImage E
                    (withVersion (mdTemplateSpec machineDeployment)
                       (VString (desiredVersion st)))
                    (imageField cfg) (imageID cfg) = Ok (mdTemplateSpec updated))
            else (mdTemplateSpec updated
                  = withVersion (mdTemplateSpec machineDeployment)
                      (VString (desiredVersion st)))))
      (List.filter (unpatched cfg) items) evs.
Proof.
  revert st. induction items as [|machineDeployment rest IH]; intros st H; simpl in H.
  - apply ret_Ok in H as [_ ->]. exists []. rewrite after_nil.
    split; [reflexivity|constructor].
  - simpl. destruct (unpatched cfg machineDeployment) eqn:Hun; unfold unpatched in Hun.
    2:{ apply negb_false_iff in Hun. rewrite Hun in H. exact (IH st H). }
    apply negb_true_iff in Hun. rewrite Hun in H.
    apply bind_Ok in H as ([] & s1 & Hone & H).
    apply updateMachineDeployment_Ok in Hone
      as (updated & -> & Hname & Hns & Hid & Hother & Hspec).
    destruct (IH _ H) as (evs & -> & Hall).
    exists ((PatchMachineDeployment updated machineDeployment, RErr None) :: evs).
    rewrite after_after. split; [reflexivity|]. constructor; [|exact Hall].
    exists updated. repeat split; try assumption.
    unfold unpatched. rewrite (hasUpgradeID_lookup _ _ Hid). reflexivity.
Qed.

End Workers.

Lemma upgradeMachineDeployments_patches_each_once_witness :
  exists evs,
    snd (upgradeMachineDeployments Scenario.env Scenario.config
           [Scenario.doneDeployment;
            mkMachineDeployment "workers-b" "default"
              (Some (<["team" := "storage"]> ∅))
              (mkMachineSpec (Some "1.13.7") None Scenario.infraRef
                 (Some Scenario.bootstrapRef))]
           Scenario.start) = after Scenario.start evs /\
    Forall2
      (fun machineDeployment ev =>
         exists updated,
           ev = (PatchMachineDeployment updated machineDeployment, RErr None) /\
           mdName updated = mdName machineDeployment /\
           mdNamespace updated = mdNamespace machineDeployment /\
           unpatched Scenario.config updated = false /\
           (forall k, k <> UpgradeIDAnnotationKey ->
              annotationLookup (mdTemplateAnnotations updated) k
              = annotationLookup (mdTemplateAnnotations machineDeployment) k) /\
           (if negb (String.eqb (imageField Scenario.config) "")
               && negb (String.eqb (imageID Scenario.config) "")
            then (updateMachineSpecImage Scenario.env
                    (withVersion (mdTemplateSpec machineDeployment)
                       (VString (desiredVersion Scenario.start)))
                    (imageField Scenario.config) (imageID Scenario.config)
                  = Ok (mdTemplateSpec updated))
            else (mdTemplateSpec updated
                  = withVersion (mdTemplateSpec machineDeployment)
                      (VString (desiredVersion Scenario.start)))))
      (List.filter (unpatched Scenario.config)
         [Scenario.doneDeployment;
          mkMachineDeployment "workers-b" "default"
            (Some (<["team" := "storage"]> ∅))
            (mkMachineSpec (Some "1.13.7") None Scenario.infraRef
               (Some Scenario.bootstrapRef))])
      evs.
Proof.
  apply (upgradeMachineDeployments_patches_each_once Scenario.env Scenario.config).
  vm_compute. reflexivity.
Defined.

(** ** Outcomes of the version scan, and of retrying *)

Section VersionScan.
Context (E : Env).


(** What the [%q] of the message does to a version that holds a double
    quote and a backslash: both are escaped. *)
Example quoted_escapes :
  quoted ("1.0" ++ String dquote (String backslash "x")) =
  String dquote
    ("1.0" ++ String backslash (String dquote (String backslash (String backslash
       ("x" ++ String dquote EmptyString))))).
Proof. vm_compute. reflexivity. Qed.


End VersionScan.

Lemma int64_small z : (- 2 ^ 63 <= z < 2 ^ 63)%Z -> int64 z = z.
Proof.
  intros Hz. unfold int64. rewrite Z.mod_small by lia. lia.
Qed.

Lemma retryLoop_attempts fuel node fn :
  forall count st,
    (- 2 ^ 63 < count < 2 ^ 63)%Z ->
    (Z.to_nat (count - 1) <= fuel)%nat ->
    retryLoop fuel node count fn st = attempts (Z.to_nat (count - 1)) node fn st.
Proof.
  induction fuel as [|fuel IH]; intros count st Hcount Hfuel.
  - assert (Hz : Z.to_nat (count - 1) = 0%nat) by lia. rewrite Hz. simpl.
    destruct (fn node st) as [[[]|err|p] st']; try reflexivity.
    rewrite int64_small by lia.
    destruct (Z.ltb_spec 0 (count - 1)); [lia|reflexivity].
  - simpl. destruct (Z.to_nat (count - 1)) as [|more] eqn:Hmore; simpl;
      destruct (fn node st) as [[[]|err|p] st']; try reflexivity;
      rewrite int64_small by lia.
    + destruct (Z.ltb_spec 0 (count - 1)); [lia|reflexivity].
    + destruct (Z.ltb_spec 0 (count - 1)); [|lia].
      rewrite IH by lia. replace (Z.to_nat (count - 1 - 1)) with more by lia.
      reflexivity.
Qed.

Lemma attempts_once node fn st : attempts 0 node fn st = fn node st.
Proof. simpl. destruct (fn node st) as [[[]|err|p] st']; reflexivity. Qed.

(** X19: for a count that is a Go [int] above the least one, [retry]
    makes one attempt and, while the attempt fails, up to [count - 1]
    further ones, and returns what the last attempt made returned; it stops
    at the first attempt that does not fail.  A count of one, of zero or
    below zero gives exactly one attempt. *)
Theorem retry_makes_count_attempts (node : option Node) (count : Z) (interval : N)
    (fn : option Node -> M unit) (st : state) :
  (- 2 ^ 63 < count < 2 ^ 63)%Z ->
  retry node count interval fn st = attempts (Z.to_nat (count - 1)) node fn st /\
  ((count <= 1)%Z -> retry node count interval fn st = fn node st).
Proof.
  intros Hcount.
  assert (Hmain : retry node count interval fn st
                  = attempts (Z.to_nat (count - 1)) node fn st).
  { unfold retry. apply retryLoop_attempts; [exact Hcount|].
    rewrite int64_small by lia. lia. }
  split; [exact Hmain|].
  intros Hle. rewrite Hmain. replace (Z.to_nat (count - 1)) with 0%nat by lia.
  apply attempts_once.
Qed.

Lemma retry_makes_count_attempts_witness :
  retry (Some Scenario.newNode) 3 (5 * Second)
    (fun node => waitForNodeReady Scenario.flaky node 1) Scenario.start
  = attempts (Z.to_nat (3 - 1)) (Some Scenario.newNode)
      (fun node => waitForNodeReady Scenario.flaky node 1) Scenario.start /\
  ((3 <= 1)%Z ->
   retry (Some Scenario.newNode) 3 (5 * Second)
     (fun node => waitForNodeReady Scenario.flaky node 1) Scenario.start
   = waitForNodeReady Scenario.flaky (Some Scenario.newNode) 1 Scenario.start).
Proof.
  apply (retry_makes_count_attempts (Some Scenario.newNode) 3 (5 * Second)
           (fun node => waitForNodeReady Scenario.flaky node 1) Scenario.start).
  lia.
Defined.

(** ** Names and targets of a replacement *)

Lemma SplitAux_length sep s cur :
  length (SplitAux sep s cur) = S (occurrences sep s).
Proof.
  revert cur. induction s as [|a rest IH]; intros cur; simpl; [reflexivity|].
  destruct (Ascii.eqb a sep); simpl; rewrite IH; reflexivity.
Qed.

Section Names.
Context (E : Env) (cfg : Config).

(** A tactic for the calls of kinds that the predicate at hand lets pass. *)
Ltac by_kind :=
  let c := fresh "c" in
  let r := fresh "r" in
  let Hc := fresh "Hc" in
  intros c r Hc; destruct c; simpl in Hc; try exact I; set_solver.

Lemma NewMachine_named n namespace name source :
  emits (namedBy name) (NewMachine E n namespace name source).
Proof.
  unfold NewMachine.
  apply emits_bind.
  { apply emits_silent. intros st. destruct (_ && _); reflexivity. }
  intros spec. apply emits_bind; [apply emits_doCall; intros r; reflexivity|].
  intros r. apply emits_bind.
  { apply emits_silent. intros st. destruct (reply_err r); reflexivity. }
  intros _.
  destruct (shouldWaitForProviderID n); [|apply emits_silent; reflexivity].
  apply emits_bind.
  { unfold waitForProviderID. apply emits_wrapping. apply emits_PollImmediate. intros v.
    apply emits_bind; [apply emits_doCall; intros r'; reflexivity|].
    intros r'. destruct (reply_machine r') as [machine err].
    apply emits_bind.
    { apply emits_silent. intros st. destruct err; reflexivity. }
    intros _. apply emits_silent. intros st.
    destruct (specProviderID (mSpec machine)) as [p|]; [|reflexivity].
    destruct (negb (String.eqb p "")); reflexivity. }
  intros providerID.
  destruct (shouldWaitForMatchingNode n); [|apply emits_silent; reflexivity].
  apply emits_bind.
  { apply (emits_runs _ [KListNodes]); [apply waitForMatchingNode_runs|by_kind]. }
  intros node.
  destruct (shouldWaitForNodeReady n); [|apply emits_silent; reflexivity].
  apply emits_bind; [|intros; apply emits_silent; reflexivity].
  apply (emits_runs _ [KGetPod]); [apply waitForNodeReady_runs|by_kind].
Qed.

Lemma NewMachine_Ok_name n namespace name source st created st' :
  NewMachine E n namespace name source st = (Ok created, st') ->
  mName (fst created) = name.
Proof.
  unfold NewMachine. intros H.
  apply bind_Ok in H as (spec & s0 & _ & H).
  apply bind_Ok in H as (r & s1 & _ & H).
  apply bind_Ok in H as ([] & s2 & _ & H).
  destruct (shouldWaitForProviderID n); [|apply ret_Ok in H as [-> _]; reflexivity].
  apply bind_Ok in H as (providerID & s3 & _ & H).
  destruct (shouldWaitForMatchingNode n); [|apply ret_Ok in H as [-> _]; reflexivity].
  apply bind_Ok in H as (node & s4 & _ & H).
  destruct (shouldWaitForNodeReady n); [|apply ret_Ok in H as [-> _]; reflexivity].
  apply bind_Ok in H as ([] & s5 & _ & H).
  apply ret_Ok in H as [-> _]. reflexivity.
Qed.

(** The calls of [updateMachine] after [NewMachine], as far as a predicate
    [P] on events goes that lets the reads and the member removal pass. *)
Lemma teardown_emits (P : event -> Prop) machine oldHostName created :
  (forall c r, kindOf c ∈ [KListNodes; KListPods; KMemberRemove] -> P (c, r)) ->
  (forall r, P (DeleteMachine machine, r)) ->
  (forall r,
     P (PatchMachine
          (mkMachine (mName (fst created)) (mNamespace (fst created))
             (mResourceVersion (fst created))
             (annotate (mAnnotations (fst created)) UpgradeIDAnnotationKey
                (upgradeID cfg))
             (mSpec (fst created)))
          (fst created), r)) ->
  emits P (afterNewMachine E cfg machine oldHostName created).
Proof.
  intros Hreads Hdelete Hpatch. unfold afterNewMachine.
  destruct created as [newMachine node]. simpl in Hpatch.
  apply emits_bind; [apply emits_silent; reflexivity|].
  intros nodeHostname. apply emits_bind.
  { apply (emits_runs _ [KListNodes]); [apply UpdateProviderIDsToNodes_runs|].
    intros c r Hc. apply Hreads. set_solver. }
  intros _. apply emits_bind; [apply emits_silent; reflexivity|].
  intros st1. apply emits_bind.
  { apply emits_wrapping.
    apply (emits_runs _ [KListPods; KMemberRemove]); [apply deleteEtcdMember_runs|].
    intros c r Hc. apply Hreads. set_solver. }
  intros _. apply emits_bind.
  { unfold deleteMachine. apply emits_bind; [apply emits_doCall, Hdelete|].
    intros r. apply emits_silent. intros st.
    destruct (WithStack (reply_err r)); reflexivity. }
  intros _. unfold applyAnnotation.
  apply emits_bind; [apply emits_doCall, Hpatch|].
  intros r. apply emits_silent. reflexivity.
Qed.

Lemma updateMachine_as_afterNewMachine name machine creator :
  forall st,
    (exists oldHostName,
       updateMachine E cfg name machine creator st =
       bind (NewMachine E creator (clusterNamespace cfg) name machine)
         (afterNewMachine E cfg machine oldHostName) st) \/
    trace (snd (updateMachine E cfg name machine creator st)) = trace st.
Proof.
  intros st.
  destruct (specProviderID (mSpec machine)) as [raw|] eqn:Hraw.
  2:{ right. unfold updateMachine. rewrite Hraw. reflexivity. }
  destruct (NewProviderID E raw) as [providerID|e|p] eqn:Hpid;
    try (right; unfold updateMachine, bind, lift; rewrite Hraw, Hpid; reflexivity).
  destruct (GetNodeFromProviderID st (pidID providerID)) as [oldNode|] eqn:Hold.
  2:{ right. unfold updateMachine, bind, lift, getState. rewrite Hraw, Hpid, Hold.
      reflexivity. }
  left. exists (firstHostname (nAddresses oldNode)).
  exact (updateMachine_unfold E cfg name machine creator raw providerID oldNode st
           Hraw Hpid Hold).
Qed.

Lemma updateMachine_named name machine creator :
  emits (namedBy name) (updateMachine E cfg name machine creator).
Proof.
  intros st.
  destruct (updateMachine_as_afterNewMachine name machine creator st)
    as [[oldHostName ->]|Hsilent].
  2:{ exists []. split; [|constructor]. unfold extends. rewrite Hsilent, app_nil_r.
      reflexivity. }
  revert st.
  apply (emits_bind_res _ (fun created => mName (fst created) = name));
    [apply NewMachine_named| |].
  - intros st created st'. apply NewMachine_Ok_name.
  - intros created Hname. apply teardown_emits.
    + by_kind.
    + intros r. exact I.
    + intros r. split; [exact Hname|exact Hname].
Qed.

(** X20: [strings.Split] of a machine name at its hyphens gives one part
    more than the name has hyphens, so a name without a hyphen is refused
    by the replacement with the format error, before any call.  Otherwise
    every object of the replacement goes by the new name made of the first
    two parts of the old name and the time of the clock in seconds: the
    clone of the infrastructure object, the Machine created and read back,
    and the Machine patched at the end; further parts of the old name are
    dropped. *)
Theorem replaceMachine_names_by_first_two_parts (creator : MachineCreator)
    (machine : Machine) (st : state) :
  length (Split (mName machine) "-") = S (occurrences "-" (mName machine)) /\
  match Split (mName machine) "-" with
  | part0 :: part1 :: _ =>
      exists evs,
        extends st evs (snd (replaceMachine E cfg creator machine st)) /\
        Forall (namedBy (part0 ++ "-" ++ part1 ++ "-"
                           ++ Z_to_string (nowUnix E (trace st)))) evs
  | _ =>
      replaceMachine E cfg creator machine st =
      (Err (ErrorNew ("machine name " ++ quoted (mName machine)
                        ++ " does not match expected format <name>-<index> or <name>-<index>-<timestamp>")),
       st)
  end.
Proof.
  split; [apply SplitAux_length|].
  unfold replaceMachine.
  destruct (Split (mName machine) "-") as [|part0 [|part1 parts]]; try reflexivity.
  unfold bind at 1. unfold getState at 1.
  set (name := part0 ++ "-" ++ part1 ++ "-" ++ Z_to_string (nowUnix E (trace st))).
  clearbody name.
  match goal with
  | |- exists evs, extends st evs (snd (?m st)) /\ _ =>
      revert st; change (emits (namedBy name) m)
  end.
  apply (emits_bind_res _ (fun cloned => uName (snd cloned) = name)).
  - apply (emits_runs _ [KGetObject]); [apply updateObjectReference_runs|by_kind].
  - intros st [newRef object] st' H.
    apply (updateObjectReference_clone E) in H. simpl. tauto.
  - intros [infraMachine object] Hname. simpl in Hname.
    apply emits_bind; [apply emits_doCall; intros r; exact Hname|].
    intros r. apply emits_bind.
    { apply emits_silent. intros st. destruct (reply_err r); reflexivity. }
    intros _. cbv zeta. apply emits_bind.
    { apply (emits_runs _ [KGetObject]); [apply updateObjectReference_runs|by_kind]. }
    intros [bootstrap object0]. apply updateMachine_named.
Qed.

End Names.

(** ** What an upgrade deletes, and when it starts to change the cluster *)

Section Targets.
Context (E : Env) (cfg : Config).

Ltac by_kind :=
  let c := fresh "c" in
  let r := fresh "r" in
  let Hc := fresh "Hc" in
  intros c r Hc; destruct c; simpl in Hc; try exact I; set_solver.

Lemma annotated_hasUpgradeID annotations :
  hasUpgradeID (annotate annotations UpgradeIDAnnotationKey (upgradeID cfg))
    (upgradeID cfg) = true.
Proof.
  apply hasUpgradeID_lookup. unfold annotate, annotationLookup. apply lookup_insert_eq.
Qed.

Lemma updateMachine_onlyListed machines name machine creator :
  (exists listed,
     listed ∈ machines /\ eligible cfg listed = true /\
     mName machine = mName listed /\ mNamespace machine = mNamespace listed) ->
  emits (onlyListed cfg machines) (updateMachine E cfg name machine creator).
Proof.
  intros Hlisted st.
  destruct (updateMachine_as_afterNewMachine E cfg name machine creator st)
    as [[oldHostName ->]|Hsilent].
  2:{ exists []. split; [|constructor]. unfold extends. rewrite Hsilent, app_nil_r.
      reflexivity. }
  revert st. apply emits_bind.
  - apply (emits_runs _ [KCreateMachine; KGetMachine; KListNodes; KGetPod]);
      [apply NewMachine_runs|by_kind].
  - intros created. apply teardown_emits.
    + by_kind.
    + intros r. exact Hlisted.
    + intros r. apply annotated_hasUpgradeID.
Qed.

Lemma replaceMachine_onlyListed machines creator machine :
  machine ∈ machines -> eligible cfg machine = true ->
  emits (onlyListed cfg machines) (replaceMachine E cfg creator machine).
Proof.
  intros Hin Hel. unfold replaceMachine.
  destruct (Split (mName machine) "-") as [|part0 [|part1 parts]];
    try (apply emits_silent; reflexivity).
  apply emits_bind; [apply emits_silent; reflexivity|].
  intros st0. cbv zeta. apply emits_bind.
  { apply (emits_runs _ [KGetObject]); [apply updateObjectReference_runs|by_kind]. }
  intros [infraMachine object].
  apply emits_bind; [apply emits_doCall; intros r; exact I|].
  intros r. apply emits_bind.
  { apply emits_silent. intros st. destruct (reply_err r); reflexivity. }
  intros _. apply emits_bind.
  { apply (emits_runs _ [KGetObject]); [apply updateObjectReference_runs|by_kind]. }
  intros [bootstrap object0]. apply updateMachine_onlyListed.
  exists machine. repeat split; assumption.
Qed.

Lemma updateCRDsLoop_onlyListed machines creator items :
  (forall m, m ∈ items -> m ∈ machines) ->
  emits (onlyListed cfg machines) (updateCRDsLoop E cfg creator items).
Proof.
  induction items as [|machine rest IH]; intros Hsub; simpl.
  - apply emits_silent. reflexivity.
  - assert (Hrest : emits (onlyListed cfg machines) (updateCRDsLoop E cfg creator rest)).
    { apply IH. intros m Hm. apply Hsub. right. exact Hm. }
    destruct (hasUpgradeID (mAnnotations machine) (upgradeID cfg)) eqn:Hid; [exact Hrest|].
    destruct (specProviderID (mSpec machine)) as [raw|] eqn:Hraw; [|exact Hrest].
    apply emits_bind; [|intros _; exact Hrest].
    apply replaceMachine_onlyListed; [apply Hsub; left|].
    unfold eligible. rewrite Hid, Hraw. reflexivity.
Qed.

Lemma updateCRDs_onlyListed machines :
  emits (onlyListed cfg machines) (updateCRDs E cfg machines).
Proof.
  unfold updateCRDs. apply emits_bind.
  { apply (emits_runs _ [KListPods; KExec]); [apply oldNodeToEtcdMemberId_runs|by_kind]. }
  intros _. apply emits_bind; [apply emits_silent; reflexivity|].
  intros st0. apply updateCRDsLoop_onlyListed. intros m Hm. exact Hm.
Qed.

(** X21: whatever the cluster answers, [Upgrade] deletes no Machine but
    those of its own listing that do not carry the upgrade id and have a
    provider id: every deletion it sends is of such a Machine, by name and
    namespace.  The Machine that a patch of it sends has the upgrade
    annotation with the id of this upgrade, which is what makes a later run
    skip it. *)
Theorem Upgrade_deletes_only_listed_machines (st : state) :
  let listed :=
    fst (reply_machines
           (api E (trace st)
              (ListMachines (clusterName cfg) (clusterNamespace cfg)))) in
  exists evs,
    extends st evs (snd (ControlPlaneUpgrader_Upgrade E cfg st)) /\
    Forall (onlyListed cfg listed) evs.
Proof.
  intros listed. unfold ControlPlaneUpgrader_Upgrade.
  unfold bind at 1. unfold listMachines. unfold bind at 1. unfold doCall at 1.
  set (c := ListMachines (clusterName cfg) (clusterNamespace cfg)) in *.
  set (r := api E (trace st) c) in *.
  destruct (reply_machines r) as [machines err] eqn:Hreply. subst listed. simpl.
  destruct err as [e|]; simpl.
  { exists [(c, r)]. split; [reflexivity|]. repeat constructor. }
  assert (Hrest : forall m : M unit,
            emits (onlyListed cfg machines) m ->
            exists evs, extends st evs (snd (m (record (c, r) st))) /\
                        Forall (onlyListed cfg machines) evs).
  { intros m Hm. destruct (Hm (record (c, r) st)) as (evs & Hext & HP).
    exists ((c, r) :: evs). split; [|constructor; [exact I|exact HP]].
    unfold extends in *. rewrite Hext. simpl. rewrite <- app_assoc. reflexivity. }
  apply Hrest. clear Hrest Hreply.
  destruct machines as [|machine rest]; [apply emits_silent; reflexivity|].
  apply emits_bind.
  { apply emits_wrapping, emits_silent. reflexivity. }
  intros [mn mx]. apply emits_bind.
  { apply emits_silent. intros s. destruct (EQ _ _); reflexivity. }
  intros _. apply emits_bind; [apply emits_silent; reflexivity|].
  intros st0. apply emits_bind.
  { destruct (isMinorVersionUpgrade mn (desiredVersion st0));
      [|apply emits_silent; reflexivity].
    apply emits_bind; [|intros _].
    - apply (emits_runs _ [KGetConfigMap; KCreateConfigMap]);
        [apply updateKubeletConfigMapIfNeeded_runs|by_kind].
    - apply (emits_runs _ [KGetRole; KCreateRole; KGetRoleBinding; KCreateRoleBinding]);
        [apply updateKubeletRbacIfNeeded_runs|by_kind]. }
  intros _. apply emits_bind.
  { apply (emits_runs _ [KListPods; KExec]); [apply etcdClusterHealthCheck_runs|by_kind]. }
  intros _. apply emits_bind.
  { apply (emits_runs _ [KListNodes]); [apply UpdateProviderIDsToNodes_runs|by_kind]. }
  intros _. apply emits_bind.
  { apply (emits_runs _ [KGetConfigMap; KUpdateConfigMap]);
      [apply updateAndUploadKubeadmKubernetesVersion_runs|by_kind]. }
  intros _. apply updateCRDs_onlyListed.
Qed.

End Targets.

Section HealthFirst.
Context (E : Env) (cfg : Config).

Lemma healthFirst_preparing evs : Forall preparing evs -> healthFirst evs.
Proof.
  intros Hall i ev Hi Hchange. rewrite Forall_lookup in Hall.
  destruct (Hall i ev Hi) as [Hrewrite Hstep].
  destruct Hchange as [H|H]; congruence.
Qed.

Lemma healthChecked_preparing ev : healthChecked ev -> preparing ev.
Proof.
  intros (namespace & name & pod & endpoints & out & err & ->). split; reflexivity.
Qed.

Lemma healthFirst_after pre checked post :
  Forall preparing pre -> healthChecked checked ->
  healthFirst (pre ++ checked :: post).
Proof.
  intros Hpre Hchecked i ev Hi Hchange.
  destruct (Nat.lt_trichotomy i (length pre)) as [Hlt|[Heq|Hgt]].
  - rewrite lookup_app_l in Hi by exact Hlt. rewrite Forall_lookup in Hpre.
    destruct (Hpre i ev Hi) as [Hrewrite Hstep].
    destruct Hchange as [H|H]; congruence.
  - subst i. rewrite list_lookup_middle in Hi by reflexivity. injection Hi as <-.
    destruct (healthChecked_preparing checked Hchecked) as [Hrewrite Hstep].
    destruct Hchange as [H|H]; congruence.
  - exists (length pre), checked. split; [exact Hgt|]. split; [|exact Hchecked].
    apply list_lookup_middle. reflexivity.
Qed.

Lemma healthFirst_app pre evs :
  Forall preparing pre -> healthFirst evs -> healthFirst (pre ++ evs).
Proof.
  intros Hpre Hevs i ev Hi Hchange.
  destruct (Nat.lt_ge_cases i (length pre)) as [Hlt|Hge].
  - rewrite lookup_app_l in Hi by exact Hlt. rewrite Forall_lookup in Hpre.
    destruct (Hpre i ev Hi) as [Hrewrite Hstep].
    destruct Hchange as [H|H]; congruence.
  - rewrite lookup_app_r in Hi by exact Hge.
    destruct (Hevs _ ev Hi Hchange) as (j & checked & Hj & Hlook & Hchecked).
    exists (length pre + j)%nat, checked. split; [lia|]. split; [|exact Hchecked].
    rewrite lookup_app_r by lia. replace (length pre + j - length pre)%nat with j by lia.
    exact Hlook.
Qed.

Lemma guarded_bind {A B} (m : M A) (f : A -> M B) :
  emits preparing m -> (forall a, guarded (f a)) -> guarded (bind m f).
Proof.
  intros Hm Hf st. unfold bind. destruct (Hm st) as (evs1 & Hext1 & HP1).
  destruct (m st) as [[a|e|p] s1]; simpl in Hext1;
    try (exists evs1; split; [exact Hext1|apply healthFirst_preparing, HP1]).
  destruct (Hf a s1) as (evs2 & Hext2 & HP2).
  exists (evs1 ++ evs2)%list. split; [eapply extends_trans; eassumption|].
  apply healthFirst_app; assumption.
Qed.

Lemma guarded_silent {A} (m : M A) :
  (forall st, trace (snd (m st)) = trace st) -> guarded m.
Proof.
  intros Hm st. exists []. split.
  - unfold extends. rewrite Hm, app_nil_r. reflexivity.
  - intros i ev Hi. discriminate.
Qed.

(** A health check that passed ends on the health command, and made no
    change before it. *)
Lemma etcdClusterHealthCheck_Ok timeout st st' :
  etcdClusterHealthCheck E timeout st = (Ok tt, st') ->
  exists pre checked,
    st' = after st (pre ++ [checked]) /\ Forall preparing pre /\ healthChecked checked.
Proof.
  unfold etcdClusterHealthCheck, listEtcdMembers. intros H.
  apply bind_Ok in H as (members & s1 & Hmembers & H).
  apply bind_Ok in Hmembers as ([out1 err1] & s2 & Hctl1 & Hmembers).
  apply wrapping_Ok in Hmembers. apply lift_Ok in Hmembers as [_ ->].
  apply bind_Ok in H as ([out2 err2] & s3 & Hctl2 & H).
  apply ret_Ok in H as [_ ->].
  apply etcdctl_Ok_iff in Hctl1 as (pod1 & rest1 & -> & _).
  apply etcdctl_Ok_iff in Hctl2 as (pod2 & rest2 & -> & _).
  rewrite after_after. unfold etcdctlEvents.
  eexists [_; _; _], _. split; [reflexivity|]. split.
  - repeat constructor.
  - eexists _, _, pod2, _, out2, err2. reflexivity.
Qed.

Lemma guarded_health {B} timeout (f : unit -> M B) :
  (forall a, emits (fun _ => True) (f a)) ->
  guarded (bind (etcdClusterHealthCheck E timeout) f).
Proof.
  intros Hf st. unfold bind.
  destruct (runs_events [KListPods; KExec] (etcdClusterHealthCheck E timeout) st
              (etcdClusterHealthCheck_runs E timeout)) as (evs1 & Hext1 & Hk1).
  assert (Hquiet : Forall preparing evs1).
  { eapply Forall_impl; [exact Hk1|]. intros [c r] Hc. unfold preparing, isRewrite,
      isMachineStep. simpl in *. destruct (kindOf c); try (split; reflexivity); set_solver. }
  destruct (etcdClusterHealthCheck E timeout st) as [[[]|e|p] s1] eqn:Hrun;
    simpl in Hext1;
    try (exists evs1; split; [exact Hext1|apply healthFirst_preparing, Hquiet]).
  apply etcdClusterHealthCheck_Ok in Hrun as (pre & checked & -> & Hpre & Hchecked).
  destruct (Hf tt (after st (pre ++ [checked]))) as (evs2 & Hext2 & _).
  exists ((pre ++ [checked]) ++ evs2)%list. split.
  - eapply extends_trans; [apply extends_after|exact Hext2].
  - rewrite <- app_assoc. simpl. apply healthFirst_after; assumption.
Qed.

Ltac quiet_kinds :=
  let c := fresh "c" in
  let r := fresh "r" in
  let Hc := fresh "Hc" in
  intros c r Hc; unfold preparing, isRewrite, isMachineStep; simpl in *;
  destruct (kindOf c); try (split; reflexivity); set_solver.

(** X22: whatever the cluster answers, [Upgrade] rewrites the
    kubeadm-config and takes the first step of a replacement only after an
    etcd health check that passed: before the health command has returned
    without error there is no update of a ConfigMap, no clone or Machine
    created, no member removed, no Machine deleted or patched.  (The
    ConfigMap, the Role and the RoleBinding of the kubelet configuration
    are created before the check.) *)
Theorem Upgrade_changes_nothing_before_health_check (st : state) :
  exists evs,
    extends st evs (snd (ControlPlaneUpgrader_Upgrade E cfg st)) /\
    healthFirst evs.
Proof.
  revert st. change (guarded (ControlPlaneUpgrader_Upgrade E cfg)).
  unfold ControlPlaneUpgrader_Upgrade.
  apply guarded_bind.
  { apply (emits_runs _ [KListMachines]); [apply listMachines_runs|quiet_kinds]. }
  intros machines. destruct machines as [|machine rest];
    [apply guarded_silent; reflexivity|].
  apply guarded_bind; [apply emits_wrapping, emits_silent; reflexivity|].
  intros [mn mx]. apply guarded_bind.
  { apply emits_silent. intros s. destruct (EQ _ _); reflexivity. }
  intros _. apply guarded_bind; [apply emits_silent; reflexivity|].
  intros st0. apply guarded_bind.
  { destruct (isMinorVersionUpgrade mn (desiredVersion st0));
      [|apply emits_silent; reflexivity].
    apply emits_bind; [|intros _].
    - apply (emits_runs _ [KGetConfigMap; KCreateConfigMap]);
        [apply updateKubeletConfigMapIfNeeded_runs|quiet_kinds].
    - apply (emits_runs _ [KGetRole; KCreateRole; KGetRoleBinding; KCreateRoleBinding]);
        [apply updateKubeletRbacIfNeeded_runs|quiet_kinds]. }
  intros _. apply guarded_health. intros _.
  apply emits_bind.
  { apply (emits_runs _ [KListNodes]); [apply UpdateProviderIDsToNodes_runs|].
    intros c r Hc. exact I. }
  intros _. apply emits_bind.
  { apply (emits_runs _ [KGetConfigMap; KUpdateConfigMap]);
      [apply updateAndUploadKubeadmKubernetesVersion_runs|]. intros c r Hc. exact I. }
  intros _. apply (emits_runs _ (KExec :: replacementKinds)); [apply updateCRDs_runs|].
  intros c r Hc. exact I.
Qed.

End HealthFirst.

(** ** A machine without a bootstrap reference, and the member removed *)

Section Member.
Context (E : Env) (cfg : Config).

(** X23: a machine whose bootstrap config reference is nil is never
    replaced.  Its replacement never returns without error and creates no
    Machine: it makes at most two calls, the read and the creation of the
    clone of the infrastructure object, and when that creation succeeded it
    panics on the nil reference, leaving the clone behind. *)
Theorem replaceMachine_without_bootstrap_ref (creator : MachineCreator)
    (machine : Machine) (st : state) :
  specBootstrapConfigRef (mSpec machine) = None ->
  (forall u, fst (replaceMachine E cfg creator machine st) <> Ok u) /\
  exists evs,
    extends st evs (snd (replaceMachine E cfg creator machine st)) /\
    (length evs <= 2)%nat /\
    Forall (fun ev => kindOf (fst ev) ∈ [KGetObject; KCreateObject]) evs /\
    forall obj,
      evs !! 1%nat = Some (CreateObject obj, RErr None) ->
      fst (replaceMachine E cfg creator machine st) = Panic nilDeref.
Proof.
  intros Hnil.
  set (run := replaceMachine E cfg creator machine st).
  assert (Hfail : forall e,
            run = (Err e, st) ->
            (forall u, fst run <> Ok u) /\
            exists evs,
              extends st evs (snd run) /\ (length evs <= 2)%nat /\
              Forall (fun ev => kindOf (fst ev) ∈ [KGetObject; KCreateObject]) evs /\
              forall obj,
                evs !! 1%nat = Some (CreateObject obj, RErr None) ->
                fst run = Panic nilDeref).
  { intros e ->. split; [intros u; discriminate|]. exists [].
    split; [apply extends_refl|]. split; [simpl; lia|]. split; [constructor|].
    intros obj Hobj. discriminate. }
  destruct (Split (mName machine) "-") as [|part0 [|part1 parts]] eqn:Hsplit;
    try (eapply Hfail; subst run; unfold replaceMachine; rewrite Hsplit; reflexivity).
  clear Hfail.
  set (name := part0 ++ "-" ++ part1 ++ "-" ++ Z_to_string (nowUnix E (trace st))).
  set (infra := specInfrastructureRef (mSpec machine)).
  set (ref := if String.eqb (refNamespace infra) ""
              then mkRef (refKind infra) "default" (refName infra) (refAPIVersion infra)
                     (refResourceVersion infra)
              else infra).
  set (c1 := GetObject ref (refNamespace ref)).
  set (r1 := api E (trace st) c1).
  set (st1 := record (c1, r1) st).
  destruct (reply_object r1) as [object err] eqn:Hr1.
  set (clone := clonedObject name object).
  set (c2 := CreateObject clone).
  set (r2 := api E (trace st1) c2).
  assert (Hrun : run =
            match err with
            | Some e => (Err e, st1)
            | None =>
                match reply_err r2 with
                | Some e => (Err e, record (c2, r2) st1)
                | None => (Panic nilDeref, record (c2, r2) st1)
                end
            end).
  { subst run. unfold replaceMachine. rewrite Hsplit.
    unfold bind at 1. unfold getState. fold name.
    unfold bind at 1. unfold updateObjectReference at 1. fold infra. fold ref.
    unfold bind at 1. unfold doCall at 1. fold c1. fold r1. fold st1. rewrite Hr1.
    destruct err as [e|]; [reflexivity|].
    unfold bind at 1. unfold check at 1. unfold ret at 1. unfold ret at 1.
    unfold bind at 1. unfold doCall at 1. fold clone. fold c2. fold r2.
    unfold bind at 1. destruct (reply_err r2) as [e|]; [reflexivity|].
    unfold check, ret. unfold bind at 1. cbn [withRefs withSpec mSpec specBootstrapConfigRef].
    rewrite Hnil. reflexivity. }
  rewrite Hrun. destruct err as [e|].
  { split; [intros u; discriminate|]. exists [(c1, r1)].
    split; [reflexivity|]. split; [simpl; lia|]. split; [repeat constructor; set_solver|].
    intros obj Hobj. discriminate. }
  destruct (reply_err r2) as [e|] eqn:Herr.
  - split; [intros u; discriminate|]. exists [(c1, r1); (c2, r2)].
    split; [subst st1; extends_solve|]. split; [simpl; lia|].
    split; [repeat constructor; set_solver|].
    intros obj Hobj. injection Hobj as _ Hr. rewrite Hr in Herr. discriminate.
  - split; [intros u; discriminate|]. exists [(c1, r1); (c2, r2)].
    split; [subst st1; extends_solve|]. split; [simpl; lia|].
    split; [repeat constructor; set_solver|].
    intros obj Hobj. reflexivity.
Qed.

End Member.

Lemma replaceMachine_without_bootstrap_ref_witness :
  (forall u,
     fst (replaceMachine Scenario.env Scenario.config Cases.creator
            (mkMachine "controlplane-0" "default" "40" None
               (mkMachineSpec (Some "v1.13.7") (Some "aws:///us-east-1a/i-old0")
                  Scenario.infraRef None))
            Scenario.recorded) <> Ok u) /\
  exists evs,
    extends Scenario.recorded evs
      (snd (replaceMachine Scenario.env Scenario.config Cases.creator
              (mkMachine "controlplane-0" "default" "40" None
                 (mkMachineSpec (Some "v1.13.7") (Some "aws:///us-east-1a/i-old0")
                    Scenario.infraRef None))
              Scenario.recorded)) /\
    (length evs <= 2)%nat /\
    Forall (fun ev => kindOf (fst ev) ∈ [KGetObject; KCreateObject]) evs /\
    forall obj,
      evs !! 1%nat = Some (CreateObject obj, RErr None) ->
      fst (replaceMachine Scenario.env Scenario.config Cases.creator
             (mkMachine "controlplane-0" "default" "40" None
                (mkMachineSpec (Some "v1.13.7") (Some "aws:///us-east-1a/i-old0")
                   Scenario.infraRef None))
             Scenario.recorded) = Panic nilDeref.
Proof.
  apply (replaceMachine_without_bootstrap_ref Scenario.env Scenario.config).
  reflexivity.
Defined.

Section Removed.
Context (E : Env) (cfg : Config).

Lemma appends_bind {A B} (m : M A) (f : A -> M B) :
  appends m -> (forall a, appends (f a)) -> appends (bind m f).
Proof.
  intros Hm Hf st. unfold bind. destruct (Hm st) as (evs1 & H1).
  destruct (m st) as [[a|e|p] s1]; simpl in H1; try (exists evs1; exact H1).
  destruct (Hf a s1) as (evs2 & H2). exists (evs1 ++ evs2)%list.
  rewrite H2, H1, after_after. reflexivity.
Qed.

Lemma appends_still {A} (m : M A) : (forall st, snd (m st) = st) -> appends m.
Proof. intros Hm st. exists []. rewrite Hm, after_nil. reflexivity. Qed.

Lemma appends_doCall c : appends (doCall E c).
Proof. intros st. exists [(c, api E (trace st) c)]. reflexivity. Qed.

Lemma appends_wrapping {A} f (m : M A) : appends m -> appends (wrapping f m).
Proof.
  intros Hm st. unfold wrapping. destruct (Hm st) as (evs & H). exists evs.
  destruct (m st) as [[a|e|p] s1]; exact H.
Qed.

Lemma appends_pollLoop {V} n (condition : V -> M (bool * V)) v :
  (forall v, appends (condition v)) -> appends (pollLoop n condition v).
Proof.
  intros Hc. revert v. induction n as [|n IH]; intros v; simpl;
    (apply appends_bind; [apply Hc|]); intros [[|] v']; simpl;
    try (apply appends_still; reflexivity). apply IH.
Qed.

Lemma appends_PollImmediate {V} interval timeout (condition : V -> M (bool * V)) v :
  (forall v, appends (condition v)) ->
  appends (PollImmediate E interval timeout condition v).
Proof. intros Hc st. unfold PollImmediate. apply appends_pollLoop. exact Hc. Qed.

Lemma check_still f err st : snd (check f err st) = st.
Proof. destruct err; reflexivity. Qed.

Lemma NewMachine_appends n namespace name source :
  appends (NewMachine E n namespace name source).
Proof.
  unfold NewMachine.
  apply appends_bind.
  { apply appends_still. intros st. destruct (_ && _); reflexivity. }
  intros spec. apply appends_bind; [apply appends_doCall|].
  intros r. apply appends_bind; [apply appends_still, check_still|].
  intros _.
  destruct (shouldWaitForProviderID n); [|apply appends_still; reflexivity].
  apply appends_bind.
  { unfold waitForProviderID. apply appends_wrapping. apply appends_PollImmediate. intros v.
    apply appends_bind; [apply appends_doCall|].
    intros r'. destruct (reply_machine r') as [machine err].
    apply appends_bind; [apply appends_still, check_still|].
    intros _. apply appends_still. intros st.
    destruct (specProviderID (mSpec machine)) as [p|]; [|reflexivity].
    destruct (negb (String.eqb p "")); reflexivity. }
  intros providerID.
  destruct (shouldWaitForMatchingNode n); [|apply appends_still; reflexivity].
  apply appends_bind.
  { unfold waitForMatchingNode.
    apply appends_bind; [apply appends_still; reflexivity|].
    intros pid. apply appends_bind; [|intros; apply appends_still; reflexivity].
    apply appends_wrapping. apply appends_PollImmediate. intros v.
    apply appends_bind; [apply appends_doCall|].
    intros r'. destruct (reply_nodes r') as [nodes err].
    apply appends_bind; [apply appends_still, check_still|].
    intros _. apply appends_still. reflexivity. }
  intros node.
  destruct (shouldWaitForNodeReady n); [|apply appends_still; reflexivity].
  apply appends_bind; [|intros; apply appends_still; reflexivity].
  unfold waitForNodeReady.
  apply appends_bind; [apply appends_still; reflexivity|].
  intros hostname. destruct (String.eqb hostname ""); [apply appends_still; reflexivity|].
  apply appends_wrapping. apply appends_PollImmediate. intros [].
  apply appends_bind; [|intros; apply appends_still; reflexivity].
  unfold isReady. generalize components as cs.
  induction cs as [|component cs IH]; simpl; [apply appends_still; reflexivity|].
  apply appends_bind; [apply appends_doCall|].
  intros r'. destruct (reply_pod r') as [pod err].
  destruct (IsNotFound err); [apply appends_still; reflexivity|].
  destruct err; [apply appends_still; reflexivity|].
  destruct (Nat.ltb 0 (size (missingConditions pod)));
    [apply appends_still; reflexivity|exact IH].
Qed.

Lemma deleteEtcdMember_removes timeout newNode etcdMemberId :
  emits (removes etcdMemberId) (deleteEtcdMember E timeout newNode etcdMemberId).
Proof.
  unfold deleteEtcdMember. apply emits_bind.
  { apply (emits_runs _ [KListPods]); [apply listEtcdPods_runs|].
    intros c r Hc. destruct c; simpl in Hc; try exact I.
    match goal with
    | H : context [isMemberRemove ?cmd] |- _ => destruct (isMemberRemove cmd)
    end; set_solver. }
  intros pods. destruct pods as [|p0 pods0]; [apply emits_silent; reflexivity|].
  destruct (find _ _) as [pod|]; [|apply emits_silent; reflexivity].
  apply emits_bind; [|intros; apply emits_silent; reflexivity].
  unfold etcdctlForPod. apply emits_bind.
  { apply emits_doCall. intros r. exists pod. repeat split. }
  intros r. destruct (reply_exec r) as [[out err] e].
  apply emits_bind; [|intros; apply emits_silent; reflexivity].
  apply emits_silent. intros st. destruct e; reflexivity.
Qed.

Ltac no_exec :=
  let c := fresh "c" in
  let r := fresh "r" in
  let Hc := fresh "Hc" in
  intros c r Hc; destruct c; simpl in Hc; try exact I;
  match goal with
  | H : context [isMemberRemove ?cmd] |- _ => destruct (isMemberRemove cmd)
  end; set_solver.

(** X24: the etcd member that [updateMachine] removes is the one recorded
    for the old node: every remote command of the replacement of a machine
    is [member remove] of the id that [oldNodeToEtcdMemberId] recorded
    under the hostname of the machine's old node, as it stood when
    [updateMachine] was called, and of the empty id when nothing was
    recorded under that hostname. *)
Theorem updateMachine_removes_member_of_old_node (name : string) (machine : Machine)
    (creator : MachineCreator) (rawProviderID : string) (providerID : ProviderID)
    (oldNode : Node) (st : state) :
  specProviderID (mSpec machine) = Some rawProviderID ->
  NewProviderID E rawProviderID = Ok providerID ->
  GetNodeFromProviderID st (pidID providerID) = Some oldNode ->
  exists evs,
    extends st evs (snd (updateMachine E cfg name machine creator st)) /\
    Forall (removes (default "" (oldNodeToEtcdMember st
                                   !! firstHostname (nAddresses oldNode)))) evs.
Proof.
  intros Hraw Hpid Hold.
  rewrite (updateMachine_unfold E cfg name machine creator rawProviderID providerID
             oldNode st Hraw Hpid Hold).
  set (oldHostName := firstHostname (nAddresses oldNode)).
  set (id := default "" (oldNodeToEtcdMember st !! oldHostName)).
  unfold bind at 1.
  destruct (emits_runs (removes id) [KCreateMachine; KGetMachine; KListNodes; KGetPod]
              (NewMachine E creator (clusterNamespace cfg) name machine)
              (NewMachine_runs E creator (clusterNamespace cfg) name machine)
              ltac:(no_exec) st) as (evs1 & Hext1 & HP1).
  destruct (NewMachine_appends creator (clusterNamespace cfg) name machine st)
    as (evs1' & Hafter).
  destruct (NewMachine E creator (clusterNamespace cfg) name machine st)
    as [[[newMachine node]|e|p] s1]; simpl in Hext1, Hafter;
    try (exists evs1; split; assumption).
  assert (Hsame : oldNodeToEtcdMember s1 = oldNodeToEtcdMember st)
    by (rewrite Hafter; reflexivity).
  assert (Hrest : exists evs2,
            extends s1 evs2 (snd (afterNewMachine E cfg machine oldHostName
                                    (newMachine, node) s1)) /\
            Forall (removes id) evs2).
  { unfold afterNewMachine. unfold bind at 1. unfold lift at 1.
    destruct (hostnameForNode node) as [nodeHostname|e|p];
      try (exists []; split; [apply extends_refl|constructor]).
    unfold bind at 1. unfold UpdateProviderIDsToNodes at 1.
    unfold bind at 1. unfold doCall at 1.
    set (r := api E (trace s1) ListNodes). set (s2 := record (ListNodes, r) s1).
    assert (Hone : exists evs2, extends s1 evs2 s2 /\ Forall (removes id) evs2).
    { exists [(ListNodes, r)]. split; [reflexivity|repeat constructor]. }
    destruct (reply_nodes r) as [nodes err].
    destruct err as [e|]; [exact Hone|]. simpl.
    match goal with
    | |- exists evs2, extends s1 evs2 (snd (_ ?s)) /\ _ => set (s3 := s)
    end.
    unfold bind at 1. unfold getState at 1.
    change (oldNodeToEtcdMember s3) with (oldNodeToEtcdMember s1). rewrite Hsame.
    fold id.
    match goal with
    | |- exists evs2, extends s1 evs2 (snd (?m s3)) /\ _ =>
        assert (Hm : emits (removes id) m)
    end.
    { apply emits_bind; [apply emits_wrapping, deleteEtcdMember_removes|].
      intros _. apply emits_bind.
      - apply (emits_runs _ [KDeleteMachine]); [apply deleteMachine_runs|no_exec].
      - intros _. apply (emits_runs _ [KPatchMachine]); [apply applyAnnotation_runs|no_exec]. }
    destruct (Hm s3) as (evs3 & Hext3 & HP3).
    exists ((ListNodes, r) :: evs3). split; [|constructor; [exact I|exact HP3]].
    unfold extends in *. rewrite Hext3. subst s3. simpl. rewrite <- app_assoc.
    reflexivity. }
  destruct Hrest as (evs2 & Hext2 & HP2).
  exists (evs1 ++ evs2)%list. split; [eapply extends_trans; eassumption|].
  apply Forall_app. split; assumption.
Qed.

End Removed.

Lemma updateMachine_removes_member_of_old_node_witness :
  exists evs,
    extends (snd (oldNodeToEtcdMemberId Scenario.env (1 * Minute) Scenario.recorded)) evs
      (snd (updateMachine Scenario.env Scenario.config "controlplane-0-1562177821"
              Scenario.machine0 Cases.creator
              (snd (oldNodeToEtcdMemberId Scenario.env (1 * Minute) Scenario.recorded)))) /\
    Forall (removes
              (default ""
                 (oldNodeToEtcdMember
                    (snd (oldNodeToEtcdMemberId Scenario.env (1 * Minute)
                            Scenario.recorded))
                  !! firstHostname (nAddresses Scenario.oldNode)))) evs.
Proof.
  apply (updateMachine_removes_member_of_old_node Scenario.env Scenario.config
           "controlplane-0-1562177821" Scenario.machine0 Cases.creator
           "aws:///us-east-1a/i-old0"
           (mkProviderID "aws:///us-east-1a/i-old0" "aws:" "i-old0")).
  - reflexivity.
  - vm_compute. reflexivity.
  - vm_compute. reflexivity.
Defined.

(** ** The clone of a reference, and the version of an upgrade *)

Section Reference.
Context (E : Env).

(** X25: [updateObjectReference] makes one call, the read of the
    referenced object in the namespace of the reference, [default] when
    that is empty.  When the read fails it returns its error.  Otherwise
    the reference it returns keeps kind and API version, has that
    namespace, the new name and no resource version; the clone it returns
    has the new name, no resource version and no owners, keeps the kind,
    the API version and the namespace of the object read, and keeps every
    field of its spec except [providerID]. *)
Theorem updateObjectReference_clones_what_it_reads (name : string)
    (ref : ObjectReference) (st : state) :
  let namespace := if String.eqb (refNamespace ref) "" then "default"
                   else refNamespace ref in
  let lookup := mkRef (refKind ref) namespace (refName ref) (refAPIVersion ref)
                  (refResourceVersion ref) in
  let r := api E (trace st) (GetObject lookup namespace) in
  snd (updateObjectReference E name (Some ref) st)
    = after st [(GetObject lookup namespace, r)] /\
  match reply_object r with
  | (object, None) =>
      exists clone,
        fst (updateObjectReference E name (Some ref) st)
          = Ok (mkRef (refKind ref) namespace name (refAPIVersion ref) "", clone) /\
        uName clone = name /\ uResourceVersion clone = "" /\
        uOwnerReferences clone = [] /\
        uKind clone = uKind object /\ uAPIVersion clone = uAPIVersion object /\
        uNamespace clone = uNamespace object /\
        uSpec clone !! "providerID" = None /\
        forall k, k <> "providerID" -> uSpec clone !! k = uSpec object !! k
  | (_, Some e) => fst (updateObjectReference E name (Some ref) st) = Err e
  end.
Proof.
  intros namespace lookup r. unfold updateObjectReference.
  assert (Href : (if String.eqb (refNamespace ref) ""
                  then mkRef (refKind ref) "default" (refName ref) (refAPIVersion ref)
                         (refResourceVersion ref)
                  else ref) = lookup).
  { subst lookup namespace. destruct (String.eqb (refNamespace ref) ""); [reflexivity|].
    destruct ref; reflexivity. }
  rewrite Href.
  change (refNamespace lookup) with namespace.
  unfold bind, doCall. fold r.
  destruct (reply_object r) as [object [e|]]; simpl.
  - split; reflexivity.
  - split; [reflexivity|]. exists (clonedObject name object).
    repeat split.
    + apply lookup_delete_eq.
    + intros k Hk. apply lookup_delete_ne. congruence.
Qed.

End Reference.

Section OneVersion.
Context (E : Env) (cfg : Config).

Lemma holding_bind {A B} d (P : event -> Prop) (m : M A) (f : A -> M B) :
  holding d P m -> (forall a, holding d P (f a)) -> holding d P (bind m f).
Proof.
  intros Hm Hf st Hd. unfold bind. destruct (Hm st Hd) as (evs1 & Hext1 & HP1 & Hd1).
  destruct (m st) as [[a|e|p] s1]; simpl in Hext1, Hd1;
    try (exists evs1; repeat split; assumption).
  destruct (Hf a s1 Hd1) as (evs2 & Hext2 & HP2 & Hd2).
  exists (evs1 ++ evs2)%list. split; [eapply extends_trans; eassumption|].
  split; [apply Forall_app; split; assumption|exact Hd2].
Qed.

Lemma holding_runs {A} d (P : event -> Prop) (ks : list kind) (m : M A) :
  steps (runs ks) m ->
  (forall c r, kindOf c ∈ ks -> P (c, r)) ->
  holding d P m.
Proof.
  intros Hm HP st Hd. destruct (Hm st) as [Hv (evs & Hext & Hks)].
  exists evs. split; [exact Hext|]. split; [|congruence].
  eapply Forall_impl; [exact Hks|]. intros [c r] Hc. apply HP, Hc.
Qed.

Lemma holding_emits {A} d (P : event -> Prop) (ks : list kind) (m : M A) :
  steps (runs ks) m -> emits P m -> holding d P m.
Proof.
  intros Hruns Hm st Hd. destruct (Hruns st) as [Hv _].
  destruct (Hm st) as (evs & Hext & HP). exists evs.
  split; [exact Hext|]. split; [exact HP|congruence].
Qed.

Ltac other_kinds :=
  let c := fresh "c" in
  let r := fresh "r" in
  let Hc := fresh "Hc" in
  intros c r Hc; destruct c; simpl in Hc; try exact I; set_solver.

Lemma NewMachine_versioned n namespace name source :
  emits (versioned E (DesiredVersion (creatorOptions n)))
    (NewMachine E n namespace name source).
Proof.
  unfold NewMachine.
  apply emits_bind.
  { apply emits_silent. intros st. destruct (_ && _); reflexivity. }
  intros spec. apply emits_bind; [apply emits_doCall; intros r; reflexivity|].
  intros r. apply emits_bind.
  { apply emits_silent. intros st. destruct (reply_err r); reflexivity. }
  intros _.
  apply (emits_runs _ [KGetMachine; KListNodes; KGetPod]); [steps_go|other_kinds].
Qed.

Lemma updateMachine_versioned name machine creator :
  emits (versioned E (DesiredVersion (creatorOptions creator)))
    (updateMachine E cfg name machine creator).
Proof.
  intros st.
  destruct (updateMachine_as_afterNewMachine E cfg name machine creator st)
    as [[oldHostName ->]|Hsilent].
  2:{ exists []. split; [|constructor]. unfold extends. rewrite Hsilent, app_nil_r.
      reflexivity. }
  revert st. apply emits_bind; [apply NewMachine_versioned|].
  intros created. apply teardown_emits.
  - other_kinds.
  - intros r. exact I.
  - intros r. exact I.
Qed.

Lemma updateCRDsLoop_versioned creator items :
  emits (versioned E (DesiredVersion (creatorOptions creator)))
    (updateCRDsLoop E cfg creator items).
Proof.
  induction items as [|machine rest IH]; simpl; [apply emits_silent; reflexivity|].
  destruct (hasUpgradeID (mAnnotations machine) (upgradeID cfg)); [exact IH|].
  destruct (specProviderID (mSpec machine)); [|exact IH].
  apply emits_bind; [|intros _; exact IH].
  unfold replaceMachine.
  destruct (Split (mName machine) "-") as [|part0 [|part1 parts]];
    try (apply emits_silent; reflexivity).
  apply emits_bind; [apply emits_silent; reflexivity|].
  intros st0. cbv zeta. apply emits_bind.
  { apply (emits_runs _ [KGetObject]); [apply updateObjectReference_runs|other_kinds]. }
  intros [infraMachine object].
  apply emits_bind; [apply emits_doCall; intros r; exact I|].
  intros r. apply emits_bind.
  { apply emits_silent. intros st. destruct (reply_err r); reflexivity. }
  intros _. apply emits_bind.
  { apply (emits_runs _ [KGetObject]); [apply updateObjectReference_runs|other_kinds]. }
  intros [bootstrap object0]. apply updateMachine_versioned.
Qed.

Lemma updateCRDs_versioned d machines :
  holding d (versioned E d) (updateCRDs E cfg machines).
Proof.
  unfold updateCRDs. apply holding_bind.
  { apply (holding_runs _ _ [KListPods; KExec]);
      [apply oldNodeToEtcdMemberId_runs|other_kinds]. }
  intros _ st Hd. unfold bind at 1. unfold getState at 1.
  match goal with
  | |- context [updateCRDsLoop E cfg ?creator machines] =>
      pose proof (updateCRDsLoop_versioned creator machines) as Hloop;
      pose proof (updateCRDsLoop_runs E cfg creator machines) as Hruns
  end.
  change (DesiredVersion (creatorOptions _)) with (desiredVersion st) in Hloop.
  subst d.
  destruct (Hloop st) as (evs & Hext & HP). destruct (Hruns st) as [Hv _].
  exists evs. split; [exact Hext|]. split; [exact HP|exact Hv].
Qed.

Lemma updateAndUpload_versioned d :
  holding d (versioned E d) (updateAndUploadKubeadmKubernetesVersion E).
Proof.
  intros st Hd.
  destruct (updateAndUploadKubeadmKubernetesVersion_runs E st) as [Hv _].
  cut (exists evs,
         extends st evs (snd (updateAndUploadKubeadmKubernetesVersion E st)) /\
         Forall (versioned E d) evs).
  { intros (evs & Hext & HP). exists evs. split; [exact Hext|].
    split; [exact HP|congruence]. }
  unfold updateAndUploadKubeadmKubernetesVersion.
  unfold bind at 1. unfold getConfigMap at 1. unfold bind at 1. unfold doCall at 1.
  set (r1 := api E (trace st) (GetConfigMap "kubeadm-config")).
  set (st1 := record (GetConfigMap "kubeadm-config", r1) st).
  unfold ret at 1. cbv beta iota.
  assert (Hone : exists evs, extends st evs st1 /\ Forall (versioned E d) evs).
  { exists [(GetConfigMap "kubeadm-config", r1)].
    split; [reflexivity|repeat constructor]. }
  destruct (reply_configMap r1) as [cm err]. cbn [fst snd].
  destruct err as [e|]; [exact Hone|].
  unfold check at 1. unfold bind at 1. unfold ret at 1. unfold bind at 1.
  unfold getState at 1.
  change (desiredVersion st1) with (desiredVersion st). rewrite Hd.
  set (version := "v" ++ VString d).
  unfold decodeConfigMap.
  destruct (cmData cm) as [data|] eqn:Hdata.
  2:{ unfold updateKubeadmKubernetesVersion, DeepCopy. cbn [cmData mapIndex].
      destruct (yamlUnmarshal E "") as [doc|e|p]; try exact Hone.
      destruct (yamlMarshal E _) as [text|e|p]; exact Hone. }
  unfold updateKubeadmKubernetesVersion, DeepCopy. cbn [cmData mapIndex].
  change (mapAt ([data] ++ [mapAt [data] 0])%list (length [data])) with data.
  destruct (yamlUnmarshal E (default "" (data !! "ClusterConfiguration")))
    as [doc|e|p] eqn:Hdoc; try exact Hone.
  destruct (yamlMarshal E (<["kubernetesVersion" := VStr version]> doc))
    as [text|e|p] eqn:Htext; try exact Hone.
  cbn [mapAssign]. unfold bind at 1. unfold lift at 1.
  unfold bind at 1. unfold doCall at 1.
  set (uploaded := encodeConfigMap _ _).
  set (r2 := api E (trace st1) (UpdateConfigMap uploaded)).
  exists [(GetConfigMap "kubeadm-config", r1); (UpdateConfigMap uploaded, r2)]. split.
  - destruct (reply_err r2) as [e|]; subst st1; extends_solve.
  - constructor; [exact I|]. constructor; [|constructor].
    exists data, doc, text. split; [reflexivity|exact Htext].
Qed.

(** X26: one upgrade writes one version.  Whatever the cluster answers,
    there is a version [d] such that every Machine [Upgrade] creates has
    [d] as its version and every update of the kubeadm-config it sends sets
    [kubernetesVersion] to the letter v followed by [d]; [d] is the desired
    version [Upgrade] was called with when the user's version is not the
    unset one. *)
Theorem Upgrade_writes_one_version (st : state) :
  exists d evs,
    extends st evs (snd (ControlPlaneUpgrader_Upgrade E cfg st)) /\
    Forall (versioned E d) evs /\
    (EQ (unsetVersion E) (userVersion cfg) = false -> d = desiredVersion st).
Proof.
  unfold ControlPlaneUpgrader_Upgrade.
  unfold bind at 1. unfold listMachines. unfold bind at 1. unfold doCall at 1.
  set (c := ListMachines (clusterName cfg) (clusterNamespace cfg)).
  set (r := api E (trace st) c).
  assert (Hstop : forall o : outcome unit, exists d evs,
            extends st evs (snd (o, record (c, r) st)) /\ Forall (versioned E d) evs /\
            (EQ (unsetVersion E) (userVersion cfg) = false -> d = desiredVersion st)).
  { intros o. exists (desiredVersion st), [(c, r)]. split; [reflexivity|].
    split; [repeat constructor|]. intros _. reflexivity. }
  destruct (reply_machines r) as [machines err].
  destruct err as [e|]; simpl; [apply (Hstop (Err (Wrap e "error listing machines")))|].
  destruct machines as [|machine rest];
    [apply (Hstop (Err (ErrorNew "Found 0 control plane machines")))|].
  set (machines := machine :: rest).
  unfold bind at 1. unfold wrapping, lift.
  destruct (minMaxControlPlaneVersions E machines) as [[mn mx]|e|p];
    [|apply (Hstop (Err _))|apply (Hstop (Panic p))].
  clear Hstop.
  set (d := if EQ (unsetVersion E) (userVersion cfg) then mx else desiredVersion st).
  set (st2 := mkState d (oldNodeToEtcdMember st) (providerIDsToNodes st)
                (trace st ++ [(c, r)])%list).
  assert (Hset : (if EQ (unsetVersion E) (userVersion cfg) then setDesiredVersion mx
                  else ret tt) (record (c, r) st) = (Ok tt, st2)).
  { subst st2 d. destruct (EQ (unsetVersion E) (userVersion cfg)); reflexivity. }
  unfold bind at 1. rewrite Hset.
  match goal with
  | |- exists d0 evs, extends st evs (snd (?m st2)) /\ _ =>
      assert (Hm : holding d (versioned E d) m)
  end.
  { apply holding_bind.
    { apply (holding_runs _ _ []); [apply steps_getState|other_kinds]. }
    intros st0. apply holding_bind.
    { destruct (isMinorVersionUpgrade mn (desiredVersion st0)).
      - apply holding_bind; [|intros _].
        + apply (holding_runs _ _ [KGetConfigMap; KCreateConfigMap]);
            [apply updateKubeletConfigMapIfNeeded_runs|other_kinds].
        + apply (holding_runs _ _ [KGetRole; KCreateRole; KGetRoleBinding;
                                   KCreateRoleBinding]);
            [apply updateKubeletRbacIfNeeded_runs|other_kinds].
      - apply (holding_runs _ _ []); [apply steps_ret|other_kinds]. }
    intros _. apply holding_bind.
    { apply (holding_runs _ _ [KListPods; KExec]);
        [apply etcdClusterHealthCheck_runs|other_kinds]. }
    intros _. apply holding_bind.
    { apply (holding_runs _ _ [KListNodes]);
        [apply UpdateProviderIDsToNodes_runs|other_kinds]. }
    intros _. apply holding_bind; [apply updateAndUpload_versioned|].
    intros _. apply updateCRDs_versioned. }
  destruct (Hm st2 eq_refl) as (evs & Hext & HP & _).
  exists d, ((c, r) :: evs). split; [|split].
  - unfold extends in *. rewrite Hext. subst st2. simpl. rewrite <- app_assoc.
    reflexivity.
  - constructor; [exact I|exact HP].
  - intros Hq. subst d. rewrite Hq. reflexivity.
Qed.

End OneVersion.
